(** * PennyLane: mid-circuit-measurement simulation, the one-shot transform,
      the decomposition-rule registry and the decompose transform

    A shallow embedding of
      - [pennylane/devices/qubit/simulate.py]
      - [pennylane/transforms/dynamic_one_shot.py]
      - [pennylane/decomposition/decomposition_rule.py]
      - [pennylane/transforms/decompose.py]
    followed by the properties proved about them.

    Conventions.  Python exceptions are values of [PyExc]; a call that may
    raise returns [Res].  Dictionaries whose iteration order the code relies
    on are association lists in insertion order.  Numerical kernels that live
    outside these files (state-vector algebra, sampling, [qml.math]) are
    fields of an interface class, so every statement holds for any backend. *)

From Stdlib Require Import ZArith List String Bool Lia Arith QArith Qabs Sorted.
From stdpp Require Import base gmap strings.
Import ListNotations.
Set Warnings "-register-all".
Local Open Scope Z_scope.
Local Open Scope list_scope.

(* ===================================================================== *)
(** * Part I: model *)
(* ===================================================================== *)

(** ** Python values shared by the three files *)

Module Py.

(** The exceptions raised by the modelled code.  [RecursionError] is what
    the fuel of a recursive model running out stands for. *)
Inductive PyExc : Type :=
| TypeError
| ValueError
| KeyError
| IndexError
| StopIteration
| AttributeError
| ZeroDivisionError
| NotImplementedError
| AssertionError
| QuantumFunctionError
| RecursionError.

Inductive Res (A : Type) : Type :=
| Ok (a : A)
| Raise (e : PyExc).
Arguments Ok {A} a.
Arguments Raise {A} e.

Definition bind {A B : Type} (r : Res A) (k : A -> Res B) : Res B :=
  match r with
  | Ok a => k a
  | Raise e => Raise e
  end.


(** [needle in haystack] for Python strings. *)
Fixpoint prefixb (p s : string) : bool :=
  match p, s with
  | EmptyString, _ => true
  | String a p', String b s' => if Ascii.eqb a b then prefixb p' s' else false
  | String _ _, EmptyString => false
  end.

Fixpoint str_contains (needle hay : string) : bool :=
  if prefixb needle hay then true
  else match hay with
       | EmptyString => false
       | String _ hay' => str_contains needle hay'
       end.

(** [results[0]] on a Python sequence. *)
Definition getitem0 {A : Type} (l : list A) : Res A :=
  match l with
  | x :: _ => Ok x
  | [] => Raise IndexError
  end.

End Py.
Export Py.

Notation "x <- c ;; k" := (Py.bind c (fun x => k))
  (at level 100, c at next level, right associativity).

(* --------------------------------------------------------------------- *)
(** ** Circuits: operators, measurement processes, shots, tapes *)
(* --------------------------------------------------------------------- *)

Module Circuit.

Definition Wire := nat.

Record Observable : Type := mkObs {
  obs_name : string;
  obs_wires : list Wire
}.

(** Modelled from the spec: the classes of operators, measurement processes
    and quantum scripts are not among the sources; the records below hold
    the attributes the three files read.

    [MidMeasureMP]: a mid-circuit measurement with its wires, its optional
    postselect value and its reset flag.  [mcm_id] is the identity under
    which the object is hashed and compared when it is a dictionary key. *)
Record MidMeasureMP : Type := mkMCM {
  mcm_id : nat;
  mcm_wires : list Wire;
  postselect : option Z;
  reset : bool;
  mcm_obs : option Observable
}.

(** Any operator that is not a [MidMeasureMP].  [op_type] is
    [str(type(op))]; [op_postselect] and [op_tracer] are read only on the
    compiler's own mid-circuit measurement operator. *)
Record Operation : Type := mkOp {
  op_type : string;
  op_wires : list Wire;
  op_batch_size : option nat;
  op_is_state_prep : bool;
  op_is_projector : bool;
  op_postselect : option Z;
  op_tracer : nat
}.

Inductive Operator : Type :=
| Op (o : Operation)
| MidMeasure (m : MidMeasureMP).

(** The classes of terminal measurement processes. *)
Inductive MPKind : Type :=
| CountsMP
| ExpectationMP
| ProbabilityMP
| SampleMP
| VarianceMP
| StateMP
| DensityMatrixMP
| VnEntropyMP
| MutualInfoMP
| PurityMP
| ClassicalShadowMP
| ShadowExpvalMP.

(** A measurement value: a function (named by [mv_fn]) of the outcomes of
    some mid-circuit measurements, or a classical tracer of the compiler. *)
Inductive MVal : Type :=
| MeasurementValue (ms : list MidMeasureMP) (mv_fn : nat)
| Tracer (t : nat).

(** The [mv] attribute of a measurement process: [None], one measurement
    value, or a sequence of them. *)
Inductive MV : Type :=
| MVNone
| MVOne (v : MVal)
| MVSeq (l : list MVal).

Record MeasurementProcess : Type := mkMP {
  mp_kind : MPKind;
  mp_obs : option Observable;
  mp_wires : list Wire;
  mp_mv : MV
}.

(** Modelled from the spec: the [Shots] class is not among the sources.  The
    spec gives a shot specification as [None] (analytic), an integer, or a
    shot vector; a finite specification is represented by the sequence of
    shot counts it iterates over (copies written out). *)
Inductive Shots : Type :=
| Analytic
| Finite (counts : list nat).

Record QuantumScript : Type := mkQS {
  operations : list Operator;
  measurements : list MeasurementProcess;
  shots : Shots;
  trainable_params : list nat
}.

Definition MPKind_eq_dec (a b : MPKind) : {a = b} + {a <> b}.
Proof. decide equality. Defined.

Definition MPKind_eqb (a b : MPKind) : bool :=
  if MPKind_eq_dec a b then true else false.

Definition Observable_eq_dec (a b : Observable) : {a = b} + {a <> b}.
Proof. repeat decide equality. Defined.

Definition MidMeasureMP_eq_dec (a b : MidMeasureMP) : {a = b} + {a <> b}.
Proof.
  decide equality;
    try apply Bool.bool_dec;
    try apply Nat.eq_dec;
    try (apply list_eq_dec; apply Nat.eq_dec).
  - decide equality. apply Observable_eq_dec.
  - decide equality. apply Z.eq_dec.
Defined.

(** [k == op] on dictionary keys. *)
Definition mcm_eqb (a b : MidMeasureMP) : bool :=
  if MidMeasureMP_eq_dec a b then true else false.

(** [bool(m.mv)]. *)
Definition mv_truthy (v : MV) : bool :=
  match v with
  | MVNone => false
  | MVOne _ => true
  | MVSeq l => negb (Nat.eqb (List.length l) 0)
  end.

(** [m.mv is None]. *)
Definition mv_is_None (v : MV) : bool :=
  match v with
  | MVNone => true
  | _ => false
  end.

(** [Shots(n)] for an integer. *)
Definition Shots_of_int (n : nat) : Shots := Finite [n].

Definition total_shots (s : Shots) : option nat :=
  match s with
  | Analytic => None
  | Finite l => Some (list_sum l)
  end.

(** [bool(shots)]: finite shots are truthy, analytic shots are not. *)
Definition Shots_bool (s : Shots) : bool :=
  match s with
  | Analytic => false
  | Finite _ => true
  end.

Definition has_partitioned_shots (s : Shots) : bool :=
  match s with
  | Analytic => false
  | Finite l => Nat.ltb 1 (List.length l)
  end.

(** [for s in shots]. *)
Definition Shots_iter (s : Shots) : list nat :=
  match s with
  | Analytic => []
  | Finite l => l
  end.

(** [tape.batch_size]: the batch size of the first broadcasted operator. *)
Definition batch_size (t : QuantumScript) : option nat :=
  match List.find (fun o => match o with
                            | Op o' => match op_batch_size o' with
                                       | Some _ => true
                                       | None => false
                                       end
                            | MidMeasure _ => false
                            end) (operations t) with
  | Some (Op o') => op_batch_size o'
  | _ => None
  end.

(** [qml.sample(wires=w)], [qml.sample(op=obs)], [SampleMP(obs=o)] and
    [qml.sample(mv)]. *)
Definition sample_wires (w : list Wire) : MeasurementProcess :=
  mkMP SampleMP None w MVNone.

Definition sample_obs (o : Observable) : MeasurementProcess :=
  mkMP SampleMP (Some o) [] MVNone.

Definition SampleMP_of_obs (o : option Observable) : MeasurementProcess :=
  mkMP SampleMP o [] MVNone.

Definition sample_mv (v : MVal) : MeasurementProcess :=
  mkMP SampleMP None [] (MVOne v).

(** [isinstance(op, MidMeasureMP)]. *)
Definition is_MidMeasureMP (o : Operator) : bool :=
  match o with
  | MidMeasure _ => true
  | Op _ => false
  end.

(** Wires of an operator and of a measurement process. *)
Definition wires_of_op (o : Operator) : list Wire :=
  match o with
  | Op o' => op_wires o'
  | MidMeasure m => mcm_wires m
  end.

Definition wires_of_mp (m : MeasurementProcess) : list Wire :=
  match mp_obs m with
  | Some o => obs_wires o
  | None => mp_wires m
  end.

(** Union of wire lists in order of first appearance. *)
Fixpoint wires_union (acc : list Wire) (ws : list Wire) : list Wire :=
  match ws with
  | [] => acc
  | w :: ws' =>
      if List.existsb (Nat.eqb w) acc then wires_union acc ws'
      else wires_union (acc ++ [w]) ws'
  end.

(** [circuit.op_wires] and [circuit.wires]. *)
Definition op_wires_of (t : QuantumScript) : list Wire :=
  wires_union [] (List.flat_map wires_of_op (operations t)).

Definition wires_of (t : QuantumScript) : list Wire :=
  wires_union (op_wires_of t) (List.flat_map wires_of_mp (measurements t)).

(** [sorted(wires)]. *)
Fixpoint insert_sorted (w : Wire) (l : list Wire) : list Wire :=
  match l with
  | [] => [w]
  | x :: l' => if Nat.leb w x then w :: l else x :: insert_sorted w l'
  end.

Definition sorted (l : list Wire) : list Wire :=
  List.fold_right insert_sorted [] l.

(** [circuit[0]] when it is a state preparation. *)
Definition prep_of (t : QuantumScript) : option Operation :=
  match operations t with
  | Op o :: _ => if op_is_state_prep o then Some o else None
  | _ => None
  end.

(** [circuit._shots = s]. *)
Definition set_shots (t : QuantumScript) (s : Shots) : QuantumScript :=
  mkQS (operations t) (measurements t) s (trainable_params t).

End Circuit.
Export Circuit.

(* --------------------------------------------------------------------- *)
(** ** [transforms/dynamic_one_shot.py] *)
(* --------------------------------------------------------------------- *)

Module OneShot.

(** Execution results as Python sees them: a tensor, a tuple or list, or a
    counts dictionary. *)
Inductive PyVal (T : Type) : Type :=
| PTensor (t : T)
| PSeq (l : list (PyVal T))
| PCounts (d : list (string * Z)).
Arguments PTensor {T} t.
Arguments PSeq {T} l.
Arguments PCounts {T} d.

(** What the transform uses from outside this file: the tensor type of the
    interface, [qml.transforms.broadcast_expand], the two [qml.math] calls of
    [reshape_data], iteration over a tensor, and the numerical reassembly
    [parse_native_mid_circuit_measurements]. *)
Class Env : Type := {
  Tensor : Type;
  broadcast_expand :
    QuantumScript -> list QuantumScript * (list (PyVal Tensor) -> Res (PyVal Tensor));
  squeeze_vstack : list (PyVal Tensor) -> Res Tensor;
  tensor_items : Tensor -> Res (list (PyVal Tensor));
  parse_native_mid_circuit_measurements :
    QuantumScript -> list QuantumScript -> list Tensor -> option string ->
    Res (PyVal Tensor)
}.

Definition PostprocessingFn `{Env} : Type :=
  list (PyVal Tensor) -> Res (PyVal Tensor).

(** The keyword arguments the transform reads. *)
Record Kwargs : Type := mkKwargs {
  kw_device : option string;
  kw_postselect_mode : option string
}.

Definition is_mcm (operation : Operator) : bool :=
  let mcm := is_MidMeasureMP operation in
  mcm || match operation with
         | Op o => str_contains "MidCircuitMeasure" (op_type o)
         | MidMeasure _ => false
         end.

Definition null_postprocessing `{Env} : PostprocessingFn :=
  fun results => getitem0 results.

(** [isinstance(m, (CountsMP, ExpectationMP, ProbabilityMP, SampleMP,
    VarianceMP))]. *)
Definition supported_kind (k : MPKind) : bool :=
  match k with
  | CountsMP | ExpectationMP | ProbabilityMP | SampleMP | VarianceMP => true
  | _ => false
  end.

(** The loop over [tape.measurements] that raises on the first unsupported
    measurement. *)
Fixpoint check_measurements (ms : list MeasurementProcess) : Res unit :=
  match ms with
  | [] => Ok tt
  | m :: ms' =>
      if negb (supported_kind (mp_kind m)) then Raise TypeError
      else check_measurements ms'
  end.

(** [op.postselect] of an operator for which [is_mcm] holds. *)
Definition postselect_of (o : Operator) : option Z :=
  match o with
  | MidMeasure m => postselect m
  | Op o' => op_postselect o'
  end.

Definition is_Some_b {A : Type} (o : option A) : bool :=
  match o with
  | Some _ => true
  | None => false
  end.

Fixpoint aux_mcm_measurements (ops : list Operator) : list MeasurementProcess :=
  match ops with
  | [] => []
  | op :: ops' =>
      match op with
      | Op o =>
          if str_contains "MidCircuitMeasure" (op_type o)
          then sample_mv (Tracer (op_tracer o)) :: aux_mcm_measurements ops'
          else aux_mcm_measurements ops'
      | MidMeasure m =>
          sample_mv (MeasurementValue [m] 0%nat) :: aux_mcm_measurements ops'
      end
  end.

Fixpoint aux_terminal_measurements (ms : list MeasurementProcess)
  : list MeasurementProcess :=
  match ms with
  | [] => []
  | m :: ms' =>
      if mv_is_None (mp_mv m) then
        (if MPKind_eqb (mp_kind m) VarianceMP
         then SampleMP_of_obs (mp_obs m)
         else m) :: aux_terminal_measurements ms'
      else aux_terminal_measurements ms'
  end.

(** [init_auxiliary_tape]: multiplying [[1]] by [total_shots] raises when
    the shots are analytic. *)
Definition init_auxiliary_tape (circuit : QuantumScript) : Res QuantumScript :=
  let new_measurements :=
    aux_terminal_measurements (measurements circuit)
      ++ aux_mcm_measurements (operations circuit) in
  match total_shots (shots circuit) with
  | None => Raise TypeError
  | Some n =>
      Ok (mkQS (operations circuit) new_measurements
               (Finite (List.repeat 1%nat n)) (trainable_params circuit))
  end.

Fixpoint map_res {A B : Type} (f : A -> Res B) (l : list A) : Res (list B) :=
  match l with
  | [] => Ok []
  | x :: l' =>
      y <- f x ;;
      ys <- map_res f l' ;;
      Ok (y :: ys)
  end.

Section ProcessingFn.
Context `{Env}.
Variable tape : QuantumScript.
Variable aux_tapes : list QuantumScript.
Variable postselect_mode : option string.
Variable broadcast_fn : option (list (PyVal Tensor) -> Res (PyVal Tensor)).

(** [list(v)] and [v[i]] on a result. *)
Definition as_list (v : PyVal Tensor) : Res (list (PyVal Tensor)) :=
  match v with
  | PSeq l => Ok l
  | PTensor t => tensor_items t
  | PCounts _ => Raise KeyError
  end.

Definition getitem (i : nat) (v : PyVal Tensor) : Res (PyVal Tensor) :=
  l <- as_list v ;;
  match List.nth_error l i with
  | Some x => Ok x
  | None => Raise IndexError
  end.

Definition is_Sequence (v : PyVal Tensor) : bool :=
  match v with
  | PSeq _ => true
  | _ => false
  end.

(** The tail of [processing_fn], reached with both flags set or with a
    tape that has neither broadcasting nor a shot vector. *)
Definition processing_tail (results : list (PyVal Tensor)) : Res (PyVal Tensor) :=
  results <- (if negb (has_partitioned_shots (shots tape))
              then (r0 <- getitem0 results ;; as_list r0)
              else Ok results) ;;
  r0 <- getitem0 results ;;
  let is_scalar := negb (is_Sequence r0) in
  results <- (if is_scalar
              then (t <- squeeze_vstack results ;; Ok [t])
              else
                (cols <- as_list r0 ;;
                 map_res (fun i =>
                            col <- map_res (getitem i) results ;;
                            squeeze_vstack col)
                         (List.seq 0 (List.length cols)))) ;;
  parse_native_mid_circuit_measurements tape aux_tapes results postselect_mode.

(** The loop over the shot vector: each bin takes the next [s] results. *)
Fixpoint processing_bins (bins : list nat) (results : list (PyVal Tensor))
  : Res (list (PyVal Tensor)) :=
  match bins with
  | [] => Ok []
  | s :: bins' =>
      r <- processing_tail (List.firstn s results) ;;
      rs <- processing_bins bins' (List.skipn s results) ;;
      Ok (r :: rs)
  end.

(** [processing_fn(results, batched_results=False)]. *)
Definition processing_unbatched (results : list (PyVal Tensor))
  : Res (PyVal Tensor) :=
  if has_partitioned_shots (shots tape) then
    r0 <- getitem0 results ;;
    results <- as_list r0 ;;
    final_results <- processing_bins (Shots_iter (shots tape)) results ;;
    Ok (PSeq final_results)
  else processing_tail results.

(** [processing_fn(results)] as the transform returns it. *)
Definition processing_fn : PostprocessingFn :=
  fun results =>
    match batch_size tape, broadcast_fn with
    | Some _, Some bfn =>
        final_results <- map_res (fun result => processing_unbatched [result]) results ;;
        bfn final_results
    | Some _, None => Raise TypeError
    | None, _ => processing_unbatched results
    end.

End ProcessingFn.

Definition dynamic_one_shot `{Env} (tape : QuantumScript) (kwargs : Kwargs)
  : Res (list QuantumScript * PostprocessingFn) :=
  if negb (List.existsb is_mcm (operations tape)) then
    Ok ([tape], null_postprocessing)
  else
    _ <- check_measurements (measurements tape) ;;
    if negb (Shots_bool (shots tape)) then Raise QuantumFunctionError
    else
      let samples_present :=
        List.existsb (fun mp => MPKind_eqb (mp_kind mp) SampleMP) (measurements tape) in
      let postselect_present :=
        List.existsb (fun op => is_Some_b (postselect_of op))
                     (List.filter is_mcm (operations tape)) in
      if postselect_present && samples_present && is_Some_b (batch_size tape)
      then Raise ValueError
      else
        let '(tapes, broadcast_fn) :=
          match batch_size tape with
          | Some _ => let '(ts, f) := broadcast_expand tape in (ts, Some f)
          | None => ([tape], None)
          end in
        aux_tapes <- map_res init_auxiliary_tape tapes ;;
        Ok (aux_tapes,
            processing_fn tape aux_tapes (kw_postselect_mode kwargs) broadcast_fn).

End OneShot.

(* --------------------------------------------------------------------- *)
(** ** [decomposition/decomposition_rule.py] *)
(* --------------------------------------------------------------------- *)

Module Decomp.

(** An operator class as the registry and the resource dictionaries see it:
    its [__name__], whether it is a subclass of [Operator], and its
    [resource_keys]. *)
Record OpType : Type := mkOpType {
  ot_name : string;
  ot_is_operator : bool;
  ot_resource_keys : list string
}.

(** [CompressedResourceOp]: an operator type name with its resource
    parameters. *)
Record CompressedResourceOp : Type := mkCRO {
  cro_op_type : string;
  cro_params : list (string * Z)
}.

#[export] Instance CompressedResourceOp_eq_dec : EqDecision CompressedResourceOp.
Proof. solve_decision. Defined.

#[export] Instance CompressedResourceOp_countable : Countable CompressedResourceOp.
Proof.
  refine (inj_countable' (fun c => (cro_op_type c, cro_params c))
                         (fun p => mkCRO (fst p) (snd p)) _).
  intros []. reflexivity.
Defined.

(** A key of the dictionary a resource function returns. *)
Inductive ResourceKey : Type :=
| KCompressed (c : CompressedResourceOp)
| KType (t : OpType)
| KObject (n : nat).

(** What a resource function returns: a dictionary (in insertion order) or
    some other object. *)
Inductive RawResources : Type :=
| RawDict (d : list (ResourceKey * Z))
| RawOther.

(** [Resources]: the gate counts of a decomposition. *)
Record Resources : Type := mkResources {
  gate_counts : gmap CompressedResourceOp Z
}.

(** What the rules use from outside this file: the arguments a quantum
    function is called with, its result, [resource_rep] called on a bare
    operator type, and [translate_op_alias]. *)
Class Env : Type := {
  Args : Type;
  Out : Type;
  resource_rep : OpType -> Res CompressedResourceOp;
  translate_op_alias : string -> string
}.

Section Rules.
Context `{Env}.

(** The [resources] argument of the constructor and of [set_resources]. *)
Inductive ResourcesArg : Type :=
| ResNone
| ResDict (d : list (ResourceKey * Z))
| ResCallable (f : Args -> Res RawResources).

Record DecompositionRule : Type := mkRule {
  _impl : Args -> Res Out;
  _source : string;
  _compute_resources : option (Args -> Res RawResources);
  _condition : option (Args -> Res bool)
}.

(** The branch on [isinstance(resources, dict)] shared by [__init__] and
    [set_resources]: a dictionary becomes the function [resource_fn] that
    ignores its arguments. *)
Definition resource_fn_of (resources : ResourcesArg)
  : option (Args -> Res RawResources) :=
  match resources with
  | ResDict d => Some (fun _ => Ok (RawDict d))
  | ResCallable f => Some f
  | ResNone => None
  end.

(** [DecompositionRule(func, resources, condition)]. *)
Definition DecompositionRule_init (func : Args -> Res Out) (source : string)
  (resources : ResourcesArg) (condition : option (Args -> Res bool))
  : DecompositionRule :=
  mkRule func source (resource_fn_of resources) condition.

Definition _auto_wrap (op_type : ResourceKey) : Res CompressedResourceOp :=
  match op_type with
  | KCompressed c => Ok c
  | KObject _ => Raise TypeError
  | KType t =>
      if negb (ot_is_operator t) then Raise TypeError
      else match resource_rep t with
           | Ok c => Ok c
           | Raise TypeError => Raise TypeError
           | Raise e => Raise e
           end
  end.

(** [gate_counter.update({k: count})] on a [Counter]. *)
Definition Counter_update (k : CompressedResourceOp) (count : Z)
  (gate_counter : gmap CompressedResourceOp Z) : gmap CompressedResourceOp Z :=
  <[k := default 0 (gate_counter !! k) + count]> gate_counter.

(** The loop of [compute_resources] over [raw_gate_counts.items()]. *)
Fixpoint count_gates (items : list (ResourceKey * Z))
  (gate_counter : gmap CompressedResourceOp Z)
  : Res (gmap CompressedResourceOp Z) :=
  match items with
  | [] => Ok gate_counter
  | (op, count) :: items' =>
      if 0 <? count then
        k <- _auto_wrap op ;;
        count_gates items' (Counter_update k count gate_counter)
      else count_gates items' gate_counter
  end.

Definition compute_resources (self : DecompositionRule) (args : Args)
  : Res Resources :=
  match _compute_resources self with
  | None => Raise NotImplementedError
  | Some f =>
      raw_gate_counts <- f args ;;
      match raw_gate_counts with
      | RawOther => Raise AssertionError
      | RawDict d =>
          gate_counter <- count_gates d ∅ ;;
          Ok (mkResources gate_counter)
      end
  end.

Definition is_applicable (self : DecompositionRule) (args : Args) : Res bool :=
  match _condition self with
  | None => Ok true
  | Some c => c args
  end.

Definition set_condition (self : DecompositionRule) (condition : Args -> Res bool)
  : DecompositionRule :=
  mkRule (_impl self) (_source self) (_compute_resources self) (Some condition).

Definition set_resources (self : DecompositionRule) (resources : ResourcesArg)
  : DecompositionRule :=
  mkRule (_impl self) (_source self) (resource_fn_of resources) (_condition self).

(** What is decorated: a plain quantum function with its source, or a
    rule already built. *)
Inductive QFunc : Type :=
| QPlain (func : Args -> Res Out) (source : string)
| QRule (rule : DecompositionRule).

(** [register_resources(resources, qfunc)]. *)
Definition register_resources (resources : ResourcesArg) (qfunc : QFunc)
  : DecompositionRule :=
  match qfunc with
  | QRule rule => set_resources rule resources
  | QPlain func source => DecompositionRule_init func source resources None
  end.

(** [register_condition(condition, qfunc)]. *)
Definition register_condition (condition : Args -> Res bool) (qfunc : QFunc)
  : DecompositionRule :=
  match qfunc with
  | QRule rule => set_condition rule condition
  | QPlain func source => DecompositionRule_init func source ResNone (Some condition)
  end.

(** [null_decomp]: the rule that does nothing and costs nothing. *)
Definition null_decomp (nothing : Args -> Res Out) : DecompositionRule :=
  register_resources (ResDict []) (QPlain nothing "def null_decomp(*_, **__): return").

(** *** The registry

    [_decompositions] is a [defaultdict(list)]: its values are list objects
    on the heap, so that a list handed out and the list stored can be told
    apart.  A location is a [positive]. *)
Definition loc := positive.

Record Store : Type := mkStore {
  heap : gmap loc (list DecompositionRule);
  _decompositions : gmap string loc
}.

Definition empty_store : Store := mkStore ∅ ∅.

(** The [op_type] argument: a class or a string. *)
Inductive OpTypeArg : Type :=
| ByType (t : OpType)
| ByName (s : string).

(** [if isinstance(op_type, type): op_type = op_type.__name__], then
    [translate_op_alias]. *)
Definition registry_key (op_type : OpTypeArg) : string :=
  translate_op_alias match op_type with
                     | ByType t => ot_name t
                     | ByName s => s
                     end.

(** Allocation of a new list object. *)
Definition alloc (l : list DecompositionRule) (st : Store) : loc * Store :=
  let r := fresh (dom (heap st)) in
  (r, mkStore (<[r := l]> (heap st)) (_decompositions st)).

(** [_decompositions[key]]: a missing key is given a new empty list. *)
Definition defaultdict_getitem (key : string) (st : Store) : loc * Store :=
  match _decompositions st !! key with
  | Some r => (r, st)
  | None =>
      let '(r, st') := alloc [] st in
      (r, mkStore (heap st') (<[key := r]> (_decompositions st')))
  end.

(** The contents of the list object at [r]. *)
Definition deref (r : loc) (st : Store) : list DecompositionRule :=
  default [] (heap st !! r).

(** Any in-place mutation of the list object at [r] ([append], [clear],
    [pop], item assignment, ...). *)
Definition list_mutate (r : loc) (f : list DecompositionRule -> list DecompositionRule)
  (st : Store) : Store :=
  mkStore (<[r := f (deref r st)]> (heap st)) (_decompositions st).

(** An argument of [add_decomps]: a rule, or some other object. *)
Inductive DecompArg : Type :=
| ARule (d : DecompositionRule)
| AOther.

Definition is_rule (a : DecompArg) : bool :=
  match a with
  | ARule _ => true
  | AOther => false
  end.

Definition rules_of (l : list DecompArg) : list DecompositionRule :=
  List.flat_map (fun a => match a with
                          | ARule d => [d]
                          | AOther => []
                          end) l.

Definition add_decomps (op_type : OpTypeArg) (decomps : list DecompArg)
  (st : Store) : Res Store :=
  if negb (List.forallb is_rule decomps) then Raise TypeError
  else
    let '(r, st') := defaultdict_getitem (registry_key op_type) st in
    Ok (list_mutate r (fun l => l ++ rules_of decomps) st').

(** [list_decomps]: the slice [[:]] is a new list object. *)
Definition list_decomps (op_type : OpTypeArg) (st : Store) : loc * Store :=
  let '(r, st') := defaultdict_getitem (registry_key op_type) st in
  alloc (deref r st') st'.

Definition has_decomp (op_type : OpTypeArg) (st : Store) : bool :=
  match _decompositions st !! registry_key op_type with
  | Some r => Nat.ltb 0 (List.length (deref r st))
  | None => false
  end.

(** What the registry holds: for every key, the rules of its list. *)
Definition registry_view (st : Store) : gmap string (list DecompositionRule) :=
  (fun r => deref r st) <$> _decompositions st.

End Rules.

End Decomp.

(* --------------------------------------------------------------------- *)
(** ** One-dimensional NumPy arrays and insertion-ordered dictionaries *)
(* --------------------------------------------------------------------- *)

Module Np.

(** [a == v]. *)
Definition eq_scalar (a : list Z) (v : Z) : list bool :=
  List.map (fun x => Z.eqb x v) a.

(** [np.logical_and(a, b)], with NumPy's broadcasting of a length-one
    operand; any other mismatch of lengths is a [ValueError]. *)
Definition logical_and (a b : list bool) : Res (list bool) :=
  if Nat.eqb (List.length a) (List.length b) then
    Ok (List.map (fun p => andb (fst p) (snd p)) (List.combine a b))
  else match a, b with
       | _, [y] => Ok (List.map (fun x => andb x y) a)
       | [x], _ => Ok (List.map (fun y => andb x y) b)
       | _, _ => Raise ValueError
       end.

Definition logical_not (a : list bool) : list bool := List.map negb a.

(** The elements of [a] at which [mask] holds; lengths are equal here. *)
Fixpoint select {A : Type} (a : list A) (mask : list bool) : list A :=
  match a, mask with
  | x :: a', m :: mask' => if m then x :: select a' mask' else select a' mask'
  | _, _ => []
  end.

(** [a[mask]]: a mask of another length is an [IndexError]. *)
Definition bool_index {A : Type} (a : list A) (mask : list bool) : Res (list A) :=
  if Nat.eqb (List.length a) (List.length mask) then Ok (select a mask)
  else Raise IndexError.

Definition count_true (mask : list bool) : nat :=
  List.length (List.filter (fun b => b) mask).

(** Writes the values in order at the positions where the mask holds. *)
Fixpoint scatter (a : list Z) (mask : list bool) (vals : list Z) : list Z :=
  match a, mask with
  | x :: a', m :: mask' =>
      if m then match vals with
                | v :: vals' => v :: scatter a' mask' vals'
                | [] => x :: scatter a' mask' []
                end
      else x :: scatter a' mask' vals
  | _, _ => a
  end.

(** [a[mask] = vals]: one value is broadcast, otherwise there must be as
    many values as positions. *)
Definition masked_assign (a : list Z) (mask : list bool) (vals : list Z)
  : Res (list Z) :=
  if negb (Nat.eqb (List.length a) (List.length mask)) then Raise IndexError
  else if Nat.eqb (List.length vals) (count_true mask) then Ok (scatter a mask vals)
  else match vals with
       | [v] => Ok (scatter a mask (List.repeat v (count_true mask)))
       | _ => Raise ValueError
       end.

Definition ones (n : nat) : list bool := List.repeat true n.

(** Sorted insertion of one sample into the counts of [np.unique]. *)
Fixpoint count_insert (x : Z) (counts : list (Z * Z)) : list (Z * Z) :=
  match counts with
  | [] => [(x, 1)]
  | (y, c) :: counts' =>
      if Z.eqb x y then (y, c + 1) :: counts'
      else if Z.ltb x y then (x, 1) :: counts
      else (y, c) :: count_insert x counts'
  end.

End Np.

Module Dict.

Section WithKey.
Context {K V : Type}.
Variable eqb : K -> K -> bool.

Fixpoint get (k : K) (d : list (K * V)) : option V :=
  match d with
  | [] => None
  | (k', v) :: d' => if eqb k' k then Some v else get k d'
  end.

(** [d[k]]. *)
Definition getitem (k : K) (d : list (K * V)) : Res V :=
  match get k d with
  | Some v => Ok v
  | None => Raise KeyError
  end.

(** [d[k] = v]: a present key keeps its position, a new key goes last. *)
Fixpoint set (k : K) (v : V) (d : list (K * V)) : list (K * V) :=
  match d with
  | [] => [(k, v)]
  | (k', v') :: d' => if eqb k' k then (k', v) :: d' else (k', v') :: set k v d'
  end.

Definition mem (k : K) (d : list (K * V)) : bool :=
  match get k d with
  | Some _ => true
  | None => false
  end.

End WithKey.

Definition keys {K V : Type} (d : list (K * V)) : list K := List.map fst d.
Definition values {K V : Type} (d : list (K * V)) : list V := List.map snd d.

End Dict.

(* --------------------------------------------------------------------- *)
(** ** [devices/qubit/simulate.py] *)
(* --------------------------------------------------------------------- *)

Module Simulate.

(** A key of a counts dictionary. *)
Definition CKey := string.

(** What a simulation returns: the scalar [np.nan], a tensor, a counts
    dictionary, or a tuple of results. *)
Inductive Result (V : Type) : Type :=
| RNaN
| RTensor (v : V)
| RCounts (d : list (CKey * Z))
| RTuple (l : list (Result V)).
Arguments RNaN {V}.
Arguments RTensor {V} v.
Arguments RCounts {V} d.
Arguments RTuple {V} l.

Definition ActiveDict := list (MidMeasureMP * Z).
Definition SamplesDict := list (MidMeasureMP * list Z).

(** The numerical backend: state vectors ([State]), measurement values
    ([Value]), floats ([Float]) and whatever evolves outside the simulator
    ([World]: random generators, the debugger).  The fields are the
    functions of [apply_operation.py], [initialize_state.py], [measure.py],
    [sampling.py], [qml.math] and NumPy that [simulate.py] calls.
    [map_to_standard_wires] answers [None] when the circuit is already in
    standard order and the method returns the same object. *)
Class Backend : Type := {
  State : Type;
  Value : Type;
  Float : Type;
  World : Type;
  map_to_standard_wires : QuantumScript -> option QuantumScript;
  create_initial_state : list Wire -> option Operation -> option string -> State;
  apply_operation :
    Operator -> State -> bool -> option ActiveDict -> World -> Res State * World;
  np_norm : State -> Float;
  is_abstract : State -> bool;
  is_abstract_float : Float -> bool;
  allclose_zero : Float -> bool;
  float_zero : Float;
  float_ltb : Float -> Q -> bool;
  state_div : State -> Float -> State;
  random_binomial : nat -> Float -> World -> nat * World;
  stack_zeros : State -> State;
  zero_slice : State -> nat -> nat -> Res State;
  measure : MeasurementProcess -> State -> bool -> Res (Result Value);
  measure_with_samples :
    list MeasurementProcess -> State -> Shots -> bool -> World ->
    Res (Result Value) * World;
  int_samples : Value -> Res (list Z);
  np_empty_item : nat -> Z;
  nan_like_eigvals : MeasurementProcess -> Value;
  of_int : Z -> Value;
  nan_tensor : Value;
  scale : Z -> Value -> Value;
  add : Value -> Value -> Value;
  div_int : Value -> Z -> Value;
  concatenate : list Value -> Res Value;
  squeeze : Value -> Value;
  var : Value -> Value;
  gather_mcm : MeasurementProcess -> SamplesDict -> Res (Result Value);
  circuit_hash : QuantumScript -> Z
}.

Definition INTERFACE_TO_LIKE (interface : option string) : Res (option string) :=
  match interface with
  | None => Ok None
  | Some i =>
      if String.eqb i "numpy" then Ok (Some "numpy"%string)
      else if String.eqb i "autograd" then Ok (Some "autograd"%string)
      else if String.eqb i "jax" then Ok (Some "jax"%string)
      else if String.eqb i "torch" then Ok (Some "torch"%string)
      else if String.eqb i "tensorflow" then Ok (Some "tensorflow"%string)
      else if String.eqb i "auto" then Ok None
      else if String.eqb i "scipy" then Ok (Some "numpy"%string)
      else if String.eqb i "jax-jit" then Ok (Some "jax"%string)
      else if String.eqb i "jax-python" then Ok (Some "jax"%string)
      else if String.eqb i "JAX" then Ok (Some "jax"%string)
      else if String.eqb i "pytorch" then Ok (Some "torch"%string)
      else if String.eqb i "tf" then Ok (Some "tensorflow"%string)
      else if String.eqb i "tensorflow-autograph" then Ok (Some "tensorflow"%string)
      else if String.eqb i "tf-autograph" then Ok (Some "tensorflow"%string)
      else Raise KeyError
  end.

(** What a simulation is observed to do at a mid-circuit measurement: it
    recurses into the branch of an outcome, or it prunes the samples of an
    outcome, [mcm_samples] going from [before] to [after]. *)
Inductive Event : Type :=
| Recursed (op : MidMeasureMP) (branch : Z)
| Pruned (op : MidMeasureMP) (branch : Z) (active : ActiveDict)
         (before after : SamplesDict).

Section WithBackend.
Context `{Backend}.

(** *** The store threaded through a simulation

    [mcm_active] and [mcm_samples] are the two dictionaries every call of one
    tree shares and mutates; [world] is the state of the backend.  [log]
    records the events of the run: the code never reads it, it only lets a
    statement speak of which branches were simulated and what was pruned. *)
Record Store : Type := mkStore {
  mcm_active : ActiveDict;
  mcm_samples : SamplesDict;
  world : World;
  log : list Event
}.

(** A computation returns or raises, and leaves a store either way. *)
Definition M (A : Type) : Type := Store -> Res A * Store.

Definition ret {A : Type} (a : A) : M A := fun st => (Ok a, st).

Definition raise {A : Type} (e : PyExc) : M A := fun st => (Raise e, st).

Definition bindM {A B : Type} (m : M A) (k : A -> M B) : M B :=
  fun st => match m st with
            | (Ok a, st') => k a st'
            | (Raise e, st') => (Raise e, st')
            end.

Definition lift {A : Type} (r : Res A) : M A := fun st => (r, st).

(** A call into the backend that may use and change the world. *)
Definition in_world {A : Type} (f : World -> Res A * World) : M A :=
  fun st => let '(r, w) := f (world st) in
            (r, mkStore (mcm_active st) (mcm_samples st) w (log st)).

Definition get_active : M ActiveDict := fun st => (Ok (mcm_active st), st).
Definition get_samples : M SamplesDict := fun st => (Ok (mcm_samples st), st).

Definition put_active (a : ActiveDict) : M unit :=
  fun st => (Ok tt, mkStore a (mcm_samples st) (world st) (log st)).

Definition put_samples (s : SamplesDict) : M unit :=
  fun st => (Ok tt, mkStore (mcm_active st) s (world st) (log st)).

Definition log_event (e : Event) : M unit :=
  fun st => (Ok tt, mkStore (mcm_active st) (mcm_samples st) (world st)
                            (log st ++ [e])).

(** A call that is passed no dictionaries works on new empty ones; those of
    the caller are untouched. *)
Definition with_new_dicts {A : Type} (m : M A) : M A :=
  fun st => let '(r, st') := m (mkStore [] [] (world st) (log st)) in
            (r, mkStore (mcm_active st) (mcm_samples st) (world st') (log st')).

Notation "x <~ c ;; k" := (bindM c (fun x => k))
  (at level 100, c at next level, right associativity).

(** [for x in l: ...] collecting one result per element. *)
Fixpoint for_each {A B : Type} (f : A -> M B) (l : list A) : M (list B) :=
  match l with
  | [] => ret []
  | x :: l' =>
      y <~ f x ;;
      ys <~ for_each f l' ;;
      ret (y :: ys)
  end.

(** [_FlexShots(shots)] on a list of counts. *)
Definition _FlexShots (counts : list nat) : Shots := Finite counts.

Definition _postselection_postprocess (state : State) (is_state_batched : bool)
  (shots : Shots) : M (State * Shots) :=
  if is_state_batched then raise ValueError
  else
    let norm := np_norm state in
    let norm := if negb (is_abstract state) && allclose_zero norm
                then float_zero else norm in
    shots <~ (if Shots_bool shots then
                postselected_shots <~
                  (if negb (is_abstract_float norm)
                   then for_each (fun s => in_world (fun w =>
                                    let '(n, w') := random_binomial s norm w in
                                    (Ok n, w')))
                                 (Shots_iter shots)
                   else ret (Shots_iter shots)) ;;
                ret (_FlexShots postselected_shots)
              else ret shots) ;;
    ret (state_div state norm, shots).

Definition op_has_batch (o : Operator) : bool :=
  match o with
  | Op o' => match op_batch_size o' with Some _ => true | None => false end
  | MidMeasure _ => false
  end.

Definition is_Projector (o : Operator) : bool :=
  match o with
  | Op o' => op_is_projector o'
  | MidMeasure _ => false
  end.

(** The loop of [get_final_state] over the operations; [shots] is
    [circuit._shots], which a projector rewrites. *)
Fixpoint apply_operations (ops : list Operator) (state : State)
  (is_state_batched : bool) (shots : Shots) (mid_measurements : option ActiveDict)
  : M (State * bool * Shots) :=
  match ops with
  | [] => ret (state, is_state_batched, shots)
  | op :: ops' =>
      state <~ in_world (apply_operation op state is_state_batched mid_measurements) ;;
      r <~ (if is_Projector op
            then _postselection_postprocess state is_state_batched shots
            else ret (state, shots)) ;;
      let '(state, shots) := r in
      let is_state_batched := is_state_batched || op_has_batch op in
      apply_operations ops' state is_state_batched shots mid_measurements
  end.

Fixpoint pad_state (n : nat) (state : State) : State :=
  match n with
  | O => state
  | S n' => pad_state n' (stack_zeros state)
  end.

(** [get_final_state].  The third component is the caller's circuit after
    the call: its shots are rewritten when the circuit the loop ran on is
    the caller's own object. *)
Definition get_final_state (circuit : QuantumScript) (interface : option string)
  (initial_state : option State) (mid_measurements : option ActiveDict)
  : M (State * bool * QuantumScript) :=
  let mapped := match initial_state with
                | None => map_to_standard_wires circuit
                | Some _ => None
                end in
  let local := match mapped with Some c => c | None => circuit end in
  let prep := prep_of local in
  state <~ match initial_state with
           | None =>
               like <~ lift (INTERFACE_TO_LIKE interface) ;;
               ret (create_initial_state (sorted (op_wires_of local)) prep like)
           | Some s => ret s
           end ;;
  let is_state_batched :=
    match prep with
    | Some p => match op_batch_size p with Some _ => true | None => false end
    | None => false
    end in
  let ops := match prep with
             | Some _ => List.skipn 1 (operations local)
             | None => operations local
             end in
  r <~ apply_operations ops state is_state_batched (shots local) mid_measurements ;;
  let '(state, is_state_batched, shots') := r in
  let state := match initial_state with
               | None => pad_state (List.length (wires_of local)
                                    - List.length (op_wires_of local))%nat state
               | Some _ => state
               end in
  let circuit' := match mapped with
                  | Some _ => circuit
                  | None => set_shots circuit shots'
                  end in
  ret (state, is_state_batched, circuit').

(** [r[0]] on a tuple of results. *)
Definition result_getitem0 (r : Result Value) : Res (Result Value) :=
  match r with
  | RTuple (x :: _) => Ok x
  | RTuple [] => Raise IndexError
  | RCounts _ => Raise KeyError
  | _ => Raise TypeError
  end.

Definition tuple_items (r : Result Value) : Res (list (Result Value)) :=
  match r with
  | RTuple l => Ok l
  | _ => Raise TypeError
  end.

Definition measure_final_state (circuit : QuantumScript) (state : State)
  (is_state_batched : bool) (initial_state : option State) : M (Result Value) :=
  let circuit := match initial_state with
                 | None => match map_to_standard_wires circuit with
                           | Some c => c
                           | None => circuit
                           end
                 | Some _ => circuit
                 end in
  if negb (Shots_bool (shots circuit)) then
    match measurements circuit with
    | [mp] => lift (measure mp state is_state_batched)
    | mps =>
        rs <~ lift (OneShot.map_res (fun mp => measure mp state is_state_batched) mps) ;;
        ret (RTuple rs)
    end
  else
    results <~ in_world (measure_with_samples (measurements circuit) state
                           (shots circuit) is_state_batched) ;;
    if Nat.eqb (List.length (measurements circuit)) 1 then
      if has_partitioned_shots (shots circuit) then
        items <~ lift (tuple_items results) ;;
        rs <~ lift (OneShot.map_res result_getitem0 items) ;;
        ret (RTuple rs)
      else lift (result_getitem0 results)
    else ret results.

(** [has_mid_circuit_measurements]. *)
Definition has_mid_circuit_measurements (circuit : QuantumScript) : bool :=
  List.existsb is_MidMeasureMP (operations circuit).

(** [find_next_mcm]: the position and the operator of the first
    [MidMeasureMP]. *)
Fixpoint find_next_mcm_from (i : nat) (ops : list Operator)
  : nat * option MidMeasureMP :=
  match ops with
  | [] => ((i + 1)%nat, None)
  | MidMeasure m :: _ => (i, Some m)
  | Op _ :: ops' => find_next_mcm_from (S i) ops'
  end.

Definition find_next_mcm (circuit : QuantumScript) : nat * option MidMeasureMP :=
  find_next_mcm_from 0 (operations circuit).

(** The measurements of the continuation: those without a measurement
    value, a variance becoming a sample of its observable. *)
Fixpoint next_measurements (ms : list MeasurementProcess) : list MeasurementProcess :=
  match ms with
  | [] => []
  | m :: ms' =>
      if negb (mv_truthy (mp_mv m)) then
        (if MPKind_eqb (mp_kind m) VarianceMP
         then SampleMP_of_obs (mp_obs m) else m) :: next_measurements ms'
      else next_measurements ms'
  end.

(** [circuit_up_to_first_mcm].  The source builds each script on all the
    operations and then cuts its [_ops]; with wires derived from the
    operations a script holds, as the data model has them, this is the
    script built on the cut operations. *)
Definition circuit_up_to_first_mcm (circuit : QuantumScript)
  : Res (QuantumScript * option QuantumScript * option MidMeasureMP) :=
  if negb (has_mid_circuit_measurements circuit) then Ok (circuit, None, None)
  else
    match find_next_mcm circuit with
    | (_, None) => Raise AttributeError
    | (i, Some op) =>
        let circuit_base :=
          mkQS (List.firstn i (operations circuit))
               [match mcm_obs op with
                | None => sample_wires (mcm_wires op)
                | Some o => sample_obs o
                end]
               (shots circuit) (trainable_params circuit) in
        let circuit_next :=
          mkQS (List.skipn (i + 1) (operations circuit))
               (next_measurements (measurements circuit))
               (shots circuit) (trainable_params circuit) in
        Ok (circuit_base, Some circuit_next, Some op)
    end.

Definition prep_initial_state (circuit_base : QuantumScript)
  (interface : option string) (initial_state : option State) : Res State :=
  match initial_state with
  | Some s => Ok s
  | None =>
      like <- INTERFACE_TO_LIKE interface ;;
      Ok (create_initial_state (sorted (wires_of circuit_base))
                               (prep_of circuit_base) like)
  end.


(** *** The two dictionaries of mid-circuit samples *)

(** The loop over [mcm_active.items()] that both [update_mcm_samples] and
    [prune_mcm_samples] run: it stops at [op] and narrows the mask by every
    entry before it. *)
Fixpoint ancestors_mask (op : MidMeasureMP) (items : ActiveDict)
  (mcm_samples : SamplesDict) (mask : list bool) : Res (list bool) :=
  match items with
  | [] => Ok mask
  | (k, v) :: items' =>
      if mcm_eqb k op then Ok mask
      else
        arr <- Dict.getitem mcm_eqb k mcm_samples ;;
        mask <- Np.logical_and mask (Np.eq_scalar arr v) ;;
        ancestors_mask op items' mcm_samples mask
  end.

(** The loop [for k in mcm_samples.keys(): mcm_samples[k] = mcm_samples[k][keep]];
    when an indexing raises, the entries already rewritten stay rewritten. *)
Fixpoint filter_entries (keep : list bool) (todo done : SamplesDict)
  : Res unit * SamplesDict :=
  match todo with
  | [] => (Ok tt, done)
  | (k, arr) :: todo' =>
      match Np.bool_index arr keep with
      | Ok arr' => filter_entries keep todo' (done ++ [(k, arr')])
      | Raise e => (Raise e, done ++ todo)
      end
  end.

Definition prune_mcm_samples_dicts (op : MidMeasureMP) (branch : Z)
  (mcm_active : ActiveDict) (mcm_samples : SamplesDict) : Res unit * SamplesDict :=
  match (arr <- Dict.getitem mcm_eqb op mcm_samples ;;
         ancestors_mask op mcm_active mcm_samples (Np.eq_scalar arr branch)) with
  | Raise e => (Raise e, mcm_samples)
  | Ok mask => filter_entries (Np.logical_not mask) mcm_samples []
  end.

Definition prune_mcm_samples (op : MidMeasureMP) (branch : Z) : M unit :=
  fun st =>
    let '(r, s) := prune_mcm_samples_dicts op branch (mcm_active st) (mcm_samples st) in
    (r, mkStore (mcm_active st) s (world st)
                (log st ++ [Pruned op branch (mcm_active st) (mcm_samples st) s])).

(** [np.empty(shape)]: whatever the memory holds. *)
Definition np_empty (n : nat) : list Z := List.map np_empty_item (List.seq 0 n).

Definition update_mcm_samples_dicts (op : MidMeasureMP) (samples : list Z)
  (mcm_active : ActiveDict) (mcm_samples : SamplesDict) : Res unit * SamplesDict :=
  match mcm_active with
  | _ :: _ =>
      match mcm_samples with
      | [] => (Raise StopIteration, mcm_samples)
      | (_, first) :: _ =>
          let shape := List.length first in
          match ancestors_mask op mcm_active mcm_samples (Np.ones shape) with
          | Raise e => (Raise e, mcm_samples)
          | Ok mask =>
              let mcm_samples :=
                if negb (Dict.mem mcm_eqb op mcm_samples)
                then Dict.set mcm_eqb op (np_empty shape) mcm_samples
                else mcm_samples in
              match (arr <- Dict.getitem mcm_eqb op mcm_samples ;;
                     Np.masked_assign arr mask samples) with
              | Raise e => (Raise e, mcm_samples)
              | Ok arr' => (Ok tt, Dict.set mcm_eqb op arr' mcm_samples)
              end
          end
      end
  | [] => (Ok tt, Dict.set mcm_eqb op samples mcm_samples)
  end.

Definition update_mcm_samples (op : MidMeasureMP) (samples : list Z) : M unit :=
  fun st =>
    let '(r, s) := update_mcm_samples_dicts op samples (mcm_active st) (mcm_samples st) in
    (r, mkStore (mcm_active st) s (world st) (log st)).

(** [samples_to_counts]: the distinct values in increasing order, each with
    its number of occurrences. *)
Definition samples_to_counts (samples : list Z) : list (Z * Z) :=
  List.fold_left (fun counts x => Np.count_insert x counts) samples [].

(** *** Combination of the branches *)

Definition measurement_with_no_shots (measurement : MeasurementProcess)
  : Result Value :=
  if MPKind_eqb (mp_kind measurement) ProbabilityMP
  then RTensor (nan_like_eigvals measurement)
  else RNaN.

(** The branches of one measurement: outcome, then shot count and value. *)
Definition Measures : Type := list (Z * (Z * Result Value)).

(** The running value of [cum_value]: the integer it starts as, a float
    NaN, or a tensor. *)
Inductive Num : Type :=
| NInt (z : Z)
| NNaN
| NTensor (v : Value).

(** [v[0] * v[1]]. *)
Definition int_mul (c : Z) (r : Result Value) : Res Num :=
  match r with
  | RNaN => Ok NNaN
  | RTensor v => Ok (NTensor (scale c v))
  | RCounts _ => Raise TypeError
  | RTuple _ => Raise TypeError
  end.

Definition as_tensor (x : Num) : Value :=
  match x with
  | NInt z => of_int z
  | NNaN => nan_tensor
  | NTensor v => v
  end.

(** [cum_value + x]. *)
Definition num_add (cum x : Num) : Num :=
  match cum, x with
  | NInt a, NInt b => NInt (a + b)
  | NInt _, NNaN | NNaN, NInt _ | NNaN, NNaN => NNaN
  | _, _ => NTensor (add (as_tensor cum) (as_tensor x))
  end.

(** [cum_value / total_counts]: integers and floats raise on a zero
    divisor, tensors follow NumPy. *)
Definition num_div (cum : Num) (n : Z) : Res (Result Value) :=
  match cum with
  | NInt a => if Z.eqb n 0 then Raise ZeroDivisionError
              else Ok (RTensor (div_int (of_int a) n))
  | NNaN => if Z.eqb n 0 then Raise ZeroDivisionError else Ok RNaN
  | NTensor v => Ok (RTensor (div_int v n))
  end.

(** The loop shared by the expectation and the probability cases. *)
Fixpoint accumulate (vs : list (Z * Result Value)) (cum_value : Num)
  (total_counts : Z) : Res (Num * Z) :=
  match vs with
  | [] => Ok (cum_value, total_counts)
  | v :: vs' =>
      p <- int_mul (fst v) (snd v) ;;
      accumulate vs' (num_add cum_value p) (total_counts + fst v)
  end.

Definition weighted_mean (measures : Measures) : Res (Result Value) :=
  r <- accumulate (Dict.values measures) (NInt 0) 0 ;;
  num_div (fst r) (snd r).

(** [Counter.update(d)] for a dictionary [d]. *)
Fixpoint Counter_update (d : list (CKey * Z)) (new_counts : list (CKey * Z))
  : list (CKey * Z) :=
  match d with
  | [] => new_counts
  | (k, c) :: d' =>
      let old := match Dict.get String.eqb k new_counts with
                 | Some n => n
                 | None => 0
                 end in
      Counter_update d' (Dict.set String.eqb k (old + c) new_counts)
  end.

(** The loop of the counts case.  The value of a branch is the dictionary of
    a counts measurement or the float NaN of a branch without shots;
    [Counter.update] of a float raises [TypeError], and the other shapes,
    which a counts measurement never yields, are refused alike. *)
Fixpoint merge_counts (vs : list (Z * Result Value)) (new_counts : list (CKey * Z))
  : Res (list (CKey * Z)) :=
  match vs with
  | [] => Ok new_counts
  | v :: vs' =>
      match snd v with
      | RCounts d => merge_counts vs' (Counter_update d new_counts)
      | _ => Raise TypeError
      end
  end.

(** [np.squeeze(np.concatenate(new_sample))]: NumPy refuses a
    zero-dimensional array. *)
Definition concat_samples (measures : Measures) : Res (Result Value) :=
  arrays <- OneShot.map_res (fun m => match snd m with
                                      | RTensor v => Ok v
                                      | _ => Raise ValueError
                                      end) (Dict.values measures) ;;
  a <- concatenate arrays ;;
  Ok (RTensor (squeeze a)).

(** [combine_measurements_core], dispatched on the class of the original
    measurement. *)
Definition combine_measurements_core (original_measurement : MeasurementProcess)
  (measures : Measures) : Res (Result Value) :=
  match mp_kind original_measurement with
  | CountsMP =>
      new_counts <- merge_counts (Dict.values measures) [] ;;
      Ok (RCounts new_counts)
  | ExpectationMP => weighted_mean measures
  | ProbabilityMP => weighted_mean measures
  | SampleMP => concat_samples measures
  | VarianceMP => concat_samples measures
  | _ => Raise TypeError
  end.

(** [qml.math.squeeze] and [qml.math.var] on a combined measurement. *)
Definition squeeze_result (r : Result Value) : Res (Result Value) :=
  match r with
  | RNaN => Ok RNaN
  | RTensor v => Ok (RTensor (squeeze v))
  | _ => Raise TypeError
  end.

Definition var_result (r : Result Value) : Res (Result Value) :=
  match r with
  | RNaN => Ok RNaN
  | RTensor v => Ok (RTensor (var v))
  | _ => Raise TypeError
  end.

(** The transposition [zip] of the rows of [ds], each column unpacked into
    exactly two names. *)
Definition list_of_dicts (keys : list Z) (ds : list (list (Z * Result Value)))
  : Res (list Measures) :=
  match ds with
  | [] => Ok []
  | [d0; d1] =>
      match keys with
      | k0 :: k1 :: _ =>
          Ok (List.map (fun p => Dict.set Z.eqb k1 (snd p) [(k0, fst p)])
                       (List.combine d0 d1))
      | _ => Raise IndexError
      end
  | _ =>
      if List.existsb (fun d => Nat.eqb (List.length d) 0) ds then Ok []
      else Raise ValueError
  end.

(** The first loop of [combine_measurements] over [circuit.measurements]. *)
Fixpoint combine_loop (circ_meass : list MeasurementProcess)
  (new_measurements : list Measures) (empty_mcm_samples : bool)
  (mcm_samples : SamplesDict) : Res (list (Result Value)) :=
  match circ_meass with
  | [] => Ok []
  | circ_meas :: rest =>
      r <- (if mv_truthy (mp_mv circ_meas) && empty_mcm_samples then
              Ok (measurement_with_no_shots circ_meas, new_measurements)
            else if mv_truthy (mp_mv circ_meas) then
              g <- gather_mcm circ_meas mcm_samples ;;
              Ok (g, new_measurements)
            else match new_measurements with
                 | [] => Ok (measurement_with_no_shots circ_meas, [])
                 | [] :: popped => Ok (measurement_with_no_shots circ_meas, popped)
                 | m :: popped =>
                     c <- combine_measurements_core circ_meas m ;;
                     Ok (c, popped)
                 end) ;;
      comb_meas <- (if MPKind_eqb (mp_kind circ_meas) SampleMP
                    then squeeze_result (fst r) else Ok (fst r)) ;;
      final <- combine_loop rest (snd r) empty_mcm_samples mcm_samples ;;
      Ok (comb_meas :: final)
  end.

(** The second loop: the variance of the pooled samples. *)
Fixpoint var_loop (circ_meass : list MeasurementProcess)
  (final_measurements : list (Result Value)) : Res (list (Result Value)) :=
  match circ_meass, final_measurements with
  | c :: cs, m :: ms =>
      m' <- (if negb (mv_truthy (mp_mv c)) && MPKind_eqb (mp_kind c) VarianceMP
             then var_result m else Ok m) ;;
      ms' <- var_loop cs ms ;;
      Ok (m' :: ms')
  | _, _ => Ok final_measurements
  end.

Definition is_Sequence (r : Result Value) : bool :=
  match r with
  | RTuple _ => true
  | _ => false
  end.

Definition combine_measurements (circuit : QuantumScript) (measurements : Measures)
  (mcm_samples : SamplesDict) : Res (Result Value) :=
  let keys := Dict.keys measurements in
  new_measurements <-
    match measurements with
    | (_, (_, first)) :: _ =>
        if is_Sequence first then
          ds <- OneShot.map_res
                  (fun kv => ms <- tuple_items (snd (snd kv)) ;;
                             Ok (List.map (fun m => (fst (snd kv), m)) ms))
                  measurements ;;
          list_of_dicts keys ds
        else Ok [measurements]
    | [] => Ok [measurements]
    end ;;
  first <- match mcm_samples with
           | [] => Raise StopIteration
           | (_, arr) :: _ => Ok arr
           end ;;
  let empty_mcm_samples := Nat.eqb (List.length first) 0 in
  if empty_mcm_samples
     && List.existsb (fun m => negb (Nat.eqb (List.length m) 0)) (Dict.values mcm_samples)
  then Raise ValueError
  else
    final_measurements <- combine_loop (Circuit.measurements circuit) new_measurements
                                       empty_mcm_samples mcm_samples ;;
    final_measurements <- var_loop (Circuit.measurements circuit) final_measurements ;;
    match final_measurements with
    | [m] => Ok m
    | _ => Ok (RTuple final_measurements)
    end.


(** *** The tree of branches *)

(** [qml.PauliX(wire)]. *)
Definition PauliX (wire : list Wire) : Operator :=
  Op (mkOp "<class 'pennylane.ops.qubit.non_parametric_ops.PauliX'>"
           wire None false false None 0%nat).

(** [int(not branch)]. *)
Definition int_not (branch : Z) : nat :=
  if Z.eqb branch 0 then 1%nat else 0%nat.

(** The literal [1.0e-15]. *)
Definition zero_norm_threshold : Q := 1 # 1000000000000000.

(** [branch_state], the inner function of [branch_measurement]; [op] is
    the measurement captured from the enclosing call. *)
Definition branch_state (op : MidMeasureMP) (state : State) (wire : list Wire)
  (branch : Z) : M State :=
  axis <~ lift (getitem0 wire) ;;
  state <~ lift (zero_slice state axis (int_not branch)) ;;
  let state_norm := np_norm state in
  if float_ltb state_norm zero_norm_threshold then raise ValueError
  else
    let state := state_div state state_norm in
    if reset op && Z.eqb branch 1
    then in_world (apply_operation (PauliX wire) state false None)
    else ret state.

(** [branch_measurement]; [recurse] is the recursive call of
    [simulate_tree_mcm] on the continuation with an initial state. *)
Definition branch_measurement
  (recurse : QuantumScript -> State -> M (Result Value))
  (op : MidMeasureMP) (circuit_base circuit_next : QuantumScript)
  (counts : list (Z * Z)) (state : State) (branch : Z) : M (Result Value) :=
  m0 <~ lift (getitem0 (measurements circuit_base)) ;;
  let wire := wires_of_mp m0 in
  new_state <~ branch_state op state wire branch ;;
  n <~ lift (Dict.getitem Z.eqb branch counts) ;;
  let circuit_next := set_shots circuit_next (Shots_of_int (Z.to_nat n)) in
  _ <~ log_event (Recursed op branch) ;;
  recurse circuit_next new_state.

(** [op.postselect is not None and branch != op.postselect]. *)
Definition rejected (op : MidMeasureMP) (branch : Z) : bool :=
  match postselect op with
  | Some b => negb (Z.eqb branch b)
  | None => false
  end.

(** [mcm_active[op] = branch]. *)
Definition set_active (op : MidMeasureMP) (branch : Z) : M unit :=
  a <~ get_active ;;
  put_active (Dict.set mcm_eqb op branch a).

(** The loop [for branch in counts.keys()], appending to [measurements]. *)
Fixpoint branch_loop
  (recurse : QuantumScript -> State -> M (Result Value))
  (op : MidMeasureMP) (circuit_base circuit_next : QuantumScript)
  (counts : list (Z * Z)) (state : State) (branches : list Z)
  (measurements : list (Result Value)) : M (list (Result Value)) :=
  match branches with
  | [] => ret measurements
  | branch :: branches' =>
      if rejected op branch then
        _ <~ prune_mcm_samples op branch ;;
        branch_loop recurse op circuit_base circuit_next counts state
                    branches' measurements
      else
        _ <~ set_active op branch ;;
        m <~ branch_measurement recurse op circuit_base circuit_next counts
                                state branch ;;
        branch_loop recurse op circuit_base circuit_next counts state
                    branches' (measurements ++ [m])
  end.

(** [dict((branch, (count, value)) for ... in zip(keys, values, measurements))]. *)
Fixpoint zip_measurements (counts : list (Z * Z)) (measurements : list (Result Value))
  (acc : Measures) : Measures :=
  match counts, measurements with
  | (branch, count) :: counts', value :: measurements' =>
      zip_measurements counts' measurements'
                       (Dict.set Z.eqb branch (count, value) acc)
  | _, _ => acc
  end.

(** [measurements.reshape((-1)) if measurements.ndim == 0 else measurements]
    as the array of integer samples it is. *)
Definition samples_of (measurements : Result Value) : Res (list Z) :=
  match measurements with
  | RTensor v => int_samples v
  | _ => Raise AttributeError
  end.

(** [simulate_tree_mcm].  The dictionaries [mcm_active] and [mcm_samples]
    are those of the store; [fuel] bounds the depth of the recursion. *)
Fixpoint simulate_tree_mcm_rec (fuel : nat) (circuit : QuantumScript)
  (interface : option string) (initial_state : option State)
  : M (Result Value) :=
  match fuel with
  | O => raise RecursionError
  | S fuel' =>
      if has_partitioned_shots (shots circuit) then
        results <~ for_each
          (fun s => with_new_dicts
                      (simulate_tree_mcm_rec fuel'
                         (set_shots circuit (Shots_of_int s)) interface None))
          (Shots_iter (shots circuit)) ;;
        ret (RTuple results)
      else
        split <~ lift (circuit_up_to_first_mcm circuit) ;;
        let '(circuit_base, circuit_next, op) := split in
        initial_state <~ lift (prep_initial_state circuit_base interface initial_state) ;;
        active <~ get_active ;;
        fs <~ get_final_state circuit_base interface (Some initial_state) (Some active) ;;
        let '(state, is_state_batched, circuit_base) := fs in
        measurements <~ measure_final_state circuit_base state is_state_batched
                                            (Some initial_state) ;;
        match circuit_next, op with
        | Some circuit_next, Some op =>
            samples <~ lift (samples_of measurements) ;;
            _ <~ update_mcm_samples op samples ;;
            let counts := samples_to_counts samples in
            measurements <~ branch_loop
              (fun c s => simulate_tree_mcm_rec fuel' c interface (Some s))
              op circuit_base circuit_next counts state (Dict.keys counts) [] ;;
            mcm_samples <~ get_samples ;;
            lift (combine_measurements circuit
                    (zip_measurements counts measurements []) mcm_samples)
        | _, _ => ret measurements
        end
  end.

(** Depth of the recursion: one call per remaining operation, and one more
    for a shot vector. *)
Definition enough_fuel (circuit : QuantumScript) : nat :=
  S (S (List.length (operations circuit))).

Definition simulate_tree_mcm_in (circuit : QuantumScript)
  (interface : option string) : M (Result Value) :=
  simulate_tree_mcm_rec (enough_fuel circuit) circuit interface None.

(** [simulate_tree_mcm(circuit, ...)] called without dictionaries. *)
Definition simulate_tree_mcm (circuit : QuantumScript) (interface : option string)
  (w : World) : Res (Result Value) * World :=
  let '(r, st) := simulate_tree_mcm_in circuit interface (mkStore [] [] w []) in
  (r, world st).

(** The events of a run of [simulate_tree_mcm], and among them the branches
    it recursed into, in order. *)
Definition events (circuit : QuantumScript) (interface : option string)
  (w : World) : list Event :=
  log (snd (simulate_tree_mcm_in circuit interface (mkStore [] [] w []))).

Definition simulated_branches (circuit : QuantumScript)
  (interface : option string) (w : World) : list (MidMeasureMP * Z) :=
  List.flat_map (fun e => match e with
                          | Recursed op branch => [(op, branch)]
                          | Pruned _ _ _ _ _ => []
                          end) (events circuit interface w).

(** The plain pipeline: [get_final_state], the optional write to
    [state_cache], [measure_final_state]. *)
Definition simulate_final_state (circuit : QuantumScript)
  (interface : option string) (state_cache : option (list (Z * State)))
  : M (Result Value * option (list (Z * State))) :=
  fs <~ get_final_state circuit interface None None ;;
  let '(state, is_state_batched, circuit) := fs in
  let state_cache :=
    match state_cache with
    | Some c => Some (Dict.set Z.eqb (circuit_hash circuit) state c)
    | None => None
    end in
  r <~ measure_final_state circuit state is_state_batched None ;;
  ret (r, state_cache).

(** [simulate]: the result, the state cache after the call, the world. *)
Definition simulate (circuit : QuantumScript) (interface : option string)
  (state_cache : option (list (Z * State))) (w : World)
  : Res (Result Value * option (list (Z * State))) * World :=
  if Shots_bool (shots circuit) && has_mid_circuit_measurements circuit then
    let '(r, w') := simulate_tree_mcm circuit interface w in
    (x <- r ;; Ok (x, state_cache), w')
  else
    let '(r, st) := simulate_final_state circuit interface state_cache
                                         (mkStore [] [] w []) in
    (r, world st).

End WithBackend.

End Simulate.

(* --------------------------------------------------------------------- *)
(** ** [transforms/dynamic_one_shot.py]: devices and QNodes *)
(* --------------------------------------------------------------------- *)

Module Qnode.

(** [dev.capabilities] of a device of the new interface: the mid-circuit
    measurement methods it supports. *)
Record DeviceCapabilities : Type := mkCapabilities {
  supported_mcm_methods : list string
}.

(** A device as [_supports_one_shot] looks at it: its name, whether it is
    an instance of [LegacyDevice] and of [LegacyDeviceFacade], the
    dictionary [dev.target_device.capabilities()] with each value by its
    truth, and [dev.capabilities]. *)
Record Device : Type := mkDevice {
  dev_name : string;
  is_LegacyDevice : bool;
  is_LegacyDeviceFacade : bool;
  target_capabilities : list (string * bool);
  capabilities : option DeviceCapabilities
}.

Definition get_legacy_capabilities (dev : Device) : Res (list (string * bool)) :=
  if negb (is_LegacyDeviceFacade dev) then Raise AssertionError
  else Ok (target_capabilities dev).

Definition _supports_one_shot (dev : Device) : Res bool :=
  if is_LegacyDevice dev then
    caps <- get_legacy_capabilities dev ;;
    Ok (match Dict.get String.eqb "supports_mid_measure" caps with
        | Some v => v
        | None => false
        end)
  else
    Ok (String.eqb (dev_name dev) "default.qubit"
        || String.eqb (dev_name dev) "lightning.qubit"
        || match capabilities dev with
           | Some c => List.existsb (String.eqb "one-shot") (supported_mcm_methods c)
           | None => false
           end).

(** A value of the keyword arguments of the transform: [None], a device, or
    another object with its truth value. *)
Inductive KwVal : Type :=
| VNone
| VDevice (d : Device)
| VOther (n : nat) (truth : bool).

Definition kw_truthy (v : KwVal) : bool :=
  match v with
  | VNone => false
  | VDevice _ => true
  | VOther _ truth => truth
  end.

Definition kw_of_device (d : option Device) : KwVal :=
  match d with
  | Some d => VDevice d
  | None => VNone
  end.

(** [d.setdefault(k, v)]. *)
Definition setdefault (k : string) (v : KwVal) (d : list (string * KwVal))
  : list (string * KwVal) :=
  if Dict.mem String.eqb k d then d else Dict.set String.eqb k v d.

Section QnodeTransform.
(** QNodes with their device, the positional arguments of the transform,
    and [self.default_qnode_transform]. *)
Variables QNode TArgs Out : Type.
Variable device : QNode -> option Device.
Variable default_qnode_transform : QNode -> TArgs -> list (string * KwVal) -> Res Out.

Definition _dynamic_one_shot_qnode (qnode : QNode) (targs : TArgs)
  (tkwargs : list (string * KwVal)) : Res Out :=
  if match Dict.get String.eqb "device" tkwargs with
     | Some v => kw_truthy v
     | None => false
     end
  then Raise ValueError
  else
    _ <- match device qnode with
         | Some d =>
             s <- _supports_one_shot d ;;
             if negb s then Raise TypeError else Ok tt
         | None => Ok tt
         end ;;
    let tkwargs := setdefault "device" (kw_of_device (device qnode)) tkwargs in
    default_qnode_transform qnode targs tkwargs.

End QnodeTransform.

End Qnode.

(* --------------------------------------------------------------------- *)
(** ** [transforms/dynamic_one_shot.py]: the results of the one-shot runs *)
(* --------------------------------------------------------------------- *)

Module Parse.
Import OneShot.

(** A two-dimensional array of integers, by rows. *)
Definition Matrix := list (list Z).

(** What [parse_native_mid_circuit_measurements] uses from outside: the
    tensors of the interface with [qml.math.get_deep_interface],
    [qml.compiler.active()], [qml.math.reshape(res, (-1, 1))] as the integers
    of the column, [qml.math.array(result, like=interface)],
    [qml.math.squeeze] (on a measurement and on a result) and the NaN
    placeholders.  The three functions that reduce the samples of one
    measurement over the valid shots are fields as well, their bodies being
    array arithmetic of [qml.math]; so is [qjit_counts], the pair of the
    first basis row and the counts summed over the valid shots that is
    built for a counts measurement under the compiler. *)
Class Env : Type := {
  Tensor : Type;
  get_deep_interface : list Tensor -> string;
  compiler_active : bool;
  as_column : Tensor -> Res (list Z);
  array_like : string -> Tensor -> Res Tensor;
  squeeze : PyVal Tensor -> Res (PyVal Tensor);
  squeeze_tensor : Tensor -> Res Tensor;
  nan : Tensor;
  nan_like_eigvals : MeasurementProcess -> Tensor;
  gather_mcm_qjit :
    MeasurementProcess -> list (Operator * Matrix) -> list bool -> option string ->
    Res (PyVal Tensor);
  gather_mcm :
    MeasurementProcess -> list (Operator * Matrix) -> list bool -> option string ->
    Res (PyVal Tensor);
  gather_non_mcm :
    MeasurementProcess -> Tensor -> list bool -> option string -> Res (PyVal Tensor);
  qjit_counts : Tensor -> list bool -> Res (PyVal Tensor)
}.

Section Results.
Context `{Env}.

Definition measurement_with_no_shots (measurement : MeasurementProcess)
  : PyVal Tensor :=
  if MPKind_eqb (mp_kind measurement) ProbabilityMP
  then PTensor (nan_like_eigvals measurement)
  else PTensor nan.

(** [l[-n:]]. *)
Definition last_items {A : Type} (n : nat) (l : list A) : list A :=
  if Nat.eqb n 0 then l else List.skipn (List.length l - n) l.

(** [qml.math.hstack] of columns: they must be as long as one another, and
    there must be one at least. *)
Definition hstack (columns : list (list Z)) : Res Matrix :=
  match columns with
  | [] => Raise ValueError
  | c :: cs =>
      if List.forallb (fun c' => Nat.eqb (List.length c') (List.length c)) cs
      then Ok (List.map (fun i => List.map (fun col => List.nth i col 0) columns)
                        (List.seq 0 (List.length c)))
      else Raise ValueError
  end.

(** One row of [mcm_samples * has_postselect == postselect], reduced by
    [all]: the row of samples against the rows of one entry per
    measurement, with NumPy's broadcasting of a row of one entry. *)
Definition row_valid (has_postselect postselect : list Z) (row : list Z)
  : Res bool :=
  let test := fun x hp => Z.eqb (x * fst hp) (snd hp) in
  let hp := List.combine has_postselect postselect in
  if Nat.eqb (List.length row) (List.length hp) then
    Ok (List.forallb (fun p => test (fst p) (snd p)) (List.combine row hp))
  else match row, hp with
       | [x], _ => Ok (List.forallb (test x) hp)
       | _, [e] => Ok (List.forallb (fun x => test x e) row)
       | _, _ => Raise ValueError
       end.

(** Shapes [(n, w)] and [(1, k)] can be broadcast together. *)
Definition broadcastable (w k : nat) : bool :=
  Nat.eqb w k || Nat.eqb w 1 || Nat.eqb k 1.

(** [qml.math.all(mcm_samples * has_postselect == postselect, axis=1)]. *)
Definition valid_shots (has_postselect postselect : list Z) (width : nat)
  (mcm_samples : Matrix) : Res (list bool) :=
  if broadcastable width (List.length has_postselect)
  then map_res (row_valid has_postselect postselect) mcm_samples
  else Raise ValueError.

(** [op.postselect] of the mid-circuit measurements, as the two rows. *)
Definition has_postselect_row (all_mcms : list Operator) : list Z :=
  List.map (fun op => if is_Some_b (postselect_of op) then 1 else 0) all_mcms.

Definition postselect_row (all_mcms : list Operator) : list Z :=
  List.map (fun op => match postselect_of op with
                      | Some p => p
                      | None => 0
                      end) all_mcms.

(** [mcm_samples[:, i : i + 1]]. *)
Definition column_slice (i : nat) (m : Matrix) : Matrix :=
  List.map (fun row => List.firstn 1 (List.skipn i row)) m.

Definition Operator_eq_dec (a b : Operator) : {a = b} + {a <> b}.
Proof.
  decide equality.
  - decide equality;
      try apply Nat.eq_dec; try apply Bool.bool_dec; try apply String.string_dec;
      try (apply list_eq_dec; apply Nat.eq_dec);
      decide equality; try apply Nat.eq_dec; apply Z.eq_dec.
  - apply MidMeasureMP_eq_dec.
Defined.

Definition op_eqb (a b : Operator) : bool :=
  if Operator_eq_dec a b then true else false.

(** [dict(zip(keys, values))]. *)
Fixpoint dict_zip (keys : list Operator) (values : list Matrix)
  (acc : list (Operator * Matrix)) : list (Operator * Matrix) :=
  match keys, values with
  | k :: keys', v :: values' => dict_zip keys' values' (Dict.set op_eqb k v acc)
  | _, _ => acc
  end.

Section Loop.
Variable results : list Tensor.
Variable postselect_mode : option string.
Variable interface : string.
Variable mcm_samples : list (Operator * Matrix).
Variable is_valid : list bool.

(** The loop over [circuit.measurements]. *)
Fixpoint normalize (ms : list MeasurementProcess) (m_count : nat)
  (normalized_meas : list (PyVal Tensor)) : Res (list (PyVal Tensor)) :=
  let has_valid := List.existsb (fun b => b) is_valid in
  let not_jax := negb (String.eqb interface "jax") in
  match ms with
  | [] => Ok normalized_meas
  | m :: ms' =>
      let finish := fun meas m_count =>
        meas <- (if MPKind_eqb (mp_kind m) SampleMP then squeeze meas else Ok meas) ;;
        normalize ms' m_count (normalized_meas ++ [meas]) in
      if negb (supported_kind (mp_kind m)) then Raise TypeError
      else if not_jax && negb (mv_is_None (mp_mv m)) && negb has_valid then
        finish (measurement_with_no_shots m) m_count
      else if negb (mv_is_None (mp_mv m)) && compiler_active then
        meas <- gather_mcm_qjit m mcm_samples is_valid postselect_mode ;;
        finish meas m_count
      else if negb (mv_is_None (mp_mv m)) then
        meas <- gather_mcm m mcm_samples is_valid postselect_mode ;;
        finish meas m_count
      else if not_jax && negb has_valid then
        finish (measurement_with_no_shots m) (m_count + 1)%nat
      else
        result <- match List.nth_error results m_count with
                  | Some r => Ok r
                  | None => Raise IndexError
                  end ;;
        result <- (if negb (MPKind_eqb (mp_kind m) CountsMP)
                   then array_like interface result else Ok result) ;;
        if compiler_active then
          if MPKind_eqb (mp_kind m) CountsMP then
            c <- qjit_counts result is_valid ;;
            normalize ms' (m_count + 1)%nat (normalized_meas ++ [c])
          else
            result <- squeeze_tensor result ;;
            meas <- gather_non_mcm m result is_valid postselect_mode ;;
            finish meas (m_count + 1)%nat
        else
          meas <- gather_non_mcm m result is_valid postselect_mode ;;
          finish meas (m_count + 1)%nat
  end.

End Loop.

(** [tuple(l) if len(l) > 1 else l[0]]. *)
Definition pack (normalized_meas : list (PyVal Tensor)) : Res (PyVal Tensor) :=
  match normalized_meas with
  | [] => Raise IndexError
  | [m] => Ok m
  | _ => Ok (PSeq normalized_meas)
  end.

Definition parse_native_mid_circuit_measurements (circuit : QuantumScript)
  (aux_tapes : list QuantumScript) (results : list Tensor)
  (postselect_mode : option string) : Res (PyVal Tensor) :=
  let interface := get_deep_interface results in
  let interface := if String.eqb interface "builtins" then "numpy"%string
                   else interface in
  let interface := if String.eqb interface "tf" then "tensorflow"%string
                   else interface in
  aux0 <- getitem0 aux_tapes ;;
  let all_mcms := List.filter is_mcm (operations aux0) in
  let n_mcms := List.length all_mcms in
  columns <- map_res as_column (last_items n_mcms results) ;;
  mcm_samples <- hstack columns ;;
  is_valid <- valid_shots (has_postselect_row all_mcms) (postselect_row all_mcms)
                          (List.length columns) mcm_samples ;;
  let mid_meas := List.filter is_mcm (operations circuit) in
  let mcm_samples :=
    dict_zip mid_meas
             (List.map (fun i => column_slice i mcm_samples) (List.seq 0 n_mcms)) [] in
  normalized_meas <- normalize results postselect_mode interface mcm_samples is_valid
                               (measurements circuit) 0 [] ;;
  pack normalized_meas.

End Results.
End Parse.

(* --------------------------------------------------------------------- *)
(** ** [transforms/decompose.py] *)
(* --------------------------------------------------------------------- *)

Module Decompose.

(** An element of a gate set: an operator name, an operator class, or some
    other object. *)
Inductive GateKey (T : Type) : Type :=
| GName (s : string)
| GType (t : T)
| GObject (n : nat).
Arguments GName {T} s.
Arguments GType {T} t.
Arguments GObject {T} n.

(** The gate set as [_resolve_gate_set] returns it: names and classes, a
    dictionary of weights, a function, or another object. *)
Inductive GateSet (T : Type) : Type :=
| Keys (l : list (GateKey T))
| Weighted (d : list (GateKey T * Q))
| Predicate (f : Operator -> Res bool)
| Other (truth : bool).
Arguments Keys {T} l.
Arguments Weighted {T} d.
Arguments Predicate {T} f.
Arguments Other {T} truth.

(** What the transform uses from outside this file: of an operator its
    [name], [has_decomposition] and [decomposition()]; classes of operators
    with [isinstance]; [translate_op_alias] and [qml.ops.__all__]; the
    decomposition graph, built and solved, with [is_solved_for] and
    [decomposition], and the operators a rule queues when it is called with
    the parameters, wires and hyperparameters of an operator inside an
    [AnnotatedQueue]; [tape.copy(operations=...)]; and the type of the
    results of an execution. *)
Class Env : Type := {
  name : Operator -> string;
  has_decomposition : Operator -> bool;
  decomposition : Operator -> Res (list Operator);
  GateType : Type;
  isinstance : Operator -> GateType -> bool;
  translate_op_alias : string -> string;
  ops_all : list string;
  DecompsEntry : Type;
  Rule : Type;
  Graph : Type;
  DecompositionGraph_solved :
    list Operator -> GateSet GateType ->
    option (list DecompsEntry) -> option (list DecompsEntry) -> Res Graph;
  is_solved_for : Graph -> Operator -> bool;
  graph_decomposition : Graph -> Operator -> Res Rule;
  queued_by : Rule -> Operator -> Res (list Operator);
  copy_with_operations : QuantumScript -> list Operator -> QuantumScript;
  Result : Type
}.

Section Transform.
Context `{Env}.

(** [qml.decomposition.enabled_graph()]. *)
Variable enabled_graph : bool.

(** A warning of class [UserWarning] about an operator. *)
Inductive Warning : Type :=
| UserWarning (op : Operator).

(** A computation returns or raises, and has emitted warnings. *)
Definition W (A : Type) : Type := (Res A * list Warning)%type.

Definition wret {A : Type} (a : A) : W A := (Ok a, []).

Definition wlift {A : Type} (r : Res A) : W A := (r, []).


Definition wbind {A B : Type} (m : W A) (k : A -> W B) : W B :=
  match m with
  | (Ok a, ws) => let '(r, ws') := k a in (r, ws ++ ws')
  | (Raise e, ws) => (Raise e, ws)
  end.

Notation "x <~ c ;; k" := (wbind c (fun x => k))
  (at level 100, c at next level, right associativity).

Definition null_postprocessing (results : list Result) : Res Result :=
  getitem0 results.



(** The names of the iterable, translated, and its classes. *)
Definition gate_names (keys : list (GateKey GateType)) : list string :=
  List.flat_map (fun gate => match gate with
                             | GName s => [translate_op_alias s]
                             | _ => []
                             end) keys.

Definition gate_types (keys : list (GateKey GateType)) : list GateType :=
  List.flat_map (fun gate => match gate with
                             | GType t => [t]
                             | _ => []
                             end) keys.

(** [gate_set_contains] for an iterable. *)
Definition gate_set_contains (keys : list (GateKey GateType)) (op : Operator) : bool :=
  List.existsb (String.eqb (name op)) (gate_names keys)
  || List.existsb (isinstance op) (gate_types keys).




(** One operator after the other, the results in one list. *)
Fixpoint wflat_map {A B : Type} (f : A -> W (list B)) (l : list A) : W (list B) :=
  match l with
  | [] => wret []
  | x :: l' =>
      ys <~ f x ;;
      zs <~ wflat_map f l' ;;
      wret (ys ++ zs)
  end.

(** [_operator_decomposition_gen], as the list of the operators it yields;
    [fuel] bounds the depth of the recursion. *)
Fixpoint _operator_decomposition_gen (fuel : nat) (op : Operator)
  (acceptance_function : Operator -> W bool) (max_expansion : option Z)
  (current_depth : Z) (decomp_graph : option Graph) : W (list Operator) :=
  match fuel with
  | O => wlift (Raise RecursionError)
  | S fuel' =>
      let max_depth_reached :=
        match max_expansion with
        | Some m => m <=? current_depth
        | None => false
        end in
      accepted <~ acceptance_function op ;;
      if accepted || max_depth_reached then wret [op]
      else
        decomp <~ wlift
          (match decomp_graph with
           | Some g =>
               if is_solved_for g op then
                 op_rule <- graph_decomposition g op ;;
                 queued_by op_rule op
               else decomposition op
           | None => decomposition op
           end) ;;
        wflat_map (fun sub_op =>
                     _operator_decomposition_gen fuel' sub_op acceptance_function
                       max_expansion (current_depth + 1) decomp_graph)
                  decomp
  end.





End Transform.

End Decompose.

(* ===================================================================== *)
(** * Part II: instances used to run the model *)
(* ===================================================================== *)

Module Instances.

(** An environment of [dynamic_one_shot] whose tensors are lists of
    integers: stacking concatenates, and the reassembly returns the regrouped
    columns as they are. *)
Definition flatten_val : OneShot.PyVal (list Z) -> list Z :=
  fix go (v : OneShot.PyVal (list Z)) : list Z :=
    match v with
    | OneShot.PTensor t => t
    | OneShot.PSeq l => List.flat_map go l
    | OneShot.PCounts _ => []
    end.

Definition list_env : OneShot.Env := {|
  OneShot.Tensor := list Z;
  OneShot.broadcast_expand := fun t => ([t], fun rs => Ok (OneShot.PSeq rs));
  OneShot.squeeze_vstack := fun l => Ok (List.flat_map flatten_val l);
  OneShot.tensor_items := fun t => Ok (List.map (fun z => OneShot.PTensor [z]) t);
  OneShot.parse_native_mid_circuit_measurements :=
    fun _ _ results _ => Ok (OneShot.PSeq (List.map OneShot.PTensor results))
|}.

Definition gate (name : string) (wires : list Wire) : Operator :=
  Op (mkOp name wires None false false None 0%nat).

Definition H0 : Operator :=
  gate "<class 'pennylane.ops.qubit.non_parametric_ops.Hadamard'>" [0%nat].

Definition m0 : MidMeasureMP := mkMCM 0 [0%nat] None false None.
Definition m1_post1 : MidMeasureMP := mkMCM 1 [1%nat] (Some 1) false None.

Definition PauliZ0 : Observable := mkObs "PauliZ" [0%nat].

Definition expval_Z0 : MeasurementProcess := mkMP ExpectationMP (Some PauliZ0) [] MVNone.
Definition counts_w0 : MeasurementProcess := mkMP CountsMP None [0%nat] MVNone.
Definition state_mp : MeasurementProcess := mkMP StateMP None [] MVNone.

Definition no_kwargs : OneShot.Kwargs := OneShot.mkKwargs None None.

(** [H(0); measure(0)] with an expectation value and three shots. *)
Definition tape_three_shots : QuantumScript :=
  mkQS [H0; MidMeasure m0] [expval_Z0] (Finite [3%nat]) [].

(** [H(0); measure(0)] returning the state, without shots. *)
Definition tape_state_analytic : QuantumScript :=
  mkQS [H0; MidMeasure m0] [state_mp] Analytic [].

(** [H(0)] alone, returning the state, without shots. *)
Definition tape_no_mcm : QuantumScript :=
  mkQS [H0] [state_mp] Analytic [].

(** *** A backend with exact amplitudes

    States are vectors of rational amplitudes in the computational basis of
    [log2 (length)] wires.  Sampling is scripted: the world is the list of
    results that successive calls of [measure_with_samples] return.  The
    norm is the square root rounded down to eighteen decimals. *)

Inductive TVal : Type :=
| TInts (l : list Z)
| TReal (q : Q)
| TReals (l : list Q)
| TNaN
| TNaNs (n : nat).

Definition sum_squares (st : list Q) : Q :=
  List.fold_right (fun a acc => Qred (a * a + acc)) 0%Q st.

Definition exact_norm (st : list Q) : Q :=
  let s := sum_squares st in
  Z.sqrt (Qnum s * 10 ^ 36 / Z.pos (Qden s)) # 1000000000000000000.

Definition n_wires (st : list Q) : nat := Nat.log2 (List.length st).

(** The bit of basis index [i] on [axis]. *)
Definition bit_at (st : list Q) (axis i : nat) : bool :=
  Nat.testbit i (n_wires st - 1 - axis).

Definition exact_zero_slice (st : list Q) (axis idx : nat) : Res (list Q) :=
  if Nat.ltb axis (n_wires st) then
    Ok (List.map (fun p => if Bool.eqb (bit_at st axis (fst p)) (Nat.eqb idx 1)
                           then 0%Q else snd p)
                 (List.combine (List.seq 0 (List.length st)) st))
  else Raise IndexError.

Definition exact_flip (st : list Q) (axis : nat) : list Q :=
  List.map (fun i => List.nth (Nat.lxor i (2 ^ (n_wires st - 1 - axis))) st 0%Q)
           (List.seq 0 (List.length st)).

(** The rotation with cosine 3/5 and sine 4/5 on [axis]. *)
Definition exact_rot (st : list Q) (axis : nat) : list Q :=
  let other i := List.nth (Nat.lxor i (2 ^ (n_wires st - 1 - axis))) st 0%Q in
  List.map (fun p => if bit_at st axis (fst p)
                     then Qred ((4 # 5) * other (fst p) + (3 # 5) * snd p)
                     else Qred ((3 # 5) * snd p - (4 # 5) * other (fst p)))
           (List.combine (List.seq 0 (List.length st)) st).

(** The gates of this backend: [PauliX] and the rotation [Rot345]; any other
    operator leaves the state as it is. *)
Definition exact_apply (op : Operator) (st : list Q) : list Q :=
  match op with
  | Op o =>
      match op_wires o with
      | w :: _ =>
          if str_contains "PauliX" (op_type o) then exact_flip st w
          else if str_contains "Rot345" (op_type o) then exact_rot st w
          else st
      | [] => st
      end
  | MidMeasure _ => st
  end.

Definition tval_scale (c : Z) (v : TVal) : TVal :=
  match v with
  | TInts l => TInts (List.map (Z.mul c) l)
  | TReal q => TReal (Qred (inject_Z c * q))
  | TReals l => TReals (List.map (fun q => Qred (inject_Z c * q)) l)
  | TNaN => TNaN
  | TNaNs n => TNaNs n
  end.

Definition tval_add (a b : TVal) : TVal :=
  match a, b with
  | TReal x, TReal y => TReal (Qred (x + y))
  | TReal x, TReals l | TReals l, TReal x => TReals (List.map (fun q => Qred (x + q)) l)
  | TReals l, TReals l' =>
      TReals (List.map (fun p => Qred (fst p + snd p)) (List.combine l l'))
  | TNaNs n, _ | _, TNaNs n => TNaNs n
  | TReals l, TNaN | TNaN, TReals l => TNaNs (List.length l)
  | _, _ => TNaN
  end.

Definition tval_div (v : TVal) (n : Z) : TVal :=
  if Z.eqb n 0 then TNaN
  else match v with
       | TInts l => TReals (List.map (fun z => Qred (inject_Z z / inject_Z n)) l)
       | TReal q => TReal (Qred (q / inject_Z n))
       | TReals l => TReals (List.map (fun q => Qred (q / inject_Z n)) l)
       | TNaN => TNaN
       | TNaNs k => TNaNs k
       end.

Fixpoint tval_concat (l : list TVal) : Res TVal :=
  match l with
  | [] => Raise ValueError
  | [TInts a] => Ok (TInts a)
  | TInts a :: l' =>
      match tval_concat l' with
      | Ok (TInts b) => Ok (TInts (a ++ b))
      | Ok _ => Raise ValueError
      | Raise e => Raise e
      end
  | _ => Raise ValueError
  end.

Definition exact_backend : Simulate.Backend := {|
  Simulate.State := list Q;
  Simulate.Value := TVal;
  Simulate.Float := Q;
  Simulate.World := list (Simulate.Result TVal);
  Simulate.map_to_standard_wires := fun _ => None;
  Simulate.create_initial_state :=
    fun wires _ _ => 1%Q :: List.repeat 0%Q (2 ^ List.length wires - 1);
  Simulate.apply_operation := fun op st _ _ w => (Ok (exact_apply op st), w);
  Simulate.np_norm := exact_norm;
  Simulate.is_abstract := fun _ => false;
  Simulate.is_abstract_float := fun _ => false;
  Simulate.allclose_zero := fun x => Qle_bool (Qabs x) (1 # 100000000);
  Simulate.float_zero := 0%Q;
  Simulate.float_ltb := fun x q => negb (Qle_bool q x);
  Simulate.state_div := fun st n => List.map (fun a => Qred (a / n)) st;
  Simulate.random_binomial := fun s _ w => (s, w);
  Simulate.stack_zeros := fun st => List.flat_map (fun a => [a; 0%Q]) st;
  Simulate.zero_slice := exact_zero_slice;
  Simulate.measure :=
    fun _ st _ => Ok (Simulate.RTensor (TReals (List.map (fun a => Qred (a * a)) st)));
  Simulate.measure_with_samples :=
    fun _ _ _ _ w => match w with
                     | r :: w' => (Ok r, w')
                     | [] => (Raise StopIteration, [])
                     end;
  Simulate.int_samples :=
    fun v => match v with
             | TInts l => Ok l
             | _ => Raise TypeError
             end;
  Simulate.np_empty_item := fun _ => 7;
  Simulate.nan_like_eigvals := fun m => TNaNs (2 ^ List.length (wires_of_mp m));
  Simulate.of_int := fun z => TReal (inject_Z z);
  Simulate.nan_tensor := TNaN;
  Simulate.scale := tval_scale;
  Simulate.add := tval_add;
  Simulate.div_int := tval_div;
  Simulate.concatenate := tval_concat;
  Simulate.squeeze := fun v => v;
  Simulate.var := fun _ => TNaN;
  Simulate.gather_mcm := fun _ _ => Raise TypeError;
  Simulate.circuit_hash := fun _ => 0
|}.

(** One scripted sampling result: the samples of a single measurement. *)
Definition sampled (l : list Z) : Simulate.Result TVal :=
  Simulate.RTuple [Simulate.RTensor (TInts l)].

Definition R0 : Operator := gate "<class 'Rot345'>" [0%nat].
Definition R1 : Operator := gate "<class 'Rot345'>" [1%nat].

Definition m0_reset : MidMeasureMP := mkMCM 0 [0%nat] None true None.
Definition m0_post1 : MidMeasureMP := mkMCM 0 [0%nat] (Some 1) false None.

(** [R(0); R(1); measure(0); measure(1, postselect=1)], two shots. *)
Definition tape_nested (mp : MeasurementProcess) : QuantumScript :=
  mkQS [R0; R1; MidMeasure m0; MidMeasure m1_post1] [mp] (Finite [2%nat]) [].

(** [R(0); measure(0, postselect=1)], four shots. *)
Definition tape_post1 : QuantumScript :=
  mkQS [R0; MidMeasure m0_post1] [expval_Z0] (Finite [4%nat]) [].

(** [R(0); measure(0, reset=True)], two shots. *)
Definition tape_reset : QuantumScript :=
  mkQS [R0; MidMeasure m0_reset] [expval_Z0] (Finite [2%nat]) [].

(** [measure(0)] on the state [|0>], two shots. *)
Definition tape_zero : QuantumScript :=
  mkQS [MidMeasure m0] [expval_Z0] (Finite [2%nat]) [].

(** A store for a call that is passed no dictionaries. *)
Definition fresh_store (w : list (Simulate.Result TVal))
  : @Simulate.Store exact_backend :=
  Simulate.mkStore (H := exact_backend) [] [] w [].

End Instances.

Module MoreInstances.
Import Instances.

(** *** Results of one-shot runs as lists of integers *)

(** Tensors are lists of integers on the NumPy interface, without the
    compiler; squeezing changes nothing, and the reductions return the
    samples of the valid shots. *)
Definition list_results : Parse.Env := {|
  Parse.Tensor := list Z;
  Parse.get_deep_interface := fun _ => "numpy"%string;
  Parse.compiler_active := false;
  Parse.as_column := fun t => Ok t;
  Parse.array_like := fun _ t => Ok t;
  Parse.squeeze := fun v => Ok v;
  Parse.squeeze_tensor := fun t => Ok t;
  Parse.nan := [];
  Parse.nan_like_eigvals := fun _ => [];
  Parse.gather_mcm_qjit := fun _ _ _ _ => Raise TypeError;
  Parse.gather_mcm := fun _ _ _ _ => Raise TypeError;
  Parse.gather_non_mcm :=
    fun _ samples is_valid _ => Ok (OneShot.PTensor (Np.select samples is_valid));
  Parse.qjit_counts := fun _ _ => Raise TypeError
|}.

(** [R(0); measure(0, postselect=1)] with an expectation value, and its
    auxiliary tape for two shots. *)
Definition aux_post1 : QuantumScript :=
  mkQS [R0; MidMeasure m0_post1]
       [expval_Z0; sample_mv (MeasurementValue [m0_post1] 0%nat)]
       (Finite [1%nat; 1%nat]) [].

(** *** Decomposition of the operators of this file *)

Definition gate_name (op : Operator) : string :=
  match op with
  | Op o => op_type o
  | MidMeasure _ => "MidMeasureMP"
  end.

Definition Hadamard_on (w : Wire) : Operator := gate "Hadamard" [w].
Definition CZ_on (a b : Wire) : Operator := gate "CZ" [a; b].
Definition CNOT_on (a b : Wire) : Operator := gate "CNOT" [a; b].
Definition Toffoli_on (a b c : Wire) : Operator := gate "Toffoli" [a; b; c].

(** [CNOT] decomposes into [H], [CZ], [H]; [Toffoli] into two [CNOT]s (as
    far as the names go); no other operator has a decomposition. *)
Definition gate_decomposition (op : Operator) : Res (list Operator) :=
  match op with
  | Op o =>
      if String.eqb (op_type o) "CNOT" then
        match op_wires o with
        | [a; b] => Ok [Hadamard_on b; CZ_on a b; Hadamard_on b]
        | _ => Raise ValueError
        end
      else if String.eqb (op_type o) "Toffoli" then
        match op_wires o with
        | [a; b; c] => Ok [CNOT_on a c; CNOT_on b c]
        | _ => Raise ValueError
        end
      else Raise NotImplementedError
  | MidMeasure _ => Raise NotImplementedError
  end.

(** Operators by name, classes being names as well; no graph. *)
Definition gates : Decompose.Env := {|
  Decompose.name := gate_name;
  Decompose.has_decomposition :=
    fun op => String.eqb (gate_name op) "CNOT" || String.eqb (gate_name op) "Toffoli";
  Decompose.decomposition := gate_decomposition;
  Decompose.GateType := string;
  Decompose.isinstance := fun op t => String.eqb (gate_name op) t;
  Decompose.translate_op_alias := fun s => s;
  Decompose.ops_all := ["Hadamard"; "CZ"; "CNOT"; "Toffoli"]%string;
  Decompose.DecompsEntry := unit;
  Decompose.Rule := unit;
  Decompose.Graph := unit;
  Decompose.DecompositionGraph_solved := fun _ _ _ _ => Raise NotImplementedError;
  Decompose.is_solved_for := fun _ _ => false;
  Decompose.graph_decomposition := fun _ _ => Raise NotImplementedError;
  Decompose.queued_by := fun _ _ => Raise NotImplementedError;
  Decompose.copy_with_operations :=
    fun tape ops => mkQS ops (measurements tape) (shots tape) (trainable_params tape);
  Decompose.Result := Z
|}.


(** *** Devices *)

Definition default_qubit : Qnode.Device :=
  Qnode.mkDevice "default.qubit" false false [] None.

Definition legacy_device : Qnode.Device :=
  Qnode.mkDevice "default.mixed" true false [("supports_mid_measure"%string, true)] None.

(** [R(0); measure(0, postselect=1)] with the shot vector [(2, 2)]. *)
Definition tape_shot_vector : QuantumScript :=
  mkQS [R0; MidMeasure m0_post1] [expval_Z0] (Finite [2%nat; 2%nat]) [].

(** A broadcasted rotation, a postselected measurement and samples. *)
Definition tape_broadcast_samples : QuantumScript :=
  mkQS [Op (mkOp "RX" [0%nat] (Some 3%nat) false false None 0%nat);
        MidMeasure m0_post1]
       [sample_wires [0%nat]] (Finite [2%nat]) [].

(** The stopping condition of the gate set [{H, CZ}] without warnings. *)
Definition accepts_h_cz (op : Operator) : Decompose.W bool :=
  Decompose.wlift (Ok (Decompose.gate_set_contains (H := gates)
                         [Decompose.GName "Hadamard"; Decompose.GName "CZ"] op)).

End MoreInstances.

(* ===================================================================== *)
(** * Part III: properties *)
(* ===================================================================== *)

(** ** The one-shot transform *)

Module OneShotProofs.
Import OneShot.

Section WithEnv.
Context `{Env}.

Lemma check_measurements_ok (ms : list MeasurementProcess) :
  List.forallb (fun m => supported_kind (mp_kind m)) ms = true ->
  check_measurements ms = Ok tt.
Proof.
  induction ms as [|m ms IH]; simpl; intros Hall; [reflexivity|].
  apply andb_prop in Hall as [Hm Hms].
  rewrite Hm. simpl. auto.
Qed.

Lemma check_measurements_raises (ms : list MeasurementProcess) :
  List.forallb (fun m => supported_kind (mp_kind m)) ms = false ->
  check_measurements ms = Raise TypeError.
Proof.
  induction ms as [|m ms IH]; simpl; intros Hall; [discriminate|].
  destruct (supported_kind (mp_kind m)); simpl in *; auto.
Qed.

(** The auxiliary tape of a circuit with [n] shots in total. *)
Definition aux_tape_of (circuit : QuantumScript) (n : nat) : QuantumScript :=
  mkQS (operations circuit)
       (aux_terminal_measurements (measurements circuit)
          ++ aux_mcm_measurements (operations circuit))
       (Finite (List.repeat 1%nat n)) (trainable_params circuit).

Lemma init_auxiliary_tape_finite (circuit : QuantumScript) (n : nat) :
  total_shots (shots circuit) = Some n ->
  init_auxiliary_tape circuit = Ok (aux_tape_of circuit n).
Proof. unfold init_auxiliary_tape. intros ->. reflexivity. Qed.

Lemma Shots_bool_total (s : Shots) :
  Shots_bool s = true -> exists n, total_shots s = Some n.
Proof. destruct s; simpl; [discriminate|eauto]. Qed.

(** C9.  A tape without any mid-circuit measurement is returned as it is, in
    a batch of one, whatever its measurements and shots; the postprocessing
    function returned is [null_postprocessing], which hands back the first
    result of the batch. *)
Theorem dynamic_one_shot_without_mcm (tape : QuantumScript) (kwargs : Kwargs) :
  List.existsb is_mcm (operations tape) = false ->
  dynamic_one_shot tape kwargs = Ok ([tape], null_postprocessing)
  /\ forall r rs, null_postprocessing (r :: rs) = Ok r.
Proof.
  intros Hno. split.
  - unfold dynamic_one_shot. rewrite Hno. reflexivity.
  - intros r rs. reflexivity.
Qed.

(** C8, as amended.  On a tape with a mid-circuit measurement no tape is
    produced in two cases: a terminal measurement of a kind other than
    counts, expectation, probability, sample or variance gives a
    [TypeError], whatever the shots; and measurements that are all of these
    kinds with analytic shots give a [QuantumFunctionError]. *)
Theorem dynamic_one_shot_errors (tape : QuantumScript) (kwargs : Kwargs) :
  List.existsb is_mcm (operations tape) = true ->
  (List.forallb (fun m => supported_kind (mp_kind m)) (measurements tape) = false ->
   dynamic_one_shot tape kwargs = Raise TypeError)
  /\ (List.forallb (fun m => supported_kind (mp_kind m)) (measurements tape) = true ->
      Shots_bool (shots tape) = false ->
      dynamic_one_shot tape kwargs = Raise QuantumFunctionError).
Proof.
  intros Hmcm. unfold dynamic_one_shot. rewrite Hmcm. simpl. split.
  - intros Hbad. rewrite (check_measurements_raises _ Hbad). reflexivity.
  - intros Hgood Hshots. rewrite (check_measurements_ok _ Hgood). simpl.
    rewrite Hshots. reflexivity.
Qed.

(** C3, as amended.  For a circuit without broadcasting, with finite shots,
    a mid-circuit measurement and supported measurements only, the batch
    returned holds exactly one auxiliary tape: it has the operations of the
    circuit and a shot vector of [total_shots] entries of one shot each.  The
    postprocessing function is [processing_fn]; for a circuit without a shot
    vector it takes the batch whose first element holds the per-shot results,
    regroups them and returns what
    [parse_native_mid_circuit_measurements] makes of them. *)
Theorem dynamic_one_shot_one_aux_tape (tape : QuantumScript) (kwargs : Kwargs) :
  batch_size tape = None ->
  Shots_bool (shots tape) = true ->
  List.existsb is_mcm (operations tape) = true ->
  List.forallb (fun m => supported_kind (mp_kind m)) (measurements tape) = true ->
  exists n aux f,
    total_shots (shots tape) = Some n
    /\ dynamic_one_shot tape kwargs = Ok ([aux], f)
    /\ operations aux = operations tape
    /\ Shots_iter (shots aux) = List.repeat 1%nat n
    /\ List.length (Shots_iter (shots aux)) = n
    /\ (forall results,
          f results
          = processing_unbatched tape [aux] (kw_postselect_mode kwargs) results)
    /\ (has_partitioned_shots (shots tape) = false ->
        forall per_shot rest,
          f (PSeq per_shot :: rest)
          = (r0 <- getitem0 per_shot ;;
             regrouped <-
               (if negb (is_Sequence r0)
                then (t <- squeeze_vstack per_shot ;; Ok [t])
                else (cols <- as_list r0 ;;
                      map_res (fun i => col <- map_res (getitem i) per_shot ;;
                                        squeeze_vstack col)
                              (List.seq 0 (List.length cols)))) ;;
             parse_native_mid_circuit_measurements tape [aux] regrouped
               (kw_postselect_mode kwargs))).
Proof.
  intros Hbatch Hshots Hmcm Hsupp.
  destruct (Shots_bool_total _ Hshots) as [n Hn].
  exists n, (aux_tape_of tape n),
    (processing_fn tape [aux_tape_of tape n] (kw_postselect_mode kwargs) None).
  split; [exact Hn|]. split.
  - unfold dynamic_one_shot. rewrite Hmcm. simpl.
    rewrite (check_measurements_ok _ Hsupp). simpl.
    rewrite Hshots. simpl. rewrite Hbatch. simpl.
    rewrite andb_false_r. rewrite (init_auxiliary_tape_finite _ _ Hn).
    reflexivity.
  - split; [reflexivity|]. split; [reflexivity|].
    split; [apply List.repeat_length|]. split.
    + intros results. unfold processing_fn. rewrite Hbatch. reflexivity.
    + intros Hpart per_shot rest. unfold processing_fn. rewrite Hbatch.
      unfold processing_unbatched. rewrite Hpart.
      unfold processing_tail. rewrite Hpart. reflexivity.
Qed.

End WithEnv.

(** C9 on [H(0)] with a state measurement and no shots. *)
Lemma dynamic_one_shot_without_mcm_witness :
  List.existsb is_mcm (operations Instances.tape_no_mcm) = false
  /\ dynamic_one_shot (H := Instances.list_env) Instances.tape_no_mcm
       Instances.no_kwargs
     = Ok ([Instances.tape_no_mcm], null_postprocessing).
Proof.
  split; [reflexivity|].
  apply (dynamic_one_shot_without_mcm (H := Instances.list_env)
           Instances.tape_no_mcm Instances.no_kwargs).
  reflexivity.
Defined.

(** C8 as stated fails: a tape with a mid-circuit measurement, analytic
    shots and a state measurement raises [TypeError], not
    [QuantumFunctionError]. *)
Lemma dynamic_one_shot_errors_counterexample :
  ~ (forall tape kwargs,
        List.existsb is_mcm (operations tape) = true ->
        (List.forallb (fun m => supported_kind (mp_kind m)) (measurements tape) = false ->
         dynamic_one_shot (H := Instances.list_env) tape kwargs = Raise TypeError)
        /\ (Shots_bool (shots tape) = false ->
            dynamic_one_shot (H := Instances.list_env) tape kwargs
            = Raise QuantumFunctionError)).
Proof.
  intros Hclaim.
  destruct (Hclaim Instances.tape_state_analytic Instances.no_kwargs eq_refl)
    as [_ Hqfe].
  specialize (Hqfe eq_refl). discriminate Hqfe.
Qed.

(** C8, as amended, on the two tapes: the state measurement first, then an
    expectation value without shots. *)
Lemma dynamic_one_shot_errors_witness :
  dynamic_one_shot (H := Instances.list_env) Instances.tape_state_analytic
    Instances.no_kwargs = Raise TypeError
  /\ dynamic_one_shot (H := Instances.list_env)
       (set_shots Instances.tape_three_shots Analytic) Instances.no_kwargs
     = Raise QuantumFunctionError.
Proof.
  split.
  - apply (dynamic_one_shot_errors (H := Instances.list_env)
             Instances.tape_state_analytic Instances.no_kwargs eq_refl).
    reflexivity.
  - apply (dynamic_one_shot_errors (H := Instances.list_env)
             (set_shots Instances.tape_three_shots Analytic)
             Instances.no_kwargs eq_refl); reflexivity.
Defined.

(** C3 as stated fails: with three shots the batch holds one tape, and that
    tape carries all three shots. *)
Lemma dynamic_one_shot_one_aux_tape_counterexample :
  ~ (forall tape kwargs n,
        batch_size tape = None ->
        total_shots (shots tape) = Some n ->
        List.existsb is_mcm (operations tape) = true ->
        exists tapes f,
          dynamic_one_shot (H := Instances.list_env) tape kwargs = Ok (tapes, f)
          /\ List.length tapes = n
          /\ List.Forall (fun t => total_shots (shots t) = Some 1%nat) tapes).
Proof.
  intros Hclaim.
  destruct (Hclaim Instances.tape_three_shots Instances.no_kwargs 3%nat
              eq_refl eq_refl eq_refl) as (tapes & f & Hrun & Hlen & _).
  vm_compute in Hrun. injection Hrun as Htapes _. subst tapes.
  discriminate Hlen.
Qed.

(** C3, as amended, on the tape with three shots. *)
Lemma dynamic_one_shot_one_aux_tape_witness :
  exists n aux f,
    total_shots (shots Instances.tape_three_shots) = Some n
    /\ dynamic_one_shot (H := Instances.list_env) Instances.tape_three_shots
         Instances.no_kwargs = Ok ([aux], f)
    /\ operations aux = operations Instances.tape_three_shots
    /\ Shots_iter (shots aux) = List.repeat 1%nat n.
Proof.
  destruct (dynamic_one_shot_one_aux_tape (H := Instances.list_env)
              Instances.tape_three_shots Instances.no_kwargs
              eq_refl eq_refl eq_refl eq_refl)
    as (n & aux & f & Hn & Hrun & Hops & Hshots & _).
  exists n, aux, f. repeat split; assumption.
Defined.

End OneShotProofs.

(** ** Decomposition rules and their registry *)

Module DecompProofs.
Import Decomp.

Section WithEnv.
Context `{Env}.

(** The canonical form in the words of the specification: every key of the
    dictionary translated to its compressed representation, with its
    count. *)
Fixpoint translate_keys (d : list (ResourceKey * Z))
  : Res (gmap CompressedResourceOp Z) :=
  match d with
  | [] => Ok ∅
  | (k, c) :: d' =>
      r <- _auto_wrap k ;;
      g <- translate_keys d' ;;
      Ok (<[r := c]> g)
  end.

(** Whether [k] is translated to [r]. *)
Definition wraps_to (k : ResourceKey) (r : CompressedResourceOp) : bool :=
  match _auto_wrap k with
  | Ok r' => bool_decide (r' = r)
  | Raise _ => false
  end.

(** The canonical count of [r]: the sum of the positive counts of the keys
    translated to [r]. *)
Fixpoint canonical_count (d : list (ResourceKey * Z)) (r : CompressedResourceOp) : Z :=
  match d with
  | [] => 0
  | (k, c) :: d' =>
      (if (0 <? c) && wraps_to k r then c else 0) + canonical_count d' r
  end.

(** Every key with a positive count can be translated. *)
Definition wrappable (d : list (ResourceKey * Z)) : bool :=
  List.forallb (fun kc => negb (0 <? snd kc)
                          || match _auto_wrap (fst kc) with
                             | Ok _ => true
                             | Raise _ => false
                             end) d.

Lemma canonical_count_nonneg (d : list (ResourceKey * Z)) (r : CompressedResourceOp) :
  0 <= canonical_count d r.
Proof.
  induction d as [|[k c] d IH]; simpl; [lia|].
  destruct (0 <? c) eqn:Hc; simpl; [|lia].
  apply Z.ltb_lt in Hc. destruct (wraps_to k r); lia.
Qed.

(** All counts of a counter are positive. *)
Definition positive_counter (g : gmap CompressedResourceOp Z) : Prop :=
  forall r v, g !! r = Some v -> 0 < v.

Lemma Counter_update_lookup (k r : CompressedResourceOp) (c : Z)
  (g : gmap CompressedResourceOp Z) :
  default 0 (Counter_update k c g !! r)
  = default 0 (g !! r) + (if bool_decide (k = r) then c else 0).
Proof.
  unfold Counter_update. destruct (decide (k = r)) as [->|Hne].
  - rewrite lookup_insert_eq. rewrite bool_decide_eq_true_2 by reflexivity.
    reflexivity.
  - rewrite lookup_insert_ne by exact Hne.
    rewrite bool_decide_eq_false_2 by exact Hne. lia.
Qed.

Lemma Counter_update_positive (k : CompressedResourceOp) (c : Z)
  (g : gmap CompressedResourceOp Z) :
  0 < c -> positive_counter g -> positive_counter (Counter_update k c g).
Proof.
  intros Hc Hg r v. unfold Counter_update.
  destruct (decide (k = r)) as [->|Hne].
  - rewrite lookup_insert_eq. intros [= <-].
    destruct (g !! r) as [v0|] eqn:Hr; simpl; [|lia].
    specialize (Hg r v0 Hr). lia.
  - rewrite lookup_insert_ne by exact Hne. apply Hg.
Qed.

(** The loop of [compute_resources], from any counter: it raises exactly
    when a key with a positive count has no representation, and otherwise
    adds the canonical counts. *)
Lemma count_gates_spec (d : list (ResourceKey * Z)) :
  forall g,
    positive_counter g ->
    match count_gates d g with
    | Ok g' =>
        wrappable d = true
        /\ positive_counter g'
        /\ forall r, default 0 (g' !! r) = default 0 (g !! r) + canonical_count d r
    | Raise e => wrappable d = false
    end.
Proof.
  induction d as [|[k c] d IH]; intros g Hg; simpl.
  - repeat split; [exact Hg|]. intros r. lia.
  - destruct (0 <? c) eqn:Hc; simpl.
    + destruct (_auto_wrap k) as [r0|e] eqn:Hk; simpl.
      * apply Z.ltb_lt in Hc.
        specialize (IH (Counter_update r0 c g) (Counter_update_positive _ _ _ Hc Hg)).
        destruct (count_gates d (Counter_update r0 c g)) as [g'|e].
        -- destruct IH as (Hw & Hpos & Hsum). repeat split; [exact Hw|exact Hpos|].
           intros r. rewrite Hsum, Counter_update_lookup.
           unfold wraps_to. rewrite Hk. lia.
        -- exact IH.
      * reflexivity.
    + specialize (IH g Hg). destruct (count_gates d g) as [g'|e].
      * destruct IH as (Hw & Hpos & Hsum). repeat split; [exact Hw|exact Hpos|].
        intros r. rewrite Hsum. lia.
      * exact IH.
Qed.

(** C4, as amended.  A rule given a static dictionary, by its constructor
    or by [register_resources] on a function or on a rule, computes the same
    resources whatever the arguments.  The result is the canonical form of
    the dictionary: each compressed representation is counted as the sum of
    the positive counts of the keys translated to it, and is absent when
    no key with a positive count is translated to it; the call raises
    exactly when a key with a positive count cannot be translated. *)
Theorem static_resources_canonical
  (func : Args -> Res Out) (source : string) (d : list (ResourceKey * Z))
  (condition : option (Args -> Res bool)) (qfunc : QFunc) (args : Args) :
  let built := DecompositionRule_init func source (ResDict d) condition in
  let registered := register_resources (ResDict d) qfunc in
  (forall args', compute_resources built args' = compute_resources built args)
  /\ compute_resources registered args = compute_resources built args
  /\ match compute_resources built args with
     | Ok res =>
         wrappable d = true
         /\ forall r,
              gate_counts res !! r
              = if 0 <? canonical_count d r then Some (canonical_count d r) else None
     | Raise e => wrappable d = false
     end.
Proof.
  intros built registered. split; [reflexivity|]. split.
  { unfold registered. destruct qfunc; reflexivity. }
  unfold compute_resources, built. simpl.
  assert (Hempty : positive_counter ∅).
  { intros r v. rewrite lookup_empty. discriminate. }
  pose proof (count_gates_spec d ∅ Hempty) as Hspec.
  destruct (count_gates d ∅) as [g|e]; simpl; [|exact Hspec].
  destruct Hspec as (Hw & Hpos & Hsum). split; [exact Hw|].
  intros r. specialize (Hsum r). rewrite lookup_empty in Hsum. simpl in Hsum.
  destruct (g !! r) as [v|] eqn:Hr; simpl in Hsum.
  - specialize (Hpos r v Hr).
    replace (canonical_count d r) with v by lia.
    destruct (0 <? v) eqn:Hv; [reflexivity|]. apply Z.ltb_ge in Hv. lia.
  - replace (canonical_count d r) with 0 by lia. reflexivity.
Qed.

(** *** The registry *)

(** Every list the registry refers to is on the heap. *)
Definition wf (st : Store) : Prop :=
  forall key r, _decompositions st !! key = Some r -> is_Some (heap st !! r).

(** The rules registered for an operator: what the registry holds under its
    key, nothing when the key is absent. *)
Definition registered (op_type : OpTypeArg) (st : Store) : list DecompositionRule :=
  default [] (registry_view st !! registry_key op_type).

Lemma wf_empty : wf empty_store.
Proof. intros key r. simpl. rewrite lookup_empty. discriminate. Qed.

Lemma alloc_fresh (l : list DecompositionRule) (st : Store) :
  heap st !! (alloc l st).1 = None.
Proof. simpl. apply not_elem_of_dom. apply is_fresh. Qed.

Lemma registered_deref (key : string) (r : loc) (st : Store) :
  _decompositions st !! key = Some r ->
  registry_view st !! key = Some (deref r st).
Proof. intros Hk. unfold registry_view. rewrite lookup_fmap, Hk. reflexivity. Qed.

Lemma has_decomp_view (op_type : OpTypeArg) (st : Store) :
  has_decomp op_type st = Nat.ltb 0 (List.length (registered op_type st)).
Proof.
  unfold has_decomp, registered, registry_view. rewrite lookup_fmap.
  destruct (_decompositions st !! registry_key op_type); reflexivity.
Qed.

(** A mutation of a list the registry does not refer to leaves the view of
    the registry as it was. *)
Lemma view_list_mutate (r : loc) (f : list DecompositionRule -> list DecompositionRule)
  (st : Store) :
  (forall key, _decompositions st !! key <> Some r) ->
  registry_view (list_mutate r f st) = registry_view st.
Proof.
  intros Hnot. unfold registry_view. simpl. apply map_eq. intros key.
  rewrite !lookup_fmap.
  destruct (_decompositions st !! key) as [r'|] eqn:Hk; simpl; [|reflexivity].
  f_equal. unfold deref. simpl.
  rewrite lookup_insert_ne; [reflexivity|].
  intros ->. exact (Hnot key Hk).
Qed.

Lemma wf_list_mutate (r : loc) (f : list DecompositionRule -> list DecompositionRule)
  (st : Store) :
  wf st -> wf (list_mutate r f st).
Proof.
  intros Hwf key r' Hk. simpl in *. specialize (Hwf key r' Hk).
  destruct (decide (r = r')) as [->|Hne].
  - rewrite lookup_insert_eq. eauto.
  - rewrite lookup_insert_ne by exact Hne. exact Hwf.
Qed.

(** Reading the registry at a key: the store afterwards is well formed, the
    location read is registered under the key and holds the rules that were
    registered, and the view gains at most the key with an empty list. *)
Lemma defaultdict_getitem_spec (key : string) (st : Store) :
  wf st ->
  let r := (defaultdict_getitem key st).1 in
  let st' := (defaultdict_getitem key st).2 in
  wf st'
  /\ _decompositions st' !! key = Some r
  /\ deref r st' = default [] (registry_view st !! key)
  /\ (forall key', default [] (registry_view st' !! key')
                   = default [] (registry_view st !! key')).
Proof.
  intros Hwf. unfold defaultdict_getitem.
  destruct (_decompositions st !! key) as [r|] eqn:Hk; simpl.
  - refine (conj Hwf (conj Hk (conj _ (fun _ => eq_refl)))).
    rewrite (registered_deref _ _ _ Hk). reflexivity.
  - set (r := fresh (dom (heap st))).
    assert (Hr : heap st !! r = None) by (apply not_elem_of_dom, is_fresh).
    refine (conj _ (conj _ (conj _ _))).
    + intros key' r'. simpl. destruct (decide (key = key')) as [->|Hne].
      * rewrite lookup_insert_eq. intros [= <-]. rewrite lookup_insert_eq. eauto.
      * rewrite lookup_insert_ne by exact Hne. intros Hk'.
        destruct (Hwf key' r' Hk') as [l Hl].
        rewrite lookup_insert_ne; [eauto|]. intros ->. congruence.
    + apply lookup_insert_eq.
    + unfold deref. simpl. rewrite lookup_insert_eq.
      unfold registry_view. rewrite lookup_fmap, Hk. reflexivity.
    + intros key'. unfold registry_view. simpl. rewrite !lookup_fmap.
      destruct (decide (key = key')) as [->|Hne].
      * rewrite lookup_insert_eq, Hk. simpl. unfold deref. simpl.
        rewrite lookup_insert_eq. reflexivity.
      * rewrite lookup_insert_ne by exact Hne.
        destruct (_decompositions st !! key') as [r'|] eqn:Hk'; simpl; [|reflexivity].
        unfold deref. simpl. destruct (Hwf key' r' Hk') as [l Hl].
        rewrite lookup_insert_ne; [reflexivity|]. intros ->. congruence.
Qed.

(** [list_decomps]: the list returned is a new object holding the
    registered rules, and the registry is seen as before. *)
Lemma list_decomps_spec (op_type : OpTypeArg) (st : Store) :
  wf st ->
  let r := (list_decomps op_type st).1 in
  let st1 := (list_decomps op_type st).2 in
  wf st1
  /\ (forall key, _decompositions st1 !! key <> Some r)
  /\ deref r st1 = registered op_type st
  /\ (forall op', registered op' st1 = registered op' st).
Proof.
  intros Hwf. unfold list_decomps.
  pose proof (defaultdict_getitem_spec (registry_key op_type) st Hwf) as Hget.
  destruct (defaultdict_getitem (registry_key op_type) st) as [r0 st0].
  simpl in Hget. destruct Hget as (Hwf0 & Hk0 & Hderef0 & Hview0).
  simpl. set (r := fresh (dom (heap st0))).
  assert (Hr : heap st0 !! r = None) by (apply not_elem_of_dom, is_fresh).
  assert (Hnot : forall key, _decompositions st0 !! key <> Some r).
  { intros key Hk. destruct (Hwf0 key r Hk) as [l Hl]. congruence. }
  refine (conj _ (conj _ (conj _ _))).
  - intros key r' Hk. simpl in *. destruct (Hwf0 key r' Hk) as [l Hl].
    rewrite lookup_insert_ne; [eauto|]. intros ->. congruence.
  - exact Hnot.
  - unfold deref at 1. simpl. rewrite lookup_insert_eq. simpl. exact Hderef0.
  - intros op'. unfold registered. rewrite <- Hview0. f_equal.
    unfold registry_view. simpl. rewrite !lookup_fmap.
    destruct (_decompositions st0 !! registry_key op') as [r'|] eqn:Hk'; simpl;
      [|reflexivity].
    f_equal. unfold deref. simpl. rewrite lookup_insert_ne; [reflexivity|].
    intros ->. exact (Hnot _ Hk').
Qed.

(** C10.  The list [list_decomps] returns holds the registered rules, and it
    is a copy: after any mutation of it the registry is what it was, so
    [has_decomp] and the contents [list_decomps] returns are, for every
    operator, what they were before the call and before the mutation. *)
Theorem list_decomps_returns_copy (op_type : OpTypeArg) (st : Store)
  (f : list DecompositionRule -> list DecompositionRule) :
  wf st ->
  let r := (list_decomps op_type st).1 in
  let st1 := (list_decomps op_type st).2 in
  let st2 := list_mutate r f st1 in
  deref r st1 = registered op_type st
  /\ registry_view st2 = registry_view st1
  /\ _decompositions st2 = _decompositions st1
  /\ (forall op', has_decomp op' st2 = has_decomp op' st1
                  /\ has_decomp op' st1 = has_decomp op' st)
  /\ (forall op',
        deref (list_decomps op' st2).1 (list_decomps op' st2).2
        = deref (list_decomps op' st1).1 (list_decomps op' st1).2
        /\ deref (list_decomps op' st1).1 (list_decomps op' st1).2
           = registered op' st).
Proof.
  intros Hwf r st1 st2.
  destruct (list_decomps_spec op_type st Hwf) as (Hwf1 & Hnot & Hcopy & Hreg).
  fold r in Hnot, Hcopy. fold st1 in Hwf1, Hnot, Hcopy, Hreg.
  assert (Hview : registry_view st2 = registry_view st1)
    by (apply view_list_mutate; exact Hnot).
  assert (Hwf2 : wf st2) by (apply wf_list_mutate; exact Hwf1).
  assert (Hreg2 : forall op', registered op' st2 = registered op' st1).
  { intros op'. unfold registered. rewrite Hview. reflexivity. }
  split; [exact Hcopy|]. split; [exact Hview|]. split; [reflexivity|]. split.
  - intros op'. rewrite !has_decomp_view, Hreg2, Hreg. split; reflexivity.
  - intros op'.
    destruct (list_decomps_spec op' st2 Hwf2) as (_ & _ & Hc2 & _).
    destruct (list_decomps_spec op' st1 Hwf1) as (_ & _ & Hc1 & _).
    rewrite Hc2, Hc1, Hreg2, Hreg. split; reflexivity.
Qed.

(** Registration keeps the store well formed, so every store reached from
    the empty one by the functions of the registry is. *)
Lemma add_decomps_wf (op_type : OpTypeArg) (decomps : list DecompArg)
  (st st' : Store) :
  wf st -> add_decomps op_type decomps st = Ok st' -> wf st'.
Proof.
  intros Hwf. unfold add_decomps.
  destruct (negb (List.forallb is_rule decomps)); [discriminate|].
  pose proof (defaultdict_getitem_spec (registry_key op_type) st Hwf) as Hget.
  destruct (defaultdict_getitem (registry_key op_type) st) as [r0 st0].
  simpl in Hget. destruct Hget as (Hwf0 & _).
  intros [= <-]. apply wf_list_mutate. exact Hwf0.
Qed.

End WithEnv.

(** Modelled from the spec: [resource_rep] is not among the sources.  A bare
    type is its own representation; a type with declared resource keys given
    without parameters fails with a type error. *)
Definition bare_resource_rep (t : OpType) : Res CompressedResourceOp :=
  match ot_resource_keys t with
  | [] => Ok (mkCRO (ot_name t) [])
  | _ :: _ => Raise TypeError
  end.

(** Rules over integer arguments, with no renaming of operators. *)
Definition plain_env : Env := {|
  Args := list Z;
  Out := unit;
  resource_rep := bare_resource_rep;
  translate_op_alias := fun s => s
|}.

Definition Hadamard : OpType := mkOpType "Hadamard" true [].
Definition CZ : OpType := mkOpType "CZ" true [].

Definition no_op : list Z -> Res unit := fun _ => Ok tt.

(** C4 as stated fails: a key with count zero, here one that is already a
    compressed representation, is left out of the result. *)
Lemma static_resources_canonical_counterexample :
  ~ (forall (d : list (ResourceKey * Z)) (args : @Args plain_env),
        compute_resources
          (DecompositionRule_init (H := plain_env) no_op "" (ResDict d) None) args
        = (g <- translate_keys (H := plain_env) d ;; Ok (mkResources g))).
Proof.
  intros Hclaim.
  specialize (Hclaim [(KCompressed (mkCRO "Hadamard" []), 0)] []).
  vm_compute in Hclaim.
  injection Hclaim as Hmap.
  discriminate Hmap.
Qed.

(** The dictionary [{Hadamard: 2, CZ: 1}] of the rule for [CNOT], whatever
    the arguments. *)
Example cnot_resources (args : list Z) :
  compute_resources
    (register_resources (H := plain_env)
       (ResDict [(KType Hadamard, 2); (KType CZ, 1)])
       (QPlain (H := plain_env) no_op "def my_cnot"))
    args
  = Ok (mkResources
          (<[mkCRO "CZ" [] := 1]> (<[mkCRO "Hadamard" [] := 2]> ∅))).
Proof. vm_compute. reflexivity. Qed.

Definition h_to_cz : @DecompositionRule plain_env :=
  DecompositionRule_init (H := plain_env) no_op "def h_to_cz(wires): ..."
    (ResDict [(KType CZ, 1)]) None.

(** A registry with one rule for [Hadamard]. *)
Definition one_rule_store : @Store plain_env :=
  match add_decomps (H := plain_env) (ByType Hadamard) [ARule h_to_cz] empty_store with
  | Ok st => st
  | Raise _ => empty_store
  end.

Lemma one_rule_store_wf : wf one_rule_store.
Proof.
  apply (add_decomps_wf (H := plain_env) (ByType Hadamard) [ARule h_to_cz]
           empty_store one_rule_store wf_empty).
  reflexivity.
Qed.

(** C10 on the registry with one rule for [Hadamard], the list returned
    being cleared. *)
Lemma list_decomps_returns_copy_witness :
  let r := (list_decomps (H := plain_env) (ByType Hadamard) one_rule_store).1 in
  let st1 := (list_decomps (H := plain_env) (ByType Hadamard) one_rule_store).2 in
  let st2 := list_mutate r (fun _ => []) st1 in
  deref r st2 = []
  /\ has_decomp (ByType Hadamard) st2 = true
  /\ registry_view st2 = registry_view st1.
Proof.
  intros r st1 st2.
  destruct (list_decomps_returns_copy (H := plain_env) (ByType Hadamard)
              one_rule_store (fun _ => []) one_rule_store_wf)
    as (_ & Hview & _ & Hhas & _).
  split; [|split].
  - unfold deref, st2, list_mutate. simpl. rewrite lookup_insert_eq. reflexivity.
  - destruct (Hhas (ByType Hadamard)) as [H21 H10].
    fold r st1 st2 in H21, H10. rewrite H21, H10. reflexivity.
  - exact Hview.
Defined.

End DecompProofs.

(** ** The simulator *)

Module SimulateProofs.
Import Simulate.

Section WithBackend.
Context `{Backend}.

(** *** Weighted average of the branches *)

(** The sum of the terms in the order of the branches, starting from the
    integer zero the code starts from. *)
Definition sum_terms (first : Value) (terms : list Value) : Value :=
  List.fold_left add terms (add (of_int 0) first).

(** The branches of an expectation value or of a probability: outcome, shot
    count, value. *)
Definition Branches : Type := list (Z * (Z * Value)).

Definition as_measures (branches : Branches) : Measures :=
  List.map (fun e => (fst e, (fst (snd e), RTensor (snd (snd e))))) branches.

Definition shot_counts (branches : Branches) : list Z :=
  List.map (fun e => fst (snd e)) branches.

Definition weighted_values (branches : Branches) : list Value :=
  List.map (fun e => scale (fst (snd e)) (snd (snd e))) branches.

Definition Zsum (l : list Z) : Z := List.fold_right Z.add 0 l.

Lemma accumulate_tensors (branches : Branches) (cum : Value) (total : Z) :
  accumulate (Dict.values (as_measures branches)) (NTensor cum) total
  = Ok (NTensor (List.fold_left add (weighted_values branches) cum),
        total + Zsum (shot_counts branches)).
Proof.
  revert cum total.
  induction branches as [|[b [c v]] rest IH]; intros cum total; simpl.
  - f_equal. f_equal. unfold Zsum. simpl. lia.
  - unfold Dict.values in IH. rewrite IH. f_equal. f_equal.
    unfold Zsum. simpl. lia.
Qed.

Lemma weighted_mean_branches (b c : Z) (v : Value) (rest : Branches) :
  weighted_mean (as_measures ((b, (c, v)) :: rest))
  = Ok (RTensor (div_int (sum_terms (scale c v) (weighted_values rest))
                         (c + Zsum (shot_counts rest)))).
Proof.
  unfold weighted_mean. simpl.
  pose proof (accumulate_tensors rest (add (of_int 0) (scale c v)) (0 + c)) as Hacc.
  unfold Dict.values in *. rewrite Hacc. simpl.
  unfold sum_terms. reflexivity.
Qed.

(** C2.  For an expectation value and for a probability, the branches of a
    non-empty dictionary are combined into the sum over the branches of the
    shot count times the value, divided by the sum over the branches of the
    shot count. *)
Theorem combine_weighted_average
  (b c : Z) (v : Value) (rest : Branches)
  (obs : option Observable) (wires : list Wire) (mv : MV) :
  let branches := (b, (c, v)) :: rest in
  let average :=
    RTensor (div_int (sum_terms (scale c v) (weighted_values rest))
                     (Zsum (shot_counts branches))) in
  combine_measurements_core (mkMP ExpectationMP obs wires mv) (as_measures branches)
  = Ok average
  /\ combine_measurements_core (mkMP ProbabilityMP obs wires mv) (as_measures branches)
     = Ok average.
Proof.
  intros branches average.
  unfold combine_measurements_core. simpl mp_kind. cbv iota.
  unfold branches, average. rewrite weighted_mean_branches.
  split; reflexivity.
Qed.

(** An empty dictionary has no average: the division is of zero by zero. *)
Lemma combine_empty_dictionary (obs : option Observable) (wires : list Wire) (mv : MV) :
  combine_measurements_core (mkMP ExpectationMP obs wires mv) []
  = Raise ZeroDivisionError.
Proof. reflexivity. Qed.

(** *** Dispatch of [simulate] *)

Lemma has_mid_circuit_measurements_In (circuit : QuantumScript) :
  has_mid_circuit_measurements circuit = true
  <-> exists m, List.In (MidMeasure m) (operations circuit).
Proof.
  unfold has_mid_circuit_measurements. rewrite List.existsb_exists. split.
  - intros [[o|m] [Hin Hm]]; [discriminate|]. eauto.
  - intros [m Hin]. exists (MidMeasure m). split; [exact Hin|reflexivity].
Qed.

(** The result of the plain pipeline [get_final_state] then
    [measure_final_state]. *)
Definition plain_pipeline (circuit : QuantumScript) (interface : option string)
  (w : World) : Res (Result Value) * World :=
  let '(r, st) :=
    bindM (get_final_state circuit interface None None)
          (fun fs => measure_final_state (snd fs) (fst (fst fs)) (snd (fst fs)) None)
          (mkStore [] [] w []) in
  (r, world st).

(** C5.  With finite shots and a [MidMeasureMP] among its operations, a
    circuit is simulated by [simulate_tree_mcm]; every other circuit goes
    through [get_final_state] and [measure_final_state]. *)
Theorem simulate_dispatch (circuit : QuantumScript) (interface : option string)
  (state_cache : option (list (Z * State))) (w : World) :
  (Shots_bool (shots circuit) = true ->
   (exists m, List.In (MidMeasure m) (operations circuit)) ->
   simulate circuit interface state_cache w
   = (x <- fst (simulate_tree_mcm circuit interface w) ;; Ok (x, state_cache),
      snd (simulate_tree_mcm circuit interface w)))
  /\ (Shots_bool (shots circuit) = false
      \/ ~ (exists m, List.In (MidMeasure m) (operations circuit)) ->
      (x <- fst (simulate circuit interface state_cache w) ;; Ok (fst x),
       snd (simulate circuit interface state_cache w))
      = plain_pipeline circuit interface w).
Proof.
  split.
  - intros Hshots Hmcm. apply has_mid_circuit_measurements_In in Hmcm.
    unfold simulate. rewrite Hshots, Hmcm. simpl.
    destruct (simulate_tree_mcm circuit interface w). reflexivity.
  - intros Hother.
    assert (Hcond : Shots_bool (shots circuit)
                    && has_mid_circuit_measurements circuit = false).
    { destruct Hother as [Hs|Hm]; [rewrite Hs; reflexivity|].
      destruct (has_mid_circuit_measurements circuit) eqn:Hhas.
      - exfalso. apply Hm. apply has_mid_circuit_measurements_In. exact Hhas.
      - apply andb_false_r. }
    unfold simulate. rewrite Hcond.
    unfold plain_pipeline, simulate_final_state, bindM.
    destruct (get_final_state circuit interface None None (mkStore [] [] w []))
      as [[[[state batched] circuit']|e] st1]; simpl; [|reflexivity].
    destruct (measure_final_state circuit' state batched None st1) as [[r|e] st2];
      reflexivity.
Qed.


(** *** Results without valid shots *)

(** A single combined measurement is returned as it is, several as a
    tuple. *)
Definition pack (final_measurements : list (Result Value)) : Result Value :=
  match final_measurements with
  | [m] => m
  | _ => RTuple final_measurements
  end.

Lemma combine_loop_no_branch (circ_meass : list MeasurementProcess)
  (new_measurements : list Measures) (mcm_samples : SamplesDict) :
  new_measurements = [] \/ new_measurements = [[]] ->
  combine_loop circ_meass new_measurements true mcm_samples
  = Ok (List.map measurement_with_no_shots circ_meass).
Proof.
  revert new_measurements.
  induction circ_meass as [|m ms IH]; intros nm Hnm; [reflexivity|].
  simpl. rewrite andb_true_r.
  assert (Hsq : (if MPKind_eqb (mp_kind m) SampleMP
                 then squeeze_result (measurement_with_no_shots m)
                 else Ok (measurement_with_no_shots m))
                = Ok (measurement_with_no_shots m)).
  { unfold measurement_with_no_shots.
    destruct (mp_kind m); reflexivity. }
  destruct (mv_truthy (mp_mv m)); simpl.
  - rewrite Hsq. simpl. rewrite (IH nm Hnm). reflexivity.
  - destruct Hnm as [-> | ->]; simpl; rewrite Hsq; simpl;
      rewrite IH by (left; reflexivity); reflexivity.
Qed.

Lemma var_loop_no_shots (circ_meass : list MeasurementProcess) :
  var_loop circ_meass (List.map measurement_with_no_shots circ_meass)
  = Ok (List.map measurement_with_no_shots circ_meass).
Proof.
  induction circ_meass as [|m ms IH]; [reflexivity|].
  simpl. rewrite IH.
  assert (Hvar : (if negb (mv_truthy (mp_mv m)) && MPKind_eqb (mp_kind m) VarianceMP
                  then var_result (measurement_with_no_shots m)
                  else Ok (measurement_with_no_shots m))
                 = Ok (measurement_with_no_shots m)).
  { unfold measurement_with_no_shots.
    destruct (negb (mv_truthy (mp_mv m))); [|reflexivity].
    destruct (mp_kind m); reflexivity. }
  rewrite Hvar. reflexivity.
Qed.

(** When no branch was simulated and the recorded samples are empty, every
    measurement of the circuit is given its placeholder and nothing is
    raised. *)
Lemma combine_measurements_no_branch (circuit : QuantumScript)
  (k : MidMeasureMP) (others : SamplesDict) :
  List.forallb (fun m => Nat.eqb (List.length m) 0) (Dict.values others) = true ->
  combine_measurements circuit [] ((k, []) :: others)
  = Ok (pack (List.map measurement_with_no_shots (measurements circuit))).
Proof.
  intros Hempty. unfold combine_measurements. simpl.
  assert (Hany : List.existsb (fun m => negb (Nat.eqb (List.length m) 0))
                              (Dict.values others) = false).
  { clear -Hempty. induction (Dict.values others) as [|a l IH]; [reflexivity|].
    simpl in *. apply andb_prop in Hempty as [Ha Hl]. rewrite Ha, (IH Hl).
    reflexivity. }
  rewrite Hany. simpl.
  rewrite combine_loop_no_branch by (right; reflexivity). simpl.
  rewrite var_loop_no_shots. simpl.
  unfold pack. destruct (List.map measurement_with_no_shots (measurements circuit))
    as [|m [|m' l]]; reflexivity.
Qed.

(** C6, at the failing input.  One branch was simulated with [count] shots,
    all of them were rejected further down and the branch returned [nan];
    the recorded samples are empty.  For a counts measurement the
    combination raises [TypeError] instead of returning a placeholder, and
    for a sample measurement it raises [ValueError]. *)
Theorem combine_measurements_rejected_below
  (ops : list Operator) (s : Shots) (params : list nat)
  (obs : option Observable) (wires : list Wire)
  (branch count : Z) (k1 k2 : MidMeasureMP) :
  combine_measurements (mkQS ops [mkMP CountsMP obs wires MVNone] s params)
    [(branch, (count, RNaN))] [(k1, []); (k2, [])]
  = Raise TypeError
  /\ combine_measurements (mkQS ops [mkMP SampleMP obs wires MVNone] s params)
       [(branch, (count, RNaN))] [(k1, []); (k2, [])]
     = Raise ValueError.
Proof. split; reflexivity. Qed.

(** *** Collapse of a branch *)

(** C7.  Once the state is projected on the outcome, a norm below [1e-15]
    raises [ValueError]; otherwise the state is divided by its norm, and a
    [PauliX] is applied on the wire when the measurement resets and the
    outcome is one.  The error is not handled: the loop over the outcomes
    raises it as soon as it reaches the branch, the continuation is not
    simulated and no later outcome is looked at. *)
Theorem branch_collapse (op : MidMeasureMP) (state projected : State)
  (axis : Wire) (rest : list Wire) (branch : Z) (st : Store) :
  zero_slice state axis (int_not branch) = Ok projected ->
  let wire := axis :: rest in
  let norm := np_norm projected in
  branch_state op state wire branch st
  = (if float_ltb norm zero_norm_threshold then (Raise ValueError, st)
     else if reset op && (branch =? 1)
          then in_world (apply_operation (PauliX wire) (state_div projected norm)
                                         false None) st
          else (Ok (state_div projected norm), st))
  /\ (float_ltb norm zero_norm_threshold = true ->
      forall recurse circuit_base circuit_next counts m ms branches acc st0,
        measurements circuit_base = m :: ms ->
        wires_of_mp m = wire ->
        rejected op branch = false ->
        snd (set_active op branch st0) = st ->
        branch_loop recurse op circuit_base circuit_next counts state
                    (branch :: branches) acc st0
        = (Raise ValueError, st)).
Proof.
  intros Hproj wire norm.
  assert (Hstate :
    branch_state op state wire branch st
    = (if float_ltb norm zero_norm_threshold then (Raise ValueError, st)
       else if reset op && (branch =? 1)
            then in_world (apply_operation (PauliX wire) (state_div projected norm)
                                           false None) st
            else (Ok (state_div projected norm), st))).
  { unfold branch_state, bindM, lift, wire. simpl. rewrite Hproj. fold norm.
    destruct (float_ltb norm zero_norm_threshold); [reflexivity|].
    destruct (reset op && (branch =? 1)); reflexivity. }
  split; [exact Hstate|].
  intros Hsmall recurse circuit_base circuit_next counts m ms branches acc st0
         Hmeas Hwire Hrej Hset.
  simpl. rewrite Hrej.
  unfold bindM at 1. unfold set_active in *. unfold bindM, get_active, put_active in *.
  simpl in *. rewrite Hset.
  unfold branch_measurement, bindM, lift. rewrite Hmeas. simpl. rewrite Hwire.
  rewrite Hstate, Hsmall. reflexivity.
Qed.

(** *** Pruning of a rejected branch *)

(** The entries of [mcm_active] before [op]: the outcomes fixed on the path
    from the root to the node of [op]. *)
Fixpoint ancestors (op : MidMeasureMP) (items : ActiveDict) : ActiveDict :=
  match items with
  | [] => []
  | (k, v) :: items' =>
      if mcm_eqb k op then [] else (k, v) :: ancestors op items'
  end.

(** Sample [i] recorded for the measurement [fst kv] is the outcome
    [snd kv]. *)
Definition sample_is (mcm_samples : SamplesDict) (i : nat) (kv : MidMeasureMP * Z)
  : bool :=
  match Dict.get mcm_eqb (fst kv) mcm_samples with
  | Some arr => match List.nth_error arr i with
                | Some x => Z.eqb x (snd kv)
                | None => false
                end
  | None => false
  end.

(** The recorded history of sample [i] is that of the branch [branch] of
    [op]: outcome [branch] for [op], and the active outcome for every
    measurement before it. *)
Definition history_matches (op : MidMeasureMP) (branch : Z) (mcm_active : ActiveDict)
  (mcm_samples : SamplesDict) (i : nat) : bool :=
  sample_is mcm_samples i (op, branch)
  && List.forallb (sample_is mcm_samples i) (ancestors op mcm_active).

(** The elements of [arr] whose index, counted from [i], satisfies [p]. *)
Fixpoint keep_from {A : Type} (i : nat) (p : nat -> bool) (arr : list A) : list A :=
  match arr with
  | [] => []
  | x :: arr' => if p i then x :: keep_from (S i) p arr' else keep_from (S i) p arr'
  end.

Definition keep {A : Type} (p : nat -> bool) (arr : list A) : list A :=
  keep_from 0 p arr.

(** All arrays have [n] samples, [op] has samples, and so has every
    measurement before [op] in [mcm_active]. *)
Definition samples_aligned (op : MidMeasureMP) (mcm_active : ActiveDict)
  (mcm_samples : SamplesDict) (n : nat) : Prop :=
  List.Forall (fun kv => List.length (snd kv) = n) mcm_samples
  /\ Dict.mem mcm_eqb op mcm_samples = true
  /\ List.Forall (fun kv => Dict.mem mcm_eqb (fst kv) mcm_samples = true)
                 (ancestors op mcm_active).

Lemma get_length (k : MidMeasureMP) (S : SamplesDict) (arr : list Z) (n : nat) :
  List.Forall (fun kv => List.length (snd kv) = n) S ->
  Dict.get mcm_eqb k S = Some arr -> List.length arr = n.
Proof.
  induction S as [|[k' a] S IH]; simpl; intros Hall Hget; [discriminate|].
  pose proof (List.Forall_inv Hall) as Ha.
  pose proof (List.Forall_inv_tail Hall) as Hrest. simpl in Ha.
  destruct (mcm_eqb k' k).
  - injection Hget as <-. exact Ha.
  - apply IH; assumption.
Qed.

Lemma map_nth_error_seq {A B : Type} (g : A -> B) (d : B) (arr : list A) :
  List.map g arr
  = List.map (fun i => match List.nth_error arr i with
                       | Some x => g x
                       | None => d
                       end) (List.seq 0 (List.length arr)).
Proof.
  induction arr as [|x arr IH]; [reflexivity|].
  simpl. f_equal. rewrite <- List.seq_shift, List.map_map. exact IH.
Qed.

Lemma eq_scalar_tab (S : SamplesDict) (k : MidMeasureMP) (v : Z) (arr : list Z) :
  Dict.get mcm_eqb k S = Some arr ->
  Np.eq_scalar arr v
  = List.map (fun i => sample_is S i (k, v)) (List.seq 0 (List.length arr)).
Proof.
  intros Hget. unfold Np.eq_scalar.
  rewrite (map_nth_error_seq (fun x => x =? v) false arr).
  apply List.map_ext. intros i. unfold sample_is. simpl. rewrite Hget. reflexivity.
Qed.

Lemma combine_map_same {A B C : Type} (f : A -> B) (g : A -> C) (l : list A) :
  List.combine (List.map f l) (List.map g l) = List.map (fun i => (f i, g i)) l.
Proof. induction l as [|x l IH]; simpl; [reflexivity|]. rewrite IH. reflexivity. Qed.

Lemma logical_and_tab (f g : nat -> bool) (n : nat) :
  Np.logical_and (List.map f (List.seq 0 n)) (List.map g (List.seq 0 n))
  = Ok (List.map (fun i => f i && g i) (List.seq 0 n)).
Proof.
  unfold Np.logical_and. rewrite !List.length_map, Nat.eqb_refl.
  rewrite combine_map_same, List.map_map. reflexivity.
Qed.

(** The mask of the ancestors, as a table over the sample indices. *)
Lemma ancestors_mask_tab (op : MidMeasureMP) (S : SamplesDict) (n : nat)
  (A : ActiveDict) :
  List.Forall (fun kv => List.length (snd kv) = n) S ->
  List.Forall (fun kv => Dict.mem mcm_eqb (fst kv) S = true) (ancestors op A) ->
  forall f,
    ancestors_mask op A S (List.map f (List.seq 0 n))
    = Ok (List.map (fun i => f i && List.forallb (sample_is S i) (ancestors op A))
                   (List.seq 0 n)).
Proof.
  intros Hlen. induction A as [|[k v] A IH]; intros Hmem f; simpl.
  - f_equal. apply List.map_ext. intros i. rewrite andb_true_r. reflexivity.
  - simpl in Hmem. destruct (mcm_eqb k op).
    + f_equal. apply List.map_ext. intros i. simpl. rewrite andb_true_r. reflexivity.
    + pose proof (List.Forall_inv Hmem) as Hk.
      pose proof (List.Forall_inv_tail Hmem) as Hrest. simpl in Hk.
      unfold Dict.mem in Hk. unfold Dict.getitem.
      destruct (Dict.get mcm_eqb k S) as [arr|] eqn:Hget; [|discriminate].
      simpl. rewrite (eq_scalar_tab S k v arr Hget).
      rewrite (get_length k S arr n Hlen Hget).
      rewrite logical_and_tab. simpl.
      rewrite (IH Hrest). f_equal. apply List.map_ext. intros i. simpl.
      rewrite andb_assoc. reflexivity.
Qed.

Lemma select_tab {A : Type} (p : nat -> bool) (arr : list A) :
  forall s, Np.select arr (List.map p (List.seq s (List.length arr)))
            = keep_from s p arr.
Proof.
  induction arr as [|x arr IH]; intros s; [reflexivity|].
  simpl. rewrite IH. reflexivity.
Qed.

Lemma filter_entries_aligned (p : nat -> bool) (n : nat) (todo : SamplesDict) :
  List.Forall (fun kv => List.length (snd kv) = n) todo ->
  forall done,
    filter_entries (List.map p (List.seq 0 n)) todo done
    = (Ok tt, done ++ List.map (fun kv => (fst kv, keep p (snd kv))) todo).
Proof.
  induction todo as [|[k arr] todo IH]; intros Hlen done; simpl.
  - rewrite List.app_nil_r. reflexivity.
  - pose proof (List.Forall_inv Hlen) as Ha.
    pose proof (List.Forall_inv_tail Hlen) as Hrest. simpl in Ha.
    assert (Hsel : Np.select arr (List.map p (List.seq 0 n)) = keep p arr)
      by (rewrite <- Ha; apply select_tab).
    unfold Np.bool_index. rewrite List.length_map, List.length_seq, Ha, Nat.eqb_refl.
    rewrite Hsel, (IH Hrest), <- List.app_assoc. reflexivity.
Qed.

(** [prune_mcm_samples] on aligned samples: every array keeps exactly the
    samples whose history is not that of the rejected branch. *)
Lemma prune_removes_matching (op : MidMeasureMP) (branch : Z) (A : ActiveDict)
  (S : SamplesDict) (n : nat) :
  samples_aligned op A S n ->
  prune_mcm_samples_dicts op branch A S
  = (Ok tt,
     List.map (fun kv => (fst kv,
                          keep (fun i => negb (history_matches op branch A S i))
                               (snd kv))) S).
Proof.
  intros (Hlen & Hop & Hanc). unfold prune_mcm_samples_dicts.
  unfold Dict.mem in Hop. unfold Dict.getitem.
  destruct (Dict.get mcm_eqb op S) as [arr|] eqn:Hget; [|discriminate].
  simpl. rewrite (eq_scalar_tab S op branch arr Hget).
  rewrite (get_length op S arr n Hlen Hget).
  rewrite (ancestors_mask_tab op S n A Hlen Hanc).
  unfold Np.logical_not. rewrite List.map_map.
  rewrite (filter_entries_aligned _ n S Hlen). reflexivity.
Qed.

Lemma get_map_values (g : list Z -> list Z) (k : MidMeasureMP) (S : SamplesDict) :
  Dict.get mcm_eqb k (List.map (fun kv => (fst kv, g (snd kv))) S)
  = option_map g (Dict.get mcm_eqb k S).
Proof.
  induction S as [|[k' a] S IH]; simpl; [reflexivity|].
  destruct (mcm_eqb k' k); [reflexivity|exact IH].
Qed.

(** Sample [j] of a filtered array is the sample of the original array at
    the [j]-th index that was kept. *)
Lemma nth_error_keep_from {A : Type} (p : nat -> bool) (arr : list A) :
  forall s j,
    List.nth_error (keep_from s p arr) j
    = match List.nth_error (List.filter p (List.seq s (List.length arr))) j with
      | Some i => List.nth_error arr (i - s)
      | None => None
      end.
Proof.
  induction arr as [|x arr IH]; intros s j; simpl.
  - destruct j; reflexivity.
  - assert (Hshift : forall j',
      match List.nth_error (List.filter p (List.seq (S s) (List.length arr))) j' with
      | Some i => List.nth_error arr (i - S s)
      | None => None
      end
      = match List.nth_error (List.filter p (List.seq (S s) (List.length arr))) j' with
        | Some i => List.nth_error (x :: arr) (i - s)
        | None => None
        end).
    { intros j'.
      destruct (List.nth_error (List.filter p (List.seq (S s) (List.length arr))) j')
        as [i|] eqn:Hi; [|reflexivity].
      apply List.nth_error_In, List.filter_In in Hi. destruct Hi as [Hi _].
      apply List.in_seq in Hi.
      replace (i - s)%nat with (S (i - S s)) by lia. reflexivity. }
    destruct (p s).
    + destruct j as [|j]; simpl.
      * rewrite Nat.sub_diag. reflexivity.
      * rewrite IH. apply Hshift.
    + rewrite IH. apply Hshift.
Qed.

Lemma forallb_pointwise {A : Type} (f g : A -> bool) (l : list A) :
  (forall x, f x = g x) -> List.forallb f l = List.forallb g l.
Proof.
  intros Hfg. induction l as [|x l IH]; simpl; [reflexivity|].
  rewrite Hfg, IH. reflexivity.
Qed.

Lemma sample_is_pruned (p : nat -> bool) (S : SamplesDict) (n j : nat)
  (kv : MidMeasureMP * Z) :
  List.Forall (fun kv => List.length (snd kv) = n) S ->
  sample_is (List.map (fun kv => (fst kv, keep p (snd kv))) S) j kv
  = match List.nth_error (List.filter p (List.seq 0 n)) j with
    | Some i => sample_is S i kv
    | None => false
    end.
Proof.
  intros Hlen. unfold sample_is. rewrite get_map_values.
  destruct (Dict.get mcm_eqb (fst kv) S) as [arr|] eqn:Hget; simpl.
  - unfold keep. rewrite nth_error_keep_from.
    rewrite (get_length _ S arr n Hlen Hget).
    destruct (List.nth_error (List.filter p (List.seq 0 n)) j); [|reflexivity].
    rewrite Nat.sub_0_r. reflexivity.
  - destruct (List.nth_error (List.filter p (List.seq 0 n)) j); reflexivity.
Qed.

(** After the pruning no sample has the history of the rejected branch. *)
Lemma pruned_history_absent (op : MidMeasureMP) (branch : Z) (A : ActiveDict)
  (S : SamplesDict) (n : nat) :
  List.Forall (fun kv => List.length (snd kv) = n) S ->
  forall j,
    history_matches op branch A
      (List.map (fun kv => (fst kv,
                            keep (fun i => negb (history_matches op branch A S i))
                                 (snd kv))) S) j
    = false.
Proof.
  intros Hlen j. set (p := fun i => negb (history_matches op branch A S i)).
  unfold history_matches at 1.
  rewrite (sample_is_pruned p S n j (op, branch) Hlen).
  destruct (List.nth_error (List.filter p (List.seq 0 n)) j) as [i|] eqn:Hi;
    [|reflexivity].
  rewrite (forallb_pointwise _ (sample_is S i)).
  - apply List.nth_error_In, List.filter_In in Hi. destruct Hi as [_ Hp].
    unfold p in Hp. apply negb_true_iff in Hp. exact Hp.
  - intros kv. rewrite (sample_is_pruned p S n j kv Hlen), Hi. reflexivity.
Qed.

(** *** Computations that leave the dictionaries and the log alone *)

(** The part of the store the simulator owns. *)
Definition dicts (st : Store) : ActiveDict * SamplesDict * list Event :=
  (mcm_active st, mcm_samples st, log st).

Definition neutral {A : Type} (m : M A) : Prop :=
  forall st, dicts (snd (m st)) = dicts st.

Lemma neutral_ret {A : Type} (a : A) : neutral (ret a).
Proof. intros st. reflexivity. Qed.

Lemma neutral_raise {A : Type} (e : PyExc) : neutral (@raise _ A e).
Proof. intros st. reflexivity. Qed.

Lemma neutral_lift {A : Type} (r : Res A) : neutral (lift r).
Proof. intros st. reflexivity. Qed.

Lemma neutral_in_world {A : Type} (f : World -> Res A * World) : neutral (in_world f).
Proof. intros st. unfold in_world. destruct (f (world st)). reflexivity. Qed.

Lemma neutral_get_active : neutral get_active.
Proof. intros st. reflexivity. Qed.

Lemma neutral_get_samples : neutral get_samples.
Proof. intros st. reflexivity. Qed.

Lemma neutral_bind {A B : Type} (m : M A) (k : A -> M B) :
  neutral m -> (forall a, neutral (k a)) -> neutral (bindM m k).
Proof.
  intros Hm Hk st. unfold bindM. specialize (Hm st).
  destruct (m st) as [[a|e] st1]; simpl in *; [|exact Hm].
  rewrite (Hk a st1). exact Hm.
Qed.

Lemma neutral_for_each {A B : Type} (f : A -> M B) (l : list A) :
  (forall x, neutral (f x)) -> neutral (for_each f l).
Proof.
  intros Hf. induction l as [|x l IH]; simpl.
  - apply neutral_ret.
  - apply neutral_bind; [apply Hf|]. intros y.
    apply neutral_bind; [exact IH|]. intros ys. apply neutral_ret.
Qed.

(** Steps through binds, conditionals and matches down to the primitive
    computations. *)
Ltac neutrality :=
  repeat first
    [ apply neutral_ret
    | apply neutral_raise
    | apply neutral_lift
    | apply neutral_in_world
    | apply neutral_get_active
    | apply neutral_get_samples
    | apply neutral_for_each; intros
    | apply neutral_bind; [|intros]
    | match goal with
      | |- neutral (if ?b then _ else _) => destruct b
      | |- neutral (match ?x with _ => _ end) => destruct x
      end ].

Lemma neutral_postselection (state : State) (batched : bool) (s : Shots) :
  neutral (_postselection_postprocess state batched s).
Proof. unfold _postselection_postprocess. neutrality. Qed.

Lemma neutral_apply_operations (ops : list Operator) :
  forall state batched s mm, neutral (apply_operations ops state batched s mm).
Proof.
  induction ops as [|op ops IH]; intros state batched s mm; simpl.
  - neutrality.
  - apply neutral_bind; [neutrality|]. intros state'.
    apply neutral_bind.
    + destruct (is_Projector op); [apply neutral_postselection|neutrality].
    + intros [state'' s']. apply IH.
Qed.

Lemma neutral_get_final_state (circuit : QuantumScript) (interface : option string)
  (initial_state : option State) (mm : option ActiveDict) :
  neutral (get_final_state circuit interface initial_state mm).
Proof.
  unfold get_final_state.
  apply neutral_bind; [neutrality|]. intros state.
  apply neutral_bind; [apply neutral_apply_operations|].
  intros [[state' batched] s']. neutrality.
Qed.

Lemma neutral_measure_final_state (circuit : QuantumScript) (state : State)
  (batched : bool) (initial_state : option State) :
  neutral (measure_final_state circuit state batched initial_state).
Proof. unfold measure_final_state. neutrality. Qed.

Lemma neutral_branch_state (op : MidMeasureMP) (state : State) (wire : list Wire)
  (branch : Z) :
  neutral (branch_state op state wire branch).
Proof. unfold branch_state. neutrality. Qed.

(** *** Which branches are simulated *)

(** A recursion respects the postselection of its measurement. *)
Definition ok_event (e : Event) : Prop :=
  match e with
  | Recursed op branch => forall b, postselect op = Some b -> branch = b
  | Pruned _ _ _ _ _ => True
  end.

(** A computation only adds recursions that respect postselection. *)
Definition logs_ok {A : Type} (m : M A) : Prop :=
  forall st, exists new,
    log (snd (m st)) = log st ++ new /\ List.Forall ok_event new.

(** A computation that leaves the log as it is. *)
Definition silent {A : Type} (m : M A) : Prop :=
  forall st, log (snd (m st)) = log st.

Lemma silent_logs_ok {A : Type} (m : M A) : silent m -> logs_ok m.
Proof.
  intros Hm st. exists []. rewrite List.app_nil_r. split; [apply Hm|constructor].
Qed.

Lemma neutral_logs_ok {A : Type} (m : M A) : neutral m -> logs_ok m.
Proof.
  intros Hm. apply silent_logs_ok. intros st. specialize (Hm st).
  unfold dicts in Hm. congruence.
Qed.

Lemma logs_ok_put_active (a : ActiveDict) : logs_ok (put_active a).
Proof. apply silent_logs_ok. intros st. reflexivity. Qed.

Lemma logs_ok_set_active (op : MidMeasureMP) (branch : Z) :
  logs_ok (set_active op branch).
Proof. apply silent_logs_ok. intros st. reflexivity. Qed.

Lemma logs_ok_prune (op : MidMeasureMP) (branch : Z) :
  logs_ok (prune_mcm_samples op branch).
Proof.
  intros st. unfold prune_mcm_samples.
  destruct (prune_mcm_samples_dicts op branch (mcm_active st) (mcm_samples st))
    as [r s].
  eexists. split; [reflexivity|]. constructor; [exact I|constructor].
Qed.

Lemma logs_ok_update (op : MidMeasureMP) (samples : list Z) :
  logs_ok (update_mcm_samples op samples).
Proof.
  apply silent_logs_ok. intros st. unfold update_mcm_samples.
  destruct (update_mcm_samples_dicts op samples (mcm_active st) (mcm_samples st)).
  reflexivity.
Qed.

Lemma rejected_false (op : MidMeasureMP) (branch : Z) :
  rejected op branch = false <-> forall b, postselect op = Some b -> branch = b.
Proof.
  unfold rejected. destruct (postselect op) as [b|].
  - rewrite negb_false_iff, Z.eqb_eq. split.
    + intros -> b' [= <-]. reflexivity.
    + intros Hb. apply Hb. reflexivity.
  - split; [discriminate|reflexivity].
Qed.

Lemma logs_ok_recursed (op : MidMeasureMP) (branch : Z) :
  rejected op branch = false -> logs_ok (log_event (Recursed op branch)).
Proof.
  intros Hrej st. exists [Recursed op branch]. split; [reflexivity|].
  constructor; [|constructor]. exact (proj1 (rejected_false op branch) Hrej).
Qed.

Lemma logs_ok_bind {A B : Type} (m : M A) (k : A -> M B) :
  logs_ok m -> (forall a, logs_ok (k a)) -> logs_ok (bindM m k).
Proof.
  intros Hm Hk st. unfold bindM.
  destruct (Hm st) as (new1 & Hc1 & Hok1).
  destruct (m st) as [[a|e] st1]; simpl in *.
  - destruct (Hk a st1) as (new2 & Hc2 & Hok2).
    exists (new1 ++ new2). rewrite Hc2, Hc1, List.app_assoc.
    split; [reflexivity|]. apply List.Forall_app. split; assumption.
  - exists new1. split; assumption.
Qed.

Lemma logs_ok_with_new_dicts {A : Type} (m : M A) :
  logs_ok m -> logs_ok (with_new_dicts m).
Proof.
  intros Hm st. unfold with_new_dicts.
  destruct (Hm (mkStore [] [] (world st) (log st))) as (new & Hc & Hok).
  destruct (m (mkStore [] [] (world st) (log st))) as [r st']. simpl in *.
  exists new. split; assumption.
Qed.

Lemma logs_ok_for_each {A B : Type} (f : A -> M B) (l : list A) :
  (forall x, logs_ok (f x)) -> logs_ok (for_each f l).
Proof.
  intros Hf. induction l as [|x l IH]; simpl.
  - apply neutral_logs_ok, neutral_ret.
  - apply logs_ok_bind; [apply Hf|]. intros y.
    apply logs_ok_bind; [exact IH|]. intros ys. apply neutral_logs_ok, neutral_ret.
Qed.

Lemma logs_ok_branch_measurement
  (recurse : QuantumScript -> State -> M (Result Value))
  (op : MidMeasureMP) (circuit_base circuit_next : QuantumScript)
  (counts : list (Z * Z)) (state : State) (branch : Z) :
  (forall c s, logs_ok (recurse c s)) ->
  rejected op branch = false ->
  logs_ok (branch_measurement recurse op circuit_base circuit_next counts state branch).
Proof.
  intros Hrec Hrej. unfold branch_measurement.
  apply logs_ok_bind; [apply neutral_logs_ok, neutral_lift|]. intros m.
  apply logs_ok_bind; [apply neutral_logs_ok, neutral_branch_state|]. intros new_state.
  apply logs_ok_bind; [apply neutral_logs_ok, neutral_lift|]. intros n.
  apply logs_ok_bind; [apply logs_ok_recursed; exact Hrej|]. intros _.
  apply Hrec.
Qed.

Lemma logs_ok_branch_loop
  (recurse : QuantumScript -> State -> M (Result Value))
  (op : MidMeasureMP) (circuit_base circuit_next : QuantumScript)
  (counts : list (Z * Z)) (state : State) (branches : list Z) :
  (forall c s, logs_ok (recurse c s)) ->
  forall measurements,
    logs_ok (branch_loop recurse op circuit_base circuit_next counts state
                         branches measurements).
Proof.
  intros Hrec. induction branches as [|branch branches IH]; intros ms; simpl.
  - apply neutral_logs_ok, neutral_ret.
  - destruct (rejected op branch) eqn:Hrej.
    + apply logs_ok_bind; [apply logs_ok_prune|]. intros _. apply IH.
    + apply logs_ok_bind; [apply logs_ok_set_active|]. intros _.
      apply logs_ok_bind; [apply logs_ok_branch_measurement; assumption|].
      intros m. apply IH.
Qed.

(** Every call of [simulate_tree_mcm] logs only recursions that respect the
    postselection of their measurement, whatever the fuel and the store. *)
Lemma logs_ok_simulate_tree_mcm_rec (fuel : nat) :
  forall circuit interface initial_state,
    logs_ok (simulate_tree_mcm_rec fuel circuit interface initial_state).
Proof.
  induction fuel as [|fuel IH]; intros circuit interface initial_state; simpl.
  - apply neutral_logs_ok, neutral_raise.
  - destruct (has_partitioned_shots (shots circuit)).
    + apply logs_ok_bind; [|intros; apply neutral_logs_ok, neutral_ret].
      apply logs_ok_for_each. intros s. apply logs_ok_with_new_dicts. apply IH.
    + apply logs_ok_bind; [apply neutral_logs_ok, neutral_lift|].
      intros [[circuit_base circuit_next] op].
      apply logs_ok_bind; [apply neutral_logs_ok, neutral_lift|]. intros state0.
      apply logs_ok_bind; [apply neutral_logs_ok, neutral_get_active|]. intros active.
      apply logs_ok_bind; [apply neutral_logs_ok, neutral_get_final_state|].
      intros [[state batched] circuit_base'].
      apply logs_ok_bind; [apply neutral_logs_ok, neutral_measure_final_state|].
      intros measurements.
      destruct circuit_next as [circuit_next|];
        [|destruct op; apply neutral_logs_ok, neutral_ret].
      destruct op as [op|]; [|apply neutral_logs_ok, neutral_ret].
      apply logs_ok_bind; [apply neutral_logs_ok, neutral_lift|]. intros samples.
      apply logs_ok_bind; [apply logs_ok_update|]. intros _.
      apply logs_ok_bind.
      * apply logs_ok_branch_loop. intros c s. apply IH.
      * intros ms. apply logs_ok_bind; [apply neutral_logs_ok, neutral_get_samples|].
        intros S. apply neutral_logs_ok, neutral_lift.
Qed.

(** The step of the loop on a rejected outcome: the samples are pruned and
    the loop goes on to the next outcome, with nothing simulated and nothing
    appended to the measurements. *)
Lemma branch_loop_rejected
  (recurse : QuantumScript -> State -> M (Result Value))
  (op : MidMeasureMP) (circuit_base circuit_next : QuantumScript)
  (counts : list (Z * Z)) (state : State) (branch : Z) (branches : list Z)
  (measurements : list (Result Value)) :
  rejected op branch = true ->
  branch_loop recurse op circuit_base circuit_next counts state
              (branch :: branches) measurements
  = bindM (prune_mcm_samples op branch)
          (fun _ => branch_loop recurse op circuit_base circuit_next counts state
                                branches measurements).
Proof. intros Hrej. simpl. rewrite Hrej. reflexivity. Qed.

Lemma rejected_iff (op : MidMeasureMP) (branch : Z) :
  rejected op branch = true
  <-> exists b, postselect op = Some b /\ branch <> b.
Proof.
  unfold rejected. destruct (postselect op) as [b|].
  - rewrite negb_true_iff, Z.eqb_neq. split.
    + intros Hne. exists b. split; [reflexivity|exact Hne].
    + intros (b' & [= <-] & Hne). exact Hne.
  - split; [discriminate|]. intros (b & Hb & _). discriminate.
Qed.

(** *** The recorded samples stay aligned, and every pruning is exact *)

(** The pruning of the branch [branch] of [op] took [S] to [S']: every
    array kept exactly the samples whose history is not that of the branch,
    and no sample of [S'] has that history. *)
Definition exact_pruning (op : MidMeasureMP) (branch : Z) (A : ActiveDict)
  (S S' : SamplesDict) : Prop :=
  S' = List.map (fun kv => (fst kv,
                            keep (fun i => negb (history_matches op branch A S i))
                                 (snd kv))) S
  /\ forall j, history_matches op branch A S' j = false.

(** A recursion is into an outcome the postselection accepts; a pruning is
    of an outcome it rejects, and is exact. *)
Definition good_event (e : Event) : Prop :=
  match e with
  | Recursed op branch => rejected op branch = false
  | Pruned op branch active before after =>
      rejected op branch = true /\ exact_pruning op branch active before after
  end.

(** The invariant of the store: the arrays of [mcm_samples] have one length,
    every measurement of [mcm_active] has samples, and the events so far are
    good. *)
Definition Inv (st : Store) : Prop :=
  (exists n, List.Forall (fun kv => List.length (snd kv) = n) (mcm_samples st))
  /\ List.Forall (fun kv => Dict.mem mcm_eqb (fst kv) (mcm_samples st) = true)
                 (mcm_active st)
  /\ List.Forall good_event (log st).

(** On entry of a call: at the root both dictionaries are empty. *)
Definition Entry (st : Store) : Prop :=
  Inv st /\ (mcm_active st = [] -> mcm_samples st = []).

(** Inside the loop of [op]: its samples are recorded. *)
Definition Mid (op : MidMeasureMP) (st : Store) : Prop :=
  Inv st /\ Dict.mem mcm_eqb op (mcm_samples st) = true.

(** From [st] to [st'] no measurement lost its samples and [mcm_active] did
    not become empty. *)
Definition Grow (st st' : Store) : Prop :=
  (forall k, Dict.mem mcm_eqb k (mcm_samples st) = true ->
             Dict.mem mcm_eqb k (mcm_samples st') = true)
  /\ (mcm_active st <> [] -> mcm_active st' <> []).

Lemma dicts_eq (st st1 : Store) :
  dicts st1 = dicts st ->
  mcm_active st1 = mcm_active st /\ mcm_samples st1 = mcm_samples st
  /\ log st1 = log st.
Proof. unfold dicts. intros [= Ha Hs Hl]. auto. Qed.

Lemma Inv_dicts (st st1 : Store) : dicts st1 = dicts st -> Inv st -> Inv st1.
Proof.
  intros Hd. destruct (dicts_eq _ _ Hd) as (Ha & Hs & Hl).
  unfold Inv. rewrite Ha, Hs, Hl. auto.
Qed.

Lemma Entry_dicts (st st1 : Store) : dicts st1 = dicts st -> Entry st -> Entry st1.
Proof.
  intros Hd [Hinv Hroot]. split; [exact (Inv_dicts _ _ Hd Hinv)|].
  destruct (dicts_eq _ _ Hd) as (Ha & Hs & _). rewrite Ha, Hs. exact Hroot.
Qed.

Lemma Mid_dicts (op : MidMeasureMP) (st st1 : Store) :
  dicts st1 = dicts st -> Mid op st -> Mid op st1.
Proof.
  intros Hd [Hinv Hop]. split; [exact (Inv_dicts _ _ Hd Hinv)|].
  destruct (dicts_eq _ _ Hd) as (_ & Hs & _). rewrite Hs. exact Hop.
Qed.

Lemma Grow_refl (st : Store) : Grow st st.
Proof. split; auto. Qed.

Lemma Grow_trans (st1 st2 st3 : Store) : Grow st1 st2 -> Grow st2 st3 -> Grow st1 st3.
Proof. intros [H1 H1'] [H2 H2']. split; auto. Qed.

Lemma Grow_dicts (st st1 : Store) : dicts st1 = dicts st -> Grow st st1.
Proof.
  intros Hd. destruct (dicts_eq _ _ Hd) as (Ha & Hs & _).
  unfold Grow. rewrite Ha, Hs. auto.
Qed.

Lemma Mid_Grow (op : MidMeasureMP) (st st' : Store) :
  Mid op st -> Inv st' -> Grow st st' -> Mid op st'.
Proof. intros [_ Hop] Hinv [Hkeys _]. split; [exact Hinv|auto]. Qed.

(** The store after a bind, when the first computation is neutral. *)
Lemma post_bind_neutral {A B : Type} (m : M A) (k : A -> M B) (st : Store)
  (P : Store -> Prop) :
  neutral m ->
  (forall st1, dicts st1 = dicts st -> P st1) ->
  (forall a st1, dicts st1 = dicts st -> P (snd (k a st1))) ->
  P (snd (bindM m k st)).
Proof.
  intros Hm Hbase Hk. unfold bindM. specialize (Hm st).
  destruct (m st) as [[a|e] st1]; simpl in *; auto.
Qed.

(** The store after a bind, in general. *)
Lemma post_bind {A B : Type} (m : M A) (k : A -> M B) (st : Store)
  (P : Store -> Prop) :
  (forall e, fst (m st) = Raise e -> P (snd (m st))) ->
  (forall a, fst (m st) = Ok a -> P (snd (k a (snd (m st))))) ->
  P (snd (bindM m k st)).
Proof.
  intros Hraise Hok. unfold bindM.
  destruct (m st) as [[a|e] st1]; simpl in *; eauto.
Qed.

(** **** Dictionaries *)

Lemma mcm_eqb_refl (k : MidMeasureMP) : mcm_eqb k k = true.
Proof. unfold mcm_eqb. destruct (MidMeasureMP_eq_dec k k); congruence. Qed.

Lemma mcm_eqb_eq (a b : MidMeasureMP) : mcm_eqb a b = true -> a = b.
Proof. unfold mcm_eqb. destruct (MidMeasureMP_eq_dec a b); congruence. Qed.

Lemma mem_set_same {V : Type} (k : MidMeasureMP) (v : V) (d : list (MidMeasureMP * V)) :
  Dict.mem mcm_eqb k (Dict.set mcm_eqb k v d) = true.
Proof.
  unfold Dict.mem. induction d as [|[k' v'] d IH]; simpl.
  - rewrite mcm_eqb_refl. reflexivity.
  - destruct (mcm_eqb k' k) eqn:Hk; simpl; rewrite Hk; [reflexivity|exact IH].
Qed.

Lemma mem_set_grow {V : Type} (k k' : MidMeasureMP) (v : V)
  (d : list (MidMeasureMP * V)) :
  Dict.mem mcm_eqb k d = true -> Dict.mem mcm_eqb k (Dict.set mcm_eqb k' v d) = true.
Proof.
  unfold Dict.mem. induction d as [|[k0 v0] d IH]; simpl; [discriminate|].
  destruct (mcm_eqb k0 k') eqn:Hk'; simpl.
  - destruct (mcm_eqb k0 k); auto.
  - destruct (mcm_eqb k0 k); auto.
Qed.

Lemma lengths_set (k : MidMeasureMP) (v : list Z) (d : SamplesDict) (n : nat) :
  List.length v = n ->
  List.Forall (fun kv => List.length (snd kv) = n) d ->
  List.Forall (fun kv => List.length (snd kv) = n) (Dict.set mcm_eqb k v d).
Proof.
  intros Hv. induction d as [|[k' v'] d IH]; intros Hd; simpl.
  - constructor; [exact Hv|constructor].
  - pose proof (List.Forall_inv Hd) as Hhead.
    pose proof (List.Forall_inv_tail Hd) as Htail.
    destruct (mcm_eqb k' k); constructor; auto.
Qed.

Lemma active_set (op : MidMeasureMP) (branch : Z) (A : ActiveDict) (S : SamplesDict) :
  Dict.mem mcm_eqb op S = true ->
  List.Forall (fun kv => Dict.mem mcm_eqb (fst kv) S = true) A ->
  List.Forall (fun kv => Dict.mem mcm_eqb (fst kv) S = true)
              (Dict.set mcm_eqb op branch A).
Proof.
  intros Hop. induction A as [|[k v] A IH]; intros HA; simpl.
  - constructor; [exact Hop|constructor].
  - pose proof (List.Forall_inv HA) as Hhead.
    pose proof (List.Forall_inv_tail HA) as Htail.
    destruct (mcm_eqb k op); constructor; auto.
Qed.

Lemma set_not_nil {V : Type} (k : MidMeasureMP) (v : V) (d : list (MidMeasureMP * V)) :
  Dict.set mcm_eqb k v d <> [].
Proof. destruct d as [|[k' v'] d]; simpl; [|destruct (mcm_eqb k' k)]; discriminate. Qed.

Lemma active_grow (A : ActiveDict) (S S' : SamplesDict) :
  (forall k, Dict.mem mcm_eqb k S = true -> Dict.mem mcm_eqb k S' = true) ->
  List.Forall (fun kv => Dict.mem mcm_eqb (fst kv) S = true) A ->
  List.Forall (fun kv => Dict.mem mcm_eqb (fst kv) S' = true) A.
Proof.
  intros Hgrow HA. eapply List.Forall_impl; [|exact HA]. intros kv. apply Hgrow.
Qed.

Lemma mem_map_values (g : list Z -> list Z) (k : MidMeasureMP) (S : SamplesDict) :
  Dict.mem mcm_eqb k (List.map (fun kv => (fst kv, g (snd kv))) S)
  = Dict.mem mcm_eqb k S.
Proof.
  unfold Dict.mem. rewrite get_map_values.
  destruct (Dict.get mcm_eqb k S); reflexivity.
Qed.

Lemma ancestors_Forall (P : MidMeasureMP * Z -> Prop) (op : MidMeasureMP)
  (A : ActiveDict) :
  List.Forall P A -> List.Forall P (ancestors op A).
Proof.
  induction A as [|[k v] A IH]; intros HA; simpl; [constructor|].
  pose proof (List.Forall_inv HA) as Hhead.
  pose proof (List.Forall_inv_tail HA) as Htail.
  destruct (mcm_eqb k op); constructor; auto.
Qed.

Lemma keep_from_length {A : Type} (p : nat -> bool) (arr : list A) :
  forall s, List.length (keep_from s p arr)
            = List.length (List.filter p (List.seq s (List.length arr))).
Proof.
  induction arr as [|x arr IH]; intros s; simpl; [reflexivity|].
  destruct (p s); simpl; rewrite IH; reflexivity.
Qed.

Lemma scatter_length (a : list Z) :
  forall mask vals, List.length (Np.scatter a mask vals) = List.length a.
Proof.
  induction a as [|x a IH]; intros mask vals; simpl; [reflexivity|].
  destruct mask as [|m mask]; [reflexivity|].
  destruct m; [destruct vals|]; simpl; rewrite IH; reflexivity.
Qed.

Lemma masked_assign_length (a : list Z) (mask : list bool) (vals a' : list Z) :
  Np.masked_assign a mask vals = Ok a' -> List.length a' = List.length a.
Proof.
  unfold Np.masked_assign.
  destruct (negb (Nat.eqb (List.length a) (List.length mask))); [discriminate|].
  destruct (Nat.eqb (List.length vals) (Np.count_true mask)).
  - intros [= <-]. apply scatter_length.
  - destruct vals as [|v [|v' vals]]; try discriminate.
    intros [= <-]. apply scatter_length.
Qed.

Lemma get_In_length (k : MidMeasureMP) (S : SamplesDict) (arr : list Z) (n : nat) :
  List.Forall (fun kv => List.length (snd kv) = n) S ->
  Dict.getitem mcm_eqb k S = Ok arr -> List.length arr = n.
Proof.
  unfold Dict.getitem. intros Hlen.
  destruct (Dict.get mcm_eqb k S) as [a|] eqn:Hget; [|discriminate].
  intros [= <-]. exact (get_length k S a n Hlen Hget).
Qed.

(** **** The steps of a node *)

(** [update_mcm_samples] on entry of a call: the arrays stay aligned, and
    when it returns the samples of [op] are recorded. *)
Lemma update_keeps_aligned (op : MidMeasureMP) (samples : list Z) (st : Store) :
  Entry st ->
  Inv (snd (update_mcm_samples op samples st))
  /\ Grow st (snd (update_mcm_samples op samples st))
  /\ (fst (update_mcm_samples op samples st) = Ok tt ->
      Dict.mem mcm_eqb op (mcm_samples (snd (update_mcm_samples op samples st))) = true).
Proof.
  intros [(Hlen & Hact & Hev) Hroot].
  unfold update_mcm_samples, update_mcm_samples_dicts, Inv, Grow.
  destruct (mcm_active st) as [|a0 A].
  - rewrite (Hroot eq_refl). simpl.
    split; [|split].
    + split; [exists (List.length samples); repeat constructor|].
      split; [constructor|exact Hev].
    + split; [discriminate|congruence].
    + intros _. exact (mem_set_same op samples []).
  - destruct (mcm_samples st) as [|[k0 first] S0].
    + simpl. split; [|split; [|discriminate]]; auto.
    + destruct Hlen as [n Hlen].
      pose proof (List.Forall_inv Hlen) as Hfirst. simpl in Hfirst.
      destruct (ancestors_mask op (a0 :: A) ((k0, first) :: S0)
                  (Np.ones (List.length first))) as [mask|e].
      * set (S1 := if negb (Dict.mem mcm_eqb op ((k0, first) :: S0))
                   then Dict.set mcm_eqb op (np_empty (List.length first))
                                 ((k0, first) :: S0)
                   else (k0, first) :: S0).
        assert (Hlen1 : List.Forall (fun kv => List.length (snd kv) = n) S1).
        { unfold S1. destruct (negb (Dict.mem mcm_eqb op ((k0, first) :: S0)));
            [|exact Hlen].
          apply lengths_set; [|exact Hlen].
          unfold np_empty. rewrite List.length_map, List.length_seq. exact Hfirst. }
        assert (Hgrow1 : forall k, Dict.mem mcm_eqb k ((k0, first) :: S0) = true ->
                                   Dict.mem mcm_eqb k S1 = true).
        { intros k Hk. unfold S1.
          destruct (negb (Dict.mem mcm_eqb op ((k0, first) :: S0))); [|exact Hk].
          apply mem_set_grow. exact Hk. }
        assert (Hop1 : Dict.mem mcm_eqb op S1 = true).
        { unfold S1. destruct (Dict.mem mcm_eqb op ((k0, first) :: S0)) eqn:Hmem;
            simpl negb; cbv iota; [exact Hmem|apply mem_set_same]. }
        assert (Hact1 : List.Forall
                          (fun kv => Dict.mem mcm_eqb (fst kv) S1 = true) (a0 :: A))
          by (eapply active_grow; [exact Hgrow1|exact Hact]).
        destruct (Dict.getitem mcm_eqb op S1) as [arr|e] eqn:Hget.
        -- cbn [Py.bind].
           destruct (Np.masked_assign arr mask samples) as [arr'|e] eqn:Hassign.
           ++ cbn [fst snd mcm_samples mcm_active log].
              split; [|split].
              ** split; [|split; [|exact Hev]].
                 --- exists n. apply lengths_set; [|exact Hlen1].
                     rewrite (masked_assign_length _ _ _ _ Hassign).
                     exact (get_In_length op S1 arr n Hlen1 Hget).
                 --- eapply active_grow; [|exact Hact].
                     intros k Hk. apply mem_set_grow, Hgrow1. exact Hk.
              ** split; [|auto].
                 intros k Hk. apply mem_set_grow, Hgrow1. exact Hk.
              ** intros _. apply mem_set_same.
           ++ cbn [fst snd mcm_samples mcm_active log].
              split; [|split; [|discriminate]].
              ** split; [exists n; exact Hlen1|]. split; [exact Hact1|exact Hev].
              ** split; [exact Hgrow1|auto].
        -- cbn [Py.bind fst snd mcm_samples mcm_active log].
           split; [|split; [|discriminate]].
           ++ split; [exists n; exact Hlen1|]. split; [exact Hact1|exact Hev].
           ++ split; [exact Hgrow1|auto].
      * cbn [fst snd mcm_samples mcm_active log].
        split; [|split; [|discriminate]].
        -- split; [exists n; exact Hlen|auto].
        -- auto.
Qed.

(** [prune_mcm_samples] inside the loop of [op], on a rejected outcome: the
    pruning is exact, the arrays stay aligned, the keys stay. *)
Lemma prune_keeps_aligned (op : MidMeasureMP) (branch : Z) (st : Store) :
  rejected op branch = true ->
  Mid op st ->
  Mid op (snd (prune_mcm_samples op branch st))
  /\ Grow st (snd (prune_mcm_samples op branch st)).
Proof.
  intros Hrej [((n & Hlen) & Hact & Hev) Hop].
  assert (Haligned : samples_aligned op (mcm_active st) (mcm_samples st) n).
  { split; [exact Hlen|]. split; [exact Hop|].
    apply ancestors_Forall. exact Hact. }
  unfold prune_mcm_samples.
  rewrite (prune_removes_matching op branch _ _ n Haligned). simpl.
  set (p := fun i => negb (history_matches op branch (mcm_active st) (mcm_samples st) i)).
  assert (Hkeys : forall k,
    Dict.mem mcm_eqb k (List.map (fun kv => (fst kv, keep p (snd kv))) (mcm_samples st))
    = Dict.mem mcm_eqb k (mcm_samples st)) by (intros k; apply mem_map_values).
  split; [split; [split; [|split]|]|split].
  - exists (List.length (List.filter p (List.seq 0 n))). simpl.
    apply List.Forall_map. eapply List.Forall_impl; [|exact Hlen].
    intros [k arr] Harr. simpl in *. unfold keep.
    rewrite keep_from_length, Harr. reflexivity.
  - simpl. eapply active_grow; [|exact Hact]. intros k Hk. rewrite Hkeys. exact Hk.
  - simpl. apply List.Forall_app. split; [exact Hev|].
    constructor; [|constructor]. split; [exact Hrej|]. split; [reflexivity|].
    apply (pruned_history_absent op branch _ _ n Hlen).
  - simpl. rewrite Hkeys. exact Hop.
  - simpl. intros k Hk. rewrite Hkeys. exact Hk.
  - simpl. auto.
Qed.

(** [mcm_active[op] = branch] inside the loop of [op]. *)
Lemma set_active_keeps_aligned (op : MidMeasureMP) (branch : Z) (st : Store) :
  Mid op st ->
  fst (set_active op branch st) = Ok tt
  /\ Mid op (snd (set_active op branch st))
  /\ Entry (snd (set_active op branch st))
  /\ Grow st (snd (set_active op branch st)).
Proof.
  intros [(Hlen & Hact & Hev) Hop].
  assert (Hinv : Inv (snd (set_active op branch st))).
  { unfold Inv. simpl. split; [exact Hlen|]. split; [|exact Hev].
    apply active_set; assumption. }
  split; [reflexivity|]. split; [split; [exact Hinv|exact Hop]|]. split.
  - split; [exact Hinv|]. simpl. intros Hnil.
    exfalso. exact (set_not_nil _ _ _ Hnil).
  - split; simpl; [auto|]. intros _. apply set_not_nil.
Qed.

(** What a call of the simulator guarantees from an entry store. *)
Definition tree_spec {A : Type} (m : M A) : Prop :=
  forall st, Entry st -> Inv (snd (m st)) /\ Grow st (snd (m st)).

Lemma branch_measurement_keeps_aligned
  (recurse : QuantumScript -> State -> M (Result Value))
  (op : MidMeasureMP) (circuit_base circuit_next : QuantumScript)
  (counts : list (Z * Z)) (state : State) (branch : Z) (st : Store) :
  (forall c s, tree_spec (recurse c s)) ->
  rejected op branch = false ->
  Mid op st -> Entry st ->
  let st' := snd (branch_measurement recurse op circuit_base circuit_next counts
                                     state branch st) in
  Mid op st' /\ Grow st st'.
Proof.
  intros Hrec Hrej Hmid Hentry. cbv zeta.
  set (P := fun st' => Mid op st' /\ Grow st st').
  assert (Hbase : forall st1, dicts st1 = dicts st -> P st1).
  { intros st1 Hd. split; [exact (Mid_dicts _ _ _ Hd Hmid)|exact (Grow_dicts _ _ Hd)]. }
  change (P (snd (branch_measurement recurse op circuit_base circuit_next counts
                                     state branch st))).
  unfold branch_measurement.
  apply post_bind_neutral; [apply neutral_lift|exact Hbase|]. intros m st1 Hd1.
  apply post_bind_neutral; [apply neutral_branch_state| |].
  { intros st2 Hd2. apply Hbase. congruence. }
  intros new_state st2 Hd2.
  apply post_bind_neutral; [apply neutral_lift| |].
  { intros st3 Hd3. apply Hbase. congruence. }
  intros n st3 Hd3.
  assert (Hd : dicts st3 = dicts st) by congruence.
  destruct (dicts_eq _ _ Hd) as (Ha & Hs & Hl).
  unfold bindM, log_event. simpl.
  set (st4 := mkStore (mcm_active st3) (mcm_samples st3) (world st3)
                      (log st3 ++ [Recursed op branch])).
  assert (Hentry4 : Entry st4).
  { destruct Hentry as [(Hlen & Hact & Hev) Hroot].
    split; [|simpl; rewrite Ha, Hs; exact Hroot].
    unfold Inv. simpl. rewrite Ha, Hs, Hl. split; [exact Hlen|]. split; [exact Hact|].
    apply List.Forall_app. split; [exact Hev|]. constructor; [exact Hrej|constructor]. }
  assert (Hgrow4 : Grow st st4).
  { unfold Grow. simpl. rewrite Ha, Hs. auto. }
  destruct (Hrec (set_shots circuit_next (Shots_of_int (Z.to_nat n))) new_state
              st4 Hentry4) as [Hinv5 Hgrow5].
  split.
  - apply (Mid_Grow op st); [exact Hmid|exact Hinv5|].
    exact (Grow_trans _ _ _ Hgrow4 Hgrow5).
  - exact (Grow_trans _ _ _ Hgrow4 Hgrow5).
Qed.

Lemma branch_loop_keeps_aligned
  (recurse : QuantumScript -> State -> M (Result Value))
  (op : MidMeasureMP) (circuit_base circuit_next : QuantumScript)
  (counts : list (Z * Z)) (state : State) (branches : list Z) :
  (forall c s, tree_spec (recurse c s)) ->
  forall measurements st,
    Mid op st ->
    let st' := snd (branch_loop recurse op circuit_base circuit_next counts state
                                branches measurements st) in
    Mid op st' /\ Grow st st'.
Proof.
  intros Hrec. induction branches as [|branch branches IH]; intros ms st Hmid;
    cbv zeta; simpl.
  - split; [exact Hmid|apply Grow_refl].
  - destruct (rejected op branch) eqn:Hrej.
    + destruct (prune_keeps_aligned op branch st Hrej Hmid) as [Hmid1 Hgrow1].
      apply (post_bind (prune_mcm_samples op branch)).
      * intros e _. split; assumption.
      * intros [] _. destruct (IH ms _ Hmid1) as [Hmid2 Hgrow2].
        split; [exact Hmid2|exact (Grow_trans _ _ _ Hgrow1 Hgrow2)].
    + destruct (set_active_keeps_aligned op branch st Hmid)
        as (_ & Hmid1 & Hentry1 & Hgrow1).
      apply (post_bind (set_active op branch)).
      * intros e _. split; assumption.
      * intros [] _.
        destruct (branch_measurement_keeps_aligned recurse op circuit_base
                    circuit_next counts state branch _ Hrec Hrej Hmid1 Hentry1)
          as [Hmid2 Hgrow2].
        apply (post_bind (branch_measurement recurse op circuit_base circuit_next
                                             counts state branch)).
        -- intros e _. split; [exact Hmid2|exact (Grow_trans _ _ _ Hgrow1 Hgrow2)].
        -- intros m _. destruct (IH (ms ++ [m]) _ Hmid2) as [Hmid3 Hgrow3].
           split; [exact Hmid3|].
           exact (Grow_trans _ _ _ Hgrow1 (Grow_trans _ _ _ Hgrow2 Hgrow3)).
Qed.

(** A call that starts on new dictionaries gives the caller's back, with
    good events only. *)
Definition Fixed (st st' : Store) : Prop :=
  mcm_active st' = mcm_active st /\ mcm_samples st' = mcm_samples st
  /\ List.Forall good_event (log st').

Lemma Fixed_Inv (st st' : Store) : Inv st -> Fixed st st' -> Inv st' /\ Grow st st'.
Proof.
  intros (Hlen & Hact & _) (Ha & Hs & Hev).
  unfold Inv, Grow. rewrite Ha, Hs. auto.
Qed.

Lemma with_new_dicts_fixed {A : Type} (m : M A) (st : Store) :
  tree_spec m -> Inv st -> Fixed st (snd (with_new_dicts m st)).
Proof.
  intros Hm (_ & _ & Hev). unfold with_new_dicts.
  assert (Hentry : Entry (mkStore [] [] (world st) (log st))).
  { split; [|reflexivity]. unfold Inv. simpl.
    split; [exists 0%nat; constructor|]. split; [constructor|exact Hev]. }
  destruct (Hm _ Hentry) as [(_ & _ & Hev') _].
  destruct (m (mkStore [] [] (world st) (log st))) as [r st']. simpl in *.
  repeat split; assumption.
Qed.

Lemma for_each_fixed {A B : Type} (f : A -> M B) (l : list A) :
  (forall x st, Inv st -> Fixed st (snd (f x st))) ->
  forall st, Inv st -> Fixed st (snd (for_each f l st)).
Proof.
  intros Hf. induction l as [|x l IH]; intros st Hinv; simpl.
  - destruct Hinv as (_ & _ & Hev). repeat split; exact Hev.
  - pose proof (Hf x st Hinv) as Hfix1.
    destruct (Fixed_Inv _ _ Hinv Hfix1) as [Hinv1 _].
    apply (post_bind (f x)); [intros e _; exact Hfix1|]. intros y _.
    pose proof (IH _ Hinv1) as Hfix2.
    assert (Hfix : Fixed st (snd (for_each f l (snd (f x st))))).
    { destruct Hfix1 as (Ha1 & Hs1 & _). destruct Hfix2 as (Ha2 & Hs2 & Hev2).
      repeat split; congruence. }
    apply (post_bind (for_each f l)); [intros e _; exact Hfix|].
    intros ys _. exact Hfix.
Qed.

(** From an entry store, every call of [simulate_tree_mcm] keeps the samples
    aligned and logs good events only. *)
Lemma simulate_tree_mcm_rec_spec (fuel : nat) :
  forall circuit interface initial_state,
    tree_spec (simulate_tree_mcm_rec fuel circuit interface initial_state).
Proof.
  induction fuel as [|fuel IH]; intros circuit interface initial_state st Hentry.
  - simpl. split; [exact (proj1 Hentry)|apply Grow_refl].
  - simpl. destruct (has_partitioned_shots (shots circuit)).
    + set (f := fun s => with_new_dicts
                           (simulate_tree_mcm_rec fuel
                              (set_shots circuit (Shots_of_int s)) interface None)).
      assert (Hfix : Fixed st (snd (for_each f (Shots_iter (shots circuit)) st))).
      { apply for_each_fixed; [|exact (proj1 Hentry)].
        intros s st0 Hinv0. apply with_new_dicts_fixed; [apply IH|exact Hinv0]. }
      apply (post_bind (for_each f (Shots_iter (shots circuit))) _ st
               (fun st' => Inv st' /\ Grow st st')).
      * intros e _. exact (Fixed_Inv _ _ (proj1 Hentry) Hfix).
      * intros results _. exact (Fixed_Inv _ _ (proj1 Hentry) Hfix).
    + set (P := fun st' => Inv st' /\ Grow st st').
      assert (Hbase : forall st1, dicts st1 = dicts st -> P st1).
      { intros st1 Hd. split; [exact (Inv_dicts _ _ Hd (proj1 Hentry))|].
        exact (Grow_dicts _ _ Hd). }
      match goal with |- Inv (snd ?x) /\ _ => change (P (snd x)) end.
      apply post_bind_neutral; [apply neutral_lift|exact Hbase|].
      intros [[circuit_base circuit_next] op] st1 Hd1.
      apply post_bind_neutral; [apply neutral_lift| |].
      { intros st2 Hd2. apply Hbase. congruence. }
      intros state0 st2 Hd2.
      apply post_bind_neutral; [apply neutral_get_active| |].
      { intros st3 Hd3. apply Hbase. congruence. }
      intros active st3 Hd3.
      apply post_bind_neutral; [apply neutral_get_final_state| |].
      { intros st4 Hd4. apply Hbase. congruence. }
      intros [[state batched] circuit_base'] st4 Hd4.
      apply post_bind_neutral; [apply neutral_measure_final_state| |].
      { intros st5 Hd5. apply Hbase. congruence. }
      intros measurements st5 Hd5.
      assert (Hd : dicts st5 = dicts st) by congruence.
      destruct circuit_next as [circuit_next|];
        [|destruct op; apply Hbase; exact Hd].
      destruct op as [op|]; [|apply Hbase; exact Hd].
      apply post_bind_neutral; [apply neutral_lift| |].
      { intros st6 Hd6. apply Hbase. congruence. }
      intros samples st6 Hd6.
      assert (Hd' : dicts st6 = dicts st) by congruence.
      pose proof (Entry_dicts _ _ Hd' Hentry) as Hentry6.
      destruct (update_keeps_aligned op samples st6 Hentry6)
        as (Hinv7 & Hgrow7 & Hop7).
      pose proof (Grow_trans _ _ _ (Grow_dicts _ _ Hd') Hgrow7) as Hgrow07.
      apply (post_bind (update_mcm_samples op samples)).
      * intros e _. split; assumption.
      * intros [] Hok.
        assert (Hmid7 : Mid op (snd (update_mcm_samples op samples st6)))
          by (split; [exact Hinv7|exact (Hop7 Hok)]).
        destruct (branch_loop_keeps_aligned
                    (fun c s => simulate_tree_mcm_rec fuel c interface (Some s))
                    op circuit_base' circuit_next (samples_to_counts samples) state
                    (Dict.keys (samples_to_counts samples))
                    (fun c s => IH c interface (Some s)) [] _ Hmid7)
          as [Hmid8 Hgrow8].
        pose proof (Grow_trans _ _ _ Hgrow07 Hgrow8) as Hgrow08.
        apply (post_bind (branch_loop _ op circuit_base' circuit_next
                            (samples_to_counts samples) state
                            (Dict.keys (samples_to_counts samples)) [])).
        -- intros e _. split; [exact (proj1 Hmid8)|exact Hgrow08].
        -- intros ms _.
           apply post_bind_neutral; [apply neutral_get_samples| |].
           { intros st9 Hd9. split; [exact (Inv_dicts _ _ Hd9 (proj1 Hmid8))|].
             exact (Grow_trans _ _ _ Hgrow08 (Grow_dicts _ _ Hd9)). }
           intros S9 st9 Hd9.
           split; [exact (Inv_dicts _ _ Hd9 (proj1 Hmid8))|].
           exact (Grow_trans _ _ _ Hgrow08 (Grow_dicts _ _ Hd9)).
Qed.

(** In a run of [simulate_tree_mcm] every event is good: the recursions are
    into accepted outcomes, and the prunings are of rejected outcomes and
    exact. *)
Lemma events_good (circuit : QuantumScript) (interface : option string) (w : World) :
  List.Forall good_event (events circuit interface w).
Proof.
  unfold events, simulate_tree_mcm_in.
  assert (Hentry : Entry (mkStore [] [] w [])).
  { split; [|reflexivity]. unfold Inv. simpl.
    split; [exists 0%nat; constructor|]. split; constructor. }
  destruct (simulate_tree_mcm_rec_spec (enough_fuel circuit) circuit interface None
              _ Hentry) as [(_ & _ & Hev) _].
  exact Hev.
Qed.

(** C1.  In a run of [simulate_tree_mcm], every branch recursed into is one
    the postselection of its measurement accepts, and every pruning is of a
    rejected outcome and exact; so for a measurement with postselection [b]
    no outcome other than [b] is ever recursed into.  The same holds of the
    recursions of any call, from any store.  In the loop over the outcomes a
    rejected outcome is not simulated: [prune_mcm_samples] runs and the loop
    moves on.  On recorded samples of equal lengths the pruning keeps, in
    every array of [mcm_samples], exactly the samples whose history is not
    that of the rejected branch, and afterwards no sample has that history. *)
Theorem postselection_pruning
  (op : MidMeasureMP) (b branch : Z) (mcm_active : ActiveDict)
  (mcm_samples : SamplesDict) (n : nat) :
  postselect op = Some b ->
  branch <> b ->
  samples_aligned op mcm_active mcm_samples n ->
  (forall circuit interface w,
      List.Forall good_event (events circuit interface w)
      /\ ~ List.In (op, branch) (simulated_branches circuit interface w))
  /\ (forall fuel circuit interface initial_state st,
        exists new,
          log (snd (simulate_tree_mcm_rec fuel circuit interface initial_state st))
          = log st ++ new
          /\ List.Forall ok_event new)
  /\ (forall recurse circuit_base circuit_next counts state branches measurements,
        branch_loop recurse op circuit_base circuit_next counts state
                    (branch :: branches) measurements
        = bindM (prune_mcm_samples op branch)
                (fun _ => branch_loop recurse op circuit_base circuit_next counts
                                      state branches measurements))
  /\ let pruned :=
       List.map (fun kv =>
                   (fst kv,
                    keep (fun i => negb (history_matches op branch mcm_active
                                                         mcm_samples i))
                         (snd kv))) mcm_samples in
     prune_mcm_samples_dicts op branch mcm_active mcm_samples = (Ok tt, pruned)
     /\ forall j, history_matches op branch mcm_active pruned j = false.
Proof.
  intros Hpost Hne Haligned.
  assert (Hrej : rejected op branch = true)
    by (apply rejected_iff; exists b; split; assumption).
  split; [|split; [|split; [|split]]].
  - intros circuit interface w.
    pose proof (events_good circuit interface w) as Hgood.
    split; [exact Hgood|].
    unfold simulated_branches. rewrite List.in_flat_map.
    intros (e & He & Hin). rewrite List.Forall_forall in Hgood.
    specialize (Hgood e He).
    destruct e as [op' branch'|]; simpl in Hin; [|contradiction].
    destruct Hin as [[= -> ->]|[]]. simpl in Hgood. congruence.
  - intros fuel circuit interface initial_state st.
    apply logs_ok_simulate_tree_mcm_rec.
  - intros. apply branch_loop_rejected. exact Hrej.
  - apply (prune_removes_matching op branch mcm_active mcm_samples n Haligned).
  - apply (pruned_history_absent op branch mcm_active mcm_samples n).
    exact (proj1 Haligned).
Qed.

(** *** The fuel of the model is enough *)

(** The depth of the calls a circuit needs: one per operation left, one for
    the leaf, one more for a shot vector. *)
Definition depth (circuit : QuantumScript) : nat :=
  (List.length (operations circuit)
   + if has_partitioned_shots (shots circuit) then 2 else 1)%nat.

Lemma bindM_ext {A B : Type} (m1 m2 : M A) (k1 k2 : A -> M B) (st : Store) :
  m1 st = m2 st ->
  (forall a st', k1 a st' = k2 a st') ->
  bindM m1 k1 st = bindM m2 k2 st.
Proof.
  intros Hm Hk. unfold bindM. rewrite Hm.
  destruct (m2 st) as [[a|e] st']; [apply Hk|reflexivity].
Qed.

Lemma bindM_lift_ok {A B : Type} (a : A) (k : A -> M B) (st : Store) :
  bindM (lift (Ok a)) k st = k a st.
Proof. reflexivity. Qed.

Lemma bindM_lift_raise {A B : Type} (e : PyExc) (k : A -> M B) (st : Store) :
  bindM (lift (Raise e)) k st = (Raise e, st).
Proof. reflexivity. Qed.

Lemma for_each_ext {A B : Type} (f g : A -> M B) (l : list A) :
  (forall x st, f x st = g x st) ->
  forall st, for_each f l st = for_each g l st.
Proof.
  intros Hfg. induction l as [|x l IH]; intros st; [reflexivity|].
  simpl. apply bindM_ext; [apply Hfg|]. intros y st'.
  apply bindM_ext; [apply IH|]. reflexivity.
Qed.

Lemma with_new_dicts_ext {A : Type} (m1 m2 : M A) (st : Store) :
  (forall st', m1 st' = m2 st') -> with_new_dicts m1 st = with_new_dicts m2 st.
Proof. intros Hm. unfold with_new_dicts. rewrite Hm. reflexivity. Qed.

Lemma branch_loop_ext
  (r1 r2 : QuantumScript -> State -> M (Result Value))
  (op : MidMeasureMP) (circuit_base circuit_next : QuantumScript)
  (counts : list (Z * Z)) (state : State) (branches : list Z) :
  (forall n s st, r1 (set_shots circuit_next (Shots_of_int n)) s st
                  = r2 (set_shots circuit_next (Shots_of_int n)) s st) ->
  forall measurements st,
    branch_loop r1 op circuit_base circuit_next counts state branches measurements st
    = branch_loop r2 op circuit_base circuit_next counts state branches measurements st.
Proof.
  intros Hr. induction branches as [|branch branches IH]; intros ms st; simpl;
    [reflexivity|].
  destruct (rejected op branch).
  - apply bindM_ext; [reflexivity|]. intros _ st'. apply IH.
  - apply bindM_ext; [reflexivity|]. intros _ st1.
    apply bindM_ext; [|intros m st'; apply IH].
    unfold branch_measurement.
    apply bindM_ext; [reflexivity|]. intros m0 st2.
    apply bindM_ext; [reflexivity|]. intros new_state st3.
    apply bindM_ext; [reflexivity|]. intros n st4.
    apply bindM_ext; [reflexivity|]. intros _ st5. apply Hr.
Qed.

Lemma continuation_shorter (circuit circuit_base circuit_next : QuantumScript)
  (op : option MidMeasureMP) :
  circuit_up_to_first_mcm circuit = Ok (circuit_base, Some circuit_next, op) ->
  (List.length (operations circuit_next) < List.length (operations circuit))%nat.
Proof.
  unfold circuit_up_to_first_mcm, has_mid_circuit_measurements.
  destruct (List.existsb is_MidMeasureMP (operations circuit)) eqn:Hhas; simpl;
    [|discriminate].
  destruct (find_next_mcm circuit) as [i [m|]]; [|discriminate].
  intros [= _ <- _]. simpl. rewrite List.length_skipn.
  destruct (operations circuit) as [|o ops]; [discriminate|]. simpl. lia.
Qed.

(** Any two amounts of fuel that cover the depth of the circuit give the
    same run. *)
Lemma fuel_stable (fuel1 : nat) :
  forall fuel2 circuit interface initial_state st,
    (depth circuit <= fuel1)%nat ->
    (depth circuit <= fuel2)%nat ->
    simulate_tree_mcm_rec fuel1 circuit interface initial_state st
    = simulate_tree_mcm_rec fuel2 circuit interface initial_state st.
Proof.
  induction fuel1 as [|fuel1 IH];
    intros [|fuel2] circuit interface initial_state st H1 H2;
    try (unfold depth in *; destruct (has_partitioned_shots (shots circuit)); lia).
  simpl. unfold depth in H1, H2.
  destruct (has_partitioned_shots (shots circuit)) eqn:Hpart.
  - apply bindM_ext; [|reflexivity].
    apply for_each_ext. intros s st'. apply with_new_dicts_ext. intros st''.
    apply IH; unfold depth; simpl; lia.
  - destruct (circuit_up_to_first_mcm circuit) as [[[circuit_base circuit_next] op]|e]
      eqn:Hsplit; [|reflexivity].
    rewrite !bindM_lift_ok. cbv beta iota.
    apply bindM_ext; [reflexivity|]. intros state0 st1.
    apply bindM_ext; [reflexivity|]. intros active st2.
    apply bindM_ext; [reflexivity|]. intros [[state batched] circuit_base'] st3.
    cbv beta iota.
    apply bindM_ext; [reflexivity|]. intros measurements st4.
    destruct circuit_next as [circuit_next|]; [|reflexivity].
    destruct op as [op|]; [|reflexivity].
    apply bindM_ext; [reflexivity|]. intros samples st5.
    apply bindM_ext; [reflexivity|]. intros _ st6.
    apply bindM_ext; [|reflexivity].
    pose proof (continuation_shorter _ _ _ _ Hsplit) as Hshort.
    apply branch_loop_ext. intros n s st7.
    apply IH; unfold depth; simpl; lia.
Qed.

(** The fuel [simulate_tree_mcm] starts with covers the depth: more fuel
    changes nothing, so the model never stops for want of fuel. *)
Lemma enough_fuel_is_enough (fuel : nat) (circuit : QuantumScript)
  (interface : option string) (initial_state : option State) (st : Store) :
  (enough_fuel circuit <= fuel)%nat ->
  simulate_tree_mcm_rec fuel circuit interface initial_state st
  = simulate_tree_mcm_rec (enough_fuel circuit) circuit interface initial_state st.
Proof.
  intros Hfuel. apply fuel_stable; unfold depth, enough_fuel in *;
    destruct (has_partitioned_shots (shots circuit)); lia.
Qed.

End WithBackend.

(** C6 end to end: two shots, both with outcome 0 on the first measurement
    and outcome 0 on the second, which postselects 1.  With a counts
    measurement the simulation raises; with an expectation value it returns
    [nan]. *)
Lemma simulate_tree_mcm_rejected_below :
  simulate_tree_mcm (H := Instances.exact_backend)
    (Instances.tape_nested Instances.counts_w0) None
    [Instances.sampled [0; 0]; Instances.sampled [0; 0]]
  = (Raise TypeError, [])
  /\ simulate_tree_mcm (H := Instances.exact_backend)
       (Instances.tape_nested Instances.expval_Z0) None
       [Instances.sampled [0; 0]; Instances.sampled [0; 0]]
     = (Ok RNaN, []).
Proof. split; vm_compute; reflexivity. Qed.

(** C7 on the exact backend: the state [|0>] collapsed on outcome 1 has norm
    zero; the state [3/5 |0> + 4/5 |1>] collapsed on outcome 1 with a reset is
    normalized and flipped to [|0>]. *)
Lemma branch_collapse_witness :
  branch_state (H := Instances.exact_backend) Instances.m0 [1%Q; 0%Q] [0%nat] 1
    (Instances.fresh_store [])
  = (Raise ValueError, Instances.fresh_store [])
  /\ branch_state (H := Instances.exact_backend) Instances.m0_reset
       [3 # 5; 4 # 5]%Q [0%nat] 1 (Instances.fresh_store [])
     = (Ok [1%Q; 0%Q], Instances.fresh_store [])
  /\ fst (branch_loop (H := Instances.exact_backend)
            (fun _ _ => ret (RTensor (Instances.TReal 1))) Instances.m0
            (mkQS [] [sample_wires [0%nat]] (Finite [2%nat]) [])
            (mkQS [] [Instances.expval_Z0] (Finite [2%nat]) [])
            [(1, 2)] [1%Q; 0%Q] [1; 0] [] (Instances.fresh_store []))
     = Raise ValueError.
Proof.
  split; [|split].
  - apply (proj1 (branch_collapse (H := Instances.exact_backend) Instances.m0
                    [1%Q; 0%Q] [0%Q; 0%Q] 0%nat [] 1 (Instances.fresh_store [])
                    eq_refl)).
  - apply (proj1 (branch_collapse (H := Instances.exact_backend) Instances.m0_reset
                    [3 # 5; 4 # 5]%Q [0%Q; 4 # 5]%Q 0%nat [] 1
                    (Instances.fresh_store []) eq_refl)).
  - rewrite (proj2 (branch_collapse (H := Instances.exact_backend) Instances.m0
                      [1%Q; 0%Q] [0%Q; 0%Q] 0%nat [] 1
                      (snd (set_active (H := Instances.exact_backend) Instances.m0 1
                              (Instances.fresh_store [])))
                      eq_refl)
               eq_refl
               (fun _ _ => ret (RTensor (Instances.TReal 1)))
               (mkQS [] [sample_wires [0%nat]] (Finite [2%nat]) [])
               (mkQS [] [Instances.expval_Z0] (Finite [2%nat]) [])
               [(1, 2)] (sample_wires [0%nat]) [] [0] []
               (Instances.fresh_store [])
               eq_refl eq_refl eq_refl eq_refl).
    reflexivity.
Defined.

(** C7 end to end: a sampled outcome 1 on the state [|0>] makes the whole
    simulation raise. *)
Example simulate_tree_mcm_zero_norm :
  simulate_tree_mcm (H := Instances.exact_backend) Instances.tape_zero None
    [Instances.sampled [0; 1];
     RTuple [RTensor (Instances.TReal 1)]; RTuple [RTensor (Instances.TReal 1)]]
  = (Raise ValueError, [RTuple [RTensor (Instances.TReal 1)]]).
Proof. vm_compute. reflexivity. Qed.

(** C5 on the exact backend: four shots and a mid-circuit measurement go to
    the tree, the same circuit without shots goes to the plain pipeline. *)
Lemma simulate_dispatch_witness :
  simulate (H := Instances.exact_backend) Instances.tape_post1 None None
    [Instances.sampled [0; 1; 1; 0]; RTuple [RTensor (Instances.TReal (-1))]]
  = (Ok (RTensor (Instances.TReal (-1)), None), [])
  /\ (x <- fst (simulate (H := Instances.exact_backend)
                  (set_shots Instances.tape_post1 Analytic) None None []) ;;
      Ok (fst x),
      snd (simulate (H := Instances.exact_backend)
             (set_shots Instances.tape_post1 Analytic) None None []))
     = plain_pipeline (H := Instances.exact_backend)
         (set_shots Instances.tape_post1 Analytic) None [].
Proof.
  split.
  - rewrite (proj1 (simulate_dispatch (H := Instances.exact_backend)
                      Instances.tape_post1 None None
                      [Instances.sampled [0; 1; 1; 0];
                       RTuple [RTensor (Instances.TReal (-1))]])
               eq_refl
               (ex_intro _ Instances.m0_post1 (or_intror (or_introl eq_refl)))).
    vm_compute. reflexivity.
  - apply (proj2 (simulate_dispatch (H := Instances.exact_backend)
                    (set_shots Instances.tape_post1 Analytic) None None [])).
    left. reflexivity.
Defined.

(** C1 on recorded samples of four shots: the first measurement is active
    with outcome 0 and the second postselects 1.  Pruning outcome 0 of the
    second removes the one sample with history (0, 0) from both arrays; and
    in a run of the nested circuit that branch is not among the simulated
    ones. *)
Lemma postselection_pruning_witness :
  prune_mcm_samples_dicts Instances.m1_post1 0 [(Instances.m0, 0)]
    [(Instances.m0, [0; 1; 0; 1]); (Instances.m1_post1, [0; 7; 1; 7])]
  = (Ok tt, [(Instances.m0, [1; 0; 1]); (Instances.m1_post1, [7; 1; 7])])
  /\ ~ List.In (Instances.m1_post1, 0)
         (simulated_branches (H := Instances.exact_backend)
            (Instances.tape_nested Instances.expval_Z0) None
            [Instances.sampled [0; 1]; Instances.sampled [1];
             RTuple [RTensor (Instances.TReal (1 # 2))]; Instances.sampled [0]]).
Proof.
  assert (Hne : (0 <> 1)%Z) by discriminate.
  assert (Haligned : samples_aligned Instances.m1_post1 [(Instances.m0, 0)]
                       [(Instances.m0, [0; 1; 0; 1]);
                        (Instances.m1_post1, [0; 7; 1; 7])] 4).
  { unfold samples_aligned. repeat split; repeat constructor. }
  destruct (postselection_pruning (H := Instances.exact_backend)
              Instances.m1_post1 1 0 [(Instances.m0, 0)]
              [(Instances.m0, [0; 1; 0; 1]); (Instances.m1_post1, [0; 7; 1; 7])]
              4%nat eq_refl Hne Haligned)
    as (Hruns & _ & _ & Hprune & _).
  split; [exact Hprune | exact (proj2 (Hruns _ _ _))].
Defined.

(** The run of the witness: outcome 0 of the first measurement, then
    outcome 1 of the second, then outcome 1 of the first, whose only shot is
    rejected by the second measurement and pruned from both arrays. *)
Example events_nested :
  events (H := Instances.exact_backend)
    (Instances.tape_nested Instances.expval_Z0) None
    [Instances.sampled [0; 1]; Instances.sampled [1];
     RTuple [RTensor (Instances.TReal (1 # 2))]; Instances.sampled [0]]
  = [Recursed Instances.m0 0;
     Recursed Instances.m1_post1 1;
     Recursed Instances.m0 1;
     Pruned Instances.m1_post1 0
       [(Instances.m0, 1); (Instances.m1_post1, 1)]
       [(Instances.m0, [0; 1]); (Instances.m1_post1, [1; 0])]
       [(Instances.m0, [0]); (Instances.m1_post1, [1])]].
Proof. vm_compute. reflexivity. Qed.

(** The weighted average on the exact backend: 1 shot at 1/2 and 3 shots at
    1/4 give 5/16. *)
Example combine_weighted_average_exact :
  combine_measurements_core (H := Instances.exact_backend) Instances.expval_Z0
    [(0, (1, RTensor (Instances.TReal (1 # 2))));
     (1, (3, RTensor (Instances.TReal (1 # 4))))]
  = Ok (RTensor (Instances.TReal (5 # 16))).
Proof. vm_compute. reflexivity. Qed.

End SimulateProofs.

(** ** More of the simulator *)

Module SimulateProps.
Import SimulateProofs.

(** *** Counting the samples *)

(** How often [x] occurs among the samples. *)
Definition occurrences (x : Z) (samples : list Z) : Z :=
  Z.of_nat (List.count_occ Z.eq_dec samples x).

Definition keys_increasing (counts : list (Z * Z)) : Prop :=
  StronglySorted Z.lt (Dict.keys counts).

Lemma keys_above (x : Z) (counts : list (Z * Z)) :
  List.Forall (Z.lt x) (Dict.keys counts) -> Dict.get Z.eqb x counts = None.
Proof.
  induction counts as [|[y c] counts IH]; simpl; intros Hall; [reflexivity|].
  pose proof (List.Forall_inv Hall) as Hy. simpl in Hy.
  destruct (Z.eqb_spec y x); [lia|]. apply IH. exact (List.Forall_inv_tail Hall).
Qed.

Lemma count_insert_keys (x : Z) (counts : list (Z * Z)) (P : Z -> Prop) :
  P x -> List.Forall P (Dict.keys counts) ->
  List.Forall P (Dict.keys (Np.count_insert x counts)).
Proof.
  intros Hx. induction counts as [|[y c] counts IH]; simpl; intros Hall.
  - constructor; [exact Hx|constructor].
  - destruct (Z.eqb_spec x y); [exact Hall|].
    destruct (x <? y); simpl.
    + constructor; [exact Hx|exact Hall].
    + constructor; [exact (List.Forall_inv Hall)|].
      apply IH. exact (List.Forall_inv_tail Hall).
Qed.

Lemma count_insert_increasing (x : Z) (counts : list (Z * Z)) :
  keys_increasing counts -> keys_increasing (Np.count_insert x counts).
Proof.
  unfold keys_increasing.
  induction counts as [|[y c] counts IH]; simpl; intros Hs.
  - repeat constructor.
  - apply StronglySorted_inv in Hs. destruct Hs as [Hs Hy].
    destruct (Z.eqb_spec x y) as [->|Hne]; simpl.
    + constructor; assumption.
    + destruct (Z.ltb_spec x y); simpl.
      * constructor; [constructor; assumption|].
        constructor; [assumption|].
        eapply List.Forall_impl; [|exact Hy]. intros z Hz. simpl in Hz. lia.
      * constructor; [apply IH; exact Hs|].
        apply (count_insert_keys x counts (Z.lt y)); [lia|exact Hy].
Qed.

Lemma count_insert_get (x z : Z) (counts : list (Z * Z)) :
  keys_increasing counts ->
  Dict.get Z.eqb z (Np.count_insert x counts)
  = if Z.eqb x z then Some (default 0 (Dict.get Z.eqb z counts) + 1)
    else Dict.get Z.eqb z counts.
Proof.
  unfold keys_increasing.
  induction counts as [|[y c] counts IH]; simpl; intros Hs.
  - destruct (Z.eqb_spec x z); reflexivity.
  - apply StronglySorted_inv in Hs. destruct Hs as [Hs Hy].
    destruct (Z.eqb_spec x y) as [->|Hne]; simpl.
    + destruct (Z.eqb_spec y z); reflexivity.
    + destruct (Z.ltb_spec x y); simpl.
      * destruct (Z.eqb_spec x z) as [->|Hxz]; [|reflexivity].
        destruct (Z.eqb_spec y z); [lia|].
        rewrite keys_above; [reflexivity|].
        eapply List.Forall_impl; [|exact Hy]. intros w Hw. simpl in Hw. lia.
      * destruct (Z.eqb_spec y z) as [->|Hyz].
        -- destruct (Z.eqb_spec x z); [lia|reflexivity].
        -- apply IH. exact Hs.
Qed.

Lemma count_insert_total (x : Z) (counts : list (Z * Z)) :
  Zsum (Dict.values (Np.count_insert x counts)) = Zsum (Dict.values counts) + 1.
Proof.
  unfold Zsum, Dict.values.
  induction counts as [|[y c] counts IH]; simpl; [reflexivity|].
  destruct (x =? y); simpl; [lia|].
  destruct (x <? y); simpl; [lia|]. rewrite IH. lia.
Qed.

Lemma fold_count_insert (samples : list Z) :
  forall counts,
    keys_increasing counts ->
    let counts' := List.fold_left (fun counts x => Np.count_insert x counts)
                                  samples counts in
    keys_increasing counts'
    /\ (forall z, Dict.get Z.eqb z counts'
                  = if occurrences z samples =? 0 then Dict.get Z.eqb z counts
                    else Some (default 0 (Dict.get Z.eqb z counts)
                               + occurrences z samples))
    /\ Zsum (Dict.values counts')
       = Zsum (Dict.values counts) + Z.of_nat (List.length samples).
Proof.
  unfold occurrences.
  induction samples as [|x samples IH]; intros counts Hs; simpl.
  - repeat split; [exact Hs|lia].
  - pose proof (count_insert_increasing x counts Hs) as Hs1.
    destruct (IH _ Hs1) as (Hs' & Hget & Htot). repeat split.
    + exact Hs'.
    + intros z. rewrite Hget, (count_insert_get x z counts Hs).
      destruct (Z.eq_dec x z) as [->|Hne].
      * rewrite Z.eqb_refl. simpl.
        destruct (Z.eqb_spec (Z.of_nat (count_occ Z.eq_dec samples z)) 0) as [H0|H0];
          destruct (Z.eqb_spec (Z.of_nat (S (count_occ Z.eq_dec samples z))) 0);
          try lia; f_equal; lia.
      * destruct (Z.eqb_spec x z); [contradiction|]. reflexivity.
    + rewrite Htot, count_insert_total. lia.
Qed.

Section WithBackend.
Context `{Simulate.Backend}.
Import Simulate.

(** X1.  The counts of the outcomes: the keys are the distinct samples in
    increasing order, each with the number of times it occurs, so that the
    counts are positive and add up to the number of samples. *)
Theorem samples_to_counts_counts (samples : list Z) :
  let counts := samples_to_counts samples in
  keys_increasing counts
  /\ (forall z, Dict.get Z.eqb z counts
                = if occurrences z samples =? 0 then None
                  else Some (occurrences z samples))
  /\ Zsum (Dict.values counts) = Z.of_nat (List.length samples).
Proof.
  intros counts.
  destruct (fold_count_insert samples [] (SSorted_nil _)) as (Hs & Hget & Htot).
  repeat split; [exact Hs| |exact Htot].
  intros z. unfold counts, samples_to_counts. rewrite Hget. simpl.
  destruct (occurrences z samples =? 0); reflexivity.
Qed.

(** *** The cut at the first mid-circuit measurement *)

Lemma find_next_mcm_from_first (ops : list Operator) :
  List.existsb is_MidMeasureMP ops = true ->
  forall i, exists pre op post,
    ops = pre ++ MidMeasure op :: post
    /\ List.existsb is_MidMeasureMP pre = false
    /\ find_next_mcm_from i ops = ((i + List.length pre)%nat, Some op).
Proof.
  induction ops as [|[o|m] ops IH]; simpl; intros Hhas i; [discriminate| |].
  - destruct (IH Hhas (S i)) as (pre & op & post & -> & Hpre & Hfind).
    exists (Op o :: pre), op, post. simpl.
    repeat split; [exact Hpre|]. rewrite Hfind. f_equal. lia.
  - exists [], m, ops. simpl. repeat split. f_equal. lia.
Qed.

(** The measurements of the continuation hold no measurement value and no
    variance. *)
Lemma next_measurements_plain (ms : list MeasurementProcess) :
  List.Forall (fun m => mv_truthy (mp_mv m) = false /\ mp_kind m <> VarianceMP)
              (next_measurements ms).
Proof.
  induction ms as [|m ms IH]; simpl; [constructor|].
  destruct (mv_truthy (mp_mv m)) eqn:Hmv; simpl; [exact IH|].
  constructor; [|exact IH].
  unfold MPKind_eqb. destruct (MPKind_eq_dec (mp_kind m) VarianceMP) as [Hk|Hk].
  - split; [reflexivity|discriminate].
  - split; [exact Hmv|exact Hk].
Qed.

(** X2.  A circuit without mid-circuit measurement is returned as it is, with no
    continuation.  Any other circuit is cut at its first mid-circuit
    measurement [op]: the operations are those of the base, then [op], then
    those of the continuation; the base holds no mid-circuit measurement and
    measures one sample of [op]; the continuation measures what the circuit
    measures without measurement values, a variance as samples; both keep
    the shots.  Nothing is raised. *)
Theorem circuit_up_to_first_mcm_cut (circuit : QuantumScript) :
  match circuit_up_to_first_mcm circuit with
  | Ok (circuit_base, None, None) =>
      has_mid_circuit_measurements circuit = false /\ circuit_base = circuit
  | Ok (circuit_base, Some circuit_next, Some op) =>
      operations circuit
      = operations circuit_base ++ MidMeasure op :: operations circuit_next
      /\ has_mid_circuit_measurements circuit_base = false
      /\ measurements circuit_base
         = [match mcm_obs op with
            | None => sample_wires (mcm_wires op)
            | Some o => sample_obs o
            end]
      /\ measurements circuit_next = next_measurements (measurements circuit)
      /\ List.Forall (fun m => mv_truthy (mp_mv m) = false
                               /\ mp_kind m <> VarianceMP)
                     (measurements circuit_next)
      /\ shots circuit_base = shots circuit
      /\ shots circuit_next = shots circuit
  | _ => False
  end.
Proof.
  unfold circuit_up_to_first_mcm, has_mid_circuit_measurements.
  destruct (List.existsb is_MidMeasureMP (operations circuit)) eqn:Hhas; simpl;
    [|split; reflexivity].
  destruct (find_next_mcm_from_first _ Hhas 0%nat)
    as (pre & op & post & Hops & Hpre & Hfind).
  unfold find_next_mcm. rewrite Hfind. simpl. rewrite Hops.
  assert (Hfirst : List.firstn (List.length pre) (pre ++ MidMeasure op :: post) = pre).
  { rewrite List.firstn_app, Nat.sub_diag, List.firstn_all. simpl.
    apply List.app_nil_r. }
  assert (Hskip : List.skipn (List.length pre + 1) (pre ++ MidMeasure op :: post) = post).
  { rewrite List.skipn_app, List.skipn_all2 by lia.
    replace (List.length pre + 1 - List.length pre)%nat with 1%nat by lia.
    reflexivity. }
  rewrite Hfirst, Hskip.
  repeat split; try reflexivity; [exact Hpre|apply next_measurements_plain].
Qed.

(** *** Recording the samples of a measurement *)

Lemma scatter_select (a : list Z) :
  forall mask vals,
    List.length a = List.length mask ->
    List.length vals = Np.count_true mask ->
    Np.select (Np.scatter a mask vals) mask = vals.
Proof.
  unfold Np.count_true.
  induction a as [|x a IH]; intros [|m mask] vals Hlen Hvals; simpl in *;
    try discriminate.
  - destruct vals; [reflexivity|discriminate].
  - destruct m; simpl in *.
    + destruct vals as [|v vals]; [discriminate|]. simpl. f_equal.
      apply IH; [lia|]. simpl in Hvals. lia.
    + apply IH; [lia|exact Hvals].
Qed.

Lemma scatter_select_others (a : list Z) :
  forall mask vals,
    Np.select (Np.scatter a mask vals) (Np.logical_not mask)
    = Np.select a (Np.logical_not mask).
Proof.
  induction a as [|x a IH]; intros [|m mask] vals; simpl; try reflexivity.
  destruct m; simpl.
  - destruct vals as [|v vals]; simpl; apply IH.
  - f_equal. apply IH.
Qed.

Lemma count_true_tab (p : nat -> bool) (s n : nat) :
  Np.count_true (List.map p (List.seq s n))
  = List.length (List.filter p (List.seq s n)).
Proof.
  unfold Np.count_true. revert s.
  induction n as [|n IH]; intros s; simpl; [reflexivity|].
  destruct (p s); simpl; rewrite IH; reflexivity.
Qed.

Lemma get_set_same {V : Type} (k : MidMeasureMP) (v : V) (d : list (MidMeasureMP * V)) :
  Dict.get mcm_eqb k (Dict.set mcm_eqb k v d) = Some v.
Proof.
  induction d as [|[k' v'] d IH]; simpl.
  - rewrite mcm_eqb_refl. reflexivity.
  - destruct (mcm_eqb k' k) eqn:Hk; simpl; rewrite Hk; [reflexivity|exact IH].
Qed.

Lemma get_set_other {V : Type} (k k' : MidMeasureMP) (v : V)
  (d : list (MidMeasureMP * V)) :
  k' <> k ->
  Dict.get mcm_eqb k' (Dict.set mcm_eqb k v d) = Dict.get mcm_eqb k' d.
Proof.
  intros Hne. induction d as [|[k0 v0] d IH]; simpl.
  - destruct (mcm_eqb k k') eqn:Hk; [|reflexivity].
    apply mcm_eqb_eq in Hk. congruence.
  - destruct (mcm_eqb k0 k) eqn:Hk; simpl.
    + apply mcm_eqb_eq in Hk. subst k0.
      destruct (mcm_eqb k k') eqn:Hk'; [|reflexivity].
      apply mcm_eqb_eq in Hk'. congruence.
    + destruct (mcm_eqb k0 k'); [reflexivity|exact IH].
Qed.

(** The samples whose history is the active one: the outcome of every
    measurement before [op] in [mcm_active] is the active outcome. *)
Definition on_path (op : MidMeasureMP) (mcm_active : ActiveDict)
  (mcm_samples : SamplesDict) (i : nat) : bool :=
  List.forallb (sample_is mcm_samples i) (ancestors op mcm_active).

(** X3.  Recording and reading back.  At the root the samples become the array
    of [op].  Below the root, on arrays of [n] samples in which every
    measurement before [op] has samples, as many new samples as there are
    samples on the active path are written at those positions, in order:
    reading the array of [op] at the positions of the path gives the new
    samples back, the other positions hold what they held (what [np.empty]
    left when [op] had no array), and the arrays of the other measurements
    are untouched. *)
Theorem update_mcm_samples_read_back (op : MidMeasureMP) (samples : list Z)
  (mcm_active : ActiveDict) (mcm_samples : SamplesDict) (n : nat) :
  (mcm_active = [] ->
   update_mcm_samples_dicts op samples mcm_active mcm_samples
   = (Ok tt, Dict.set mcm_eqb op samples mcm_samples))
  /\ (mcm_active <> [] ->
      mcm_samples <> [] ->
      List.Forall (fun kv => List.length (snd kv) = n) mcm_samples ->
      List.Forall (fun kv => Dict.mem mcm_eqb (fst kv) mcm_samples = true)
                  (ancestors op mcm_active) ->
      List.length samples
      = List.length (List.filter (on_path op mcm_active mcm_samples) (List.seq 0 n)) ->
      exists updated arr,
        update_mcm_samples_dicts op samples mcm_active mcm_samples = (Ok tt, updated)
        /\ Dict.get mcm_eqb op updated = Some arr
        /\ List.length arr = n
        /\ keep (on_path op mcm_active mcm_samples) arr = samples
        /\ keep (fun i => negb (on_path op mcm_active mcm_samples i)) arr
           = keep (fun i => negb (on_path op mcm_active mcm_samples i))
                  (match Dict.get mcm_eqb op mcm_samples with
                   | Some old => old
                   | None => np_empty n
                   end)
        /\ forall k, k <> op ->
             Dict.get mcm_eqb k updated = Dict.get mcm_eqb k mcm_samples).
Proof.
  split.
  - intros ->. reflexivity.
  - intros Hactive Hsamples Hlen Hanc Hcount.
    unfold update_mcm_samples_dicts.
    destruct mcm_active as [|a0 A]; [contradiction|].
    destruct mcm_samples as [|[k0 first] S]; [contradiction|].
    set (A0 := a0 :: A) in *. set (S0 := (k0, first) :: S) in *.
    assert (Hfirst : List.length first = n) by exact (List.Forall_inv Hlen).
    cbv zeta. rewrite Hfirst.
    assert (Hones : Np.ones n = List.map (fun _ => true) (List.seq 0 n)).
    { unfold Np.ones. clear. generalize 0%nat.
      induction n as [|n IH]; intros s; simpl; [reflexivity|]. f_equal. apply IH. }
    rewrite Hones, (ancestors_mask_tab op S0 n A0 Hlen Hanc). cbn [andb].
    fold (on_path op A0 S0).
    set (p := on_path op A0 S0) in *.
    set (mask := List.map p (List.seq 0 n)).
    set (S1 := if negb (Dict.mem mcm_eqb op S0)
               then Dict.set mcm_eqb op (np_empty n) S0 else S0).
    set (old := match Dict.get mcm_eqb op S0 with
                | Some old => old
                | None => np_empty n
                end).
    assert (Hold : Dict.get mcm_eqb op S1 = Some old).
    { unfold S1, old, Dict.mem. destruct (Dict.get mcm_eqb op S0) eqn:Hget; cbn [negb].
      - exact Hget.
      - apply get_set_same. }
    assert (Holdlen : List.length old = n).
    { unfold old. destruct (Dict.get mcm_eqb op S0) as [arr|] eqn:Hget.
      - exact (get_length op S0 arr n Hlen Hget).
      - unfold np_empty. rewrite List.length_map, List.length_seq. reflexivity. }
    assert (Hother : forall k, k <> op -> Dict.get mcm_eqb k S1 = Dict.get mcm_eqb k S0).
    { intros k Hk. unfold S1. destruct (negb (Dict.mem mcm_eqb op S0)); [|reflexivity].
      apply get_set_other. exact Hk. }
    unfold Dict.getitem. rewrite Hold. simpl.
    unfold Np.masked_assign.
    assert (Hmasklen : List.length mask = n)
      by (unfold mask; rewrite List.length_map, List.length_seq; reflexivity).
    rewrite Holdlen, Hmasklen, Nat.eqb_refl. simpl.
    assert (Hct : Np.count_true mask = List.length samples).
    { unfold mask. rewrite count_true_tab. symmetry. exact Hcount. }
    rewrite Hct, Nat.eqb_refl.
    exists (Dict.set mcm_eqb op (Np.scatter old mask samples) S1),
           (Np.scatter old mask samples).
    assert (Hscatlen : List.length (Np.scatter old mask samples) = n).
    { rewrite scatter_length. exact Holdlen. }
    split; [reflexivity|]. split; [apply get_set_same|]. split; [exact Hscatlen|].
    split; [|split].
    + unfold keep. rewrite <- (select_tab p (Np.scatter old mask samples) 0%nat).
      rewrite Hscatlen. fold mask. apply scatter_select; [lia|lia].
    + unfold keep.
      rewrite <- (select_tab (fun i => negb (p i)) (Np.scatter old mask samples) 0%nat).
      rewrite <- (select_tab (fun i => negb (p i)) old 0%nat).
      rewrite Hscatlen, Holdlen.
      assert (Hnot : List.map (fun i => negb (p i)) (List.seq 0 n) = Np.logical_not mask).
      { unfold Np.logical_not, mask. rewrite List.map_map. reflexivity. }
      rewrite Hnot. apply scatter_select_others.
    + intros k Hk. rewrite get_set_other by exact Hk. apply Hother. exact Hk.
Qed.

(** *** Counts of the branches *)

(** The count of the key [k] in a counts dictionary. *)
Definition count_in (k : CKey) (d : list (CKey * Z)) : Z :=
  Zsum (List.map snd (List.filter (fun kv => String.eqb (fst kv) k) d)).

Lemma string_get_set (k k' : CKey) (v : Z) (d : list (CKey * Z)) :
  Dict.get String.eqb k' (Dict.set String.eqb k v d)
  = if String.eqb k k' then Some v else Dict.get String.eqb k' d.
Proof.
  induction d as [|[k0 v0] d IH]; simpl.
  - reflexivity.
  - destruct (String.eqb_spec k0 k) as [->|Hne]; simpl.
    + destruct (String.eqb k k'); reflexivity.
    + destruct (String.eqb_spec k0 k') as [->|Hne'].
      * destruct (String.eqb_spec k k'); [congruence|reflexivity].
      * exact IH.
Qed.

Lemma Counter_update_counts (d : list (CKey * Z)) :
  forall new_counts k,
    let updated := Counter_update d new_counts in
    default 0 (Dict.get String.eqb k updated)
    = default 0 (Dict.get String.eqb k new_counts) + count_in k d
    /\ (Dict.mem String.eqb k updated
        = Dict.mem String.eqb k new_counts
          || List.existsb (String.eqb k) (Dict.keys d)).
Proof.
  unfold count_in, Zsum, Dict.mem.
  induction d as [|[k0 c] d IH]; intros acc k; simpl.
  - split; [lia|rewrite orb_false_r; reflexivity].
  - destruct (IH (Dict.set String.eqb k0
                    (match Dict.get String.eqb k0 acc with
                     | Some n => n
                     | None => 0
                     end + c) acc) k) as [Hget Hmem].
    rewrite Hget, Hmem, string_get_set. clear Hget Hmem IH.
    rewrite (String.eqb_sym k k0).
    destruct (String.eqb_spec k0 k) as [->|Hne]; simpl.
    + destruct (Dict.get String.eqb k acc); simpl; split; try lia; reflexivity.
    + split; [lia|reflexivity].
Qed.

(** The branches of a counts measurement: outcome, shot count and the
    counts dictionary of the branch. *)
Definition CountBranches : Type := list (Z * (Z * list (CKey * Z))).

Definition as_count_measures (branches : CountBranches) : Measures :=
  List.map (fun b => (fst b, (fst (snd b), RCounts (snd (snd b))))) branches.

Lemma merge_counts_counts (branches : CountBranches) :
  forall new_counts,
  exists merged,
    merge_counts (Dict.values (as_count_measures branches)) new_counts = Ok merged
    /\ forall k,
         default 0 (Dict.get String.eqb k merged)
         = default 0 (Dict.get String.eqb k new_counts)
           + Zsum (List.map (fun b => count_in k (snd (snd b))) branches)
         /\ (Dict.mem String.eqb k merged
             = Dict.mem String.eqb k new_counts
               || List.existsb (fun b => List.existsb (String.eqb k)
                                                      (Dict.keys (snd (snd b))))
                               branches).
Proof.
  induction branches as [|[b [c d]] branches IH]; intros acc; simpl.
  - exists acc. split; [reflexivity|]. intros k.
    split; [unfold Zsum; simpl; lia|rewrite orb_false_r; reflexivity].
  - destruct (IH (Counter_update d acc)) as (merged & Hrun & Hspec).
    exists merged. split; [exact Hrun|]. intros k.
    destruct (Hspec k) as [Hget Hmem].
    destruct (Counter_update_counts d acc k) as [Hget1 Hmem1].
    rewrite Hget, Hget1, Hmem, Hmem1. unfold Zsum. simpl.
    split; [lia|rewrite orb_assoc; reflexivity].
Qed.

(** X4.  For a counts measurement the dictionaries of the branches are added up:
    the combined dictionary holds exactly the keys that occur in a branch,
    each with the sum of its counts over the branches.  The shot counts of
    the branches play no part. *)
Theorem combine_counts_adds (branches : CountBranches)
  (obs : option Observable) (wires : list Wire) (mv : MV) :
  exists combined,
    combine_measurements_core (mkMP CountsMP obs wires mv)
                              (as_count_measures branches)
    = Ok (RCounts combined)
    /\ forall k,
         default 0 (Dict.get String.eqb k combined)
         = Zsum (List.map (fun b => count_in k (snd (snd b))) branches)
         /\ (Dict.mem String.eqb k combined
             = List.existsb (fun b => List.existsb (String.eqb k)
                                                   (Dict.keys (snd (snd b))))
                            branches).
Proof.
  destruct (merge_counts_counts branches []) as (merged & Hrun & Hspec).
  exists merged. unfold combine_measurements_core. simpl mp_kind. cbv iota.
  rewrite Hrun. split; [reflexivity|]. intros k.
  destruct (Hspec k) as [Hget Hmem]. rewrite Hget, Hmem. simpl.
  split; [lia|reflexivity].
Qed.

(** *** Branches of several measurements *)

(** A branch whose value is a tuple that is not empty: the results of a
    continuation with several measurements. *)
Definition tuple_branch (kv : Z * (Z * Result Value)) : Prop :=
  exists r rs, snd (snd kv) = RTuple (r :: rs).

Lemma tuple_rows (measurements : Measures) :
  List.Forall tuple_branch measurements ->
  exists ds,
    OneShot.map_res
      (fun kv => ms <- tuple_items (snd (snd kv)) ;;
                 Ok (List.map (fun m => (fst (snd kv), m)) ms))
      measurements
    = Ok ds
    /\ List.length ds = List.length measurements
    /\ List.existsb (fun d => Nat.eqb (List.length d) 0) ds = false.
Proof.
  induction measurements as [|[b [c v]] measurements IH]; intros Hall; simpl.
  - exists []. repeat split.
  - destruct (List.Forall_inv Hall) as (r & rs & Hv). simpl in Hv. subst v.
    destruct (IH (List.Forall_inv_tail Hall)) as (ds & Hrun & Hlen & Hne).
    rewrite Hrun. simpl. eexists. split; [reflexivity|]. simpl.
    split; [f_equal; exact Hlen|exact Hne].
Qed.

(** X5.  When the branches hold the results of several measurements, the
    conversion of the branch dictionary pairs the results of exactly two
    branches: with one branch alone, or with three or more, the combination
    raises a [ValueError], whatever the circuit and the recorded samples. *)
Theorem combine_measurements_tuple_branches (circuit : QuantumScript)
  (mcm_samples : SamplesDict) (measurements : Measures) :
  List.Forall tuple_branch measurements ->
  List.length measurements = 1%nat \/ (3 <= List.length measurements)%nat ->
  combine_measurements circuit measurements mcm_samples = Raise ValueError.
Proof.
  intros Hall Hlen. unfold combine_measurements.
  destruct (tuple_rows measurements Hall) as (ds & Hrun & Hds & Hne).
  destruct measurements as [|[b [c v]] rest]; [simpl in Hlen; lia|].
  destruct (List.Forall_inv Hall) as (r & rs & Hv). simpl in Hv. subst v.
  cbn [is_Sequence]. rewrite Hrun. cbn [bind].
  assert (Hrows : List.length ds = 1%nat \/ (3 <= List.length ds)%nat)
    by (rewrite Hds; exact Hlen).
  unfold list_of_dicts.
  destruct ds as [|d0 [|d1 [|d2 ds]]]; simpl in Hrows; try lia;
    rewrite Hne; reflexivity.
Qed.

(** *** Postselection by a projector *)





(** *** The shots of the circuit after [get_final_state] *)

Lemma apply_operations_keeps_shots (ops : list Operator) :
  List.existsb is_Projector ops = false ->
  forall state batched s mm st r,
    fst (apply_operations ops state batched s mm st) = Ok r -> snd r = s.
Proof.
  induction ops as [|op ops IH]; intros Hno state batched s mm st r; simpl.
  - intros [= <-]. reflexivity.
  - simpl in Hno. apply orb_false_iff in Hno. destruct Hno as [Hop Hops].
    rewrite Hop. unfold bindM at 1.
    destruct (in_world (apply_operation op state batched mm) st) as [[state'|e] st1];
      [|discriminate].
    simpl. apply (IH Hops).
Qed.

Lemma existsb_skipn {A : Type} (f : A -> bool) (n : nat) (l : list A) :
  List.existsb f l = false -> List.existsb f (List.skipn n l) = false.
Proof.
  revert l. induction n as [|n IH]; intros [|x l]; simpl; auto.
  intros Hl. apply orb_false_iff in Hl. apply IH. exact (proj2 Hl).
Qed.

(** X7.  [get_final_state] rewrites the shots of the caller's circuit only when
    it applies a projector: on a circuit without one, the circuit after the
    call is the circuit before it. *)
Theorem get_final_state_keeps_circuit (circuit : QuantumScript)
  (interface : option string) (initial_state : option State)
  (mid_measurements : option ActiveDict) (st : Store) :
  List.existsb is_Projector (operations circuit) = false ->
  forall state is_state_batched circuit',
    fst (get_final_state circuit interface initial_state mid_measurements st)
    = Ok (state, is_state_batched, circuit') ->
    circuit' = circuit.
Proof.
  intros Hno state batched circuit'. unfold get_final_state.
  set (mapped := match initial_state with
                 | Some _ => None
                 | None => map_to_standard_wires circuit
                 end).
  set (local := match mapped with Some c => c | None => circuit end).
  unfold bindM at 1.
  match goal with
  | |- context [match ?m st with _ => _ end] => destruct (m st) as [[state0|e] st0]
  end; [|discriminate].
  unfold bindM.
  match goal with
  | |- context [apply_operations ?ops ?s0 ?b0 ?sh ?mm ?st1] =>
      pose proof (apply_operations_keeps_shots ops) as Hkeep;
      destruct (apply_operations ops s0 b0 sh mm st1) as [[[[state1 batched1] shots1]|e] st1']
        eqn:Hrun
  end; [|discriminate].
  simpl. intros [= _ _ <-].
  destruct mapped as [c|] eqn:Hmapped; [reflexivity|].
  unfold local in *. 
  match type of Hrun with
  | apply_operations ?ops ?s0 ?b0 ?sh ?mm ?st1 = _ =>
      assert (Hs : shots1 = sh)
  end.
  { match type of Hrun with
    | apply_operations ?ops ?s0 ?b0 ?sh ?mm ?st1 = _ =>
        refine (Hkeep _ s0 b0 sh mm st1 (state1, batched1, shots1) _)
    end.
    - destruct (prep_of circuit); [apply existsb_skipn|]; exact Hno.
    - rewrite Hrun. reflexivity. }
  rewrite Hs. destruct circuit. reflexivity.
Qed.

(** *** The log is a ghost *)

(** The store with events put before its log. *)
Definition with_log (pre : list Event) (st : Store) : Store :=
  mkStore (mcm_active st) (mcm_samples st) (world st) (pre ++ log st).

(** A computation that does not read the log: on a longer log it returns
    the same, and leaves the same store behind the longer log. *)
Definition ghost {A : Type} (m : M A) : Prop :=
  forall pre st, m (with_log pre st) = (fst (m st), with_log pre (snd (m st))).

Lemma ghost_ret {A : Type} (a : A) : ghost (ret a).
Proof. intros pre st. reflexivity. Qed.

Lemma ghost_raise {A : Type} (e : PyExc) : ghost (@raise _ A e).
Proof. intros pre st. reflexivity. Qed.

Lemma ghost_lift {A : Type} (r : Res A) : ghost (lift r).
Proof. intros pre st. reflexivity. Qed.

Lemma ghost_in_world {A : Type} (f : World -> Res A * World) : ghost (in_world f).
Proof. intros pre st. unfold in_world. simpl. destruct (f (world st)). reflexivity. Qed.

Lemma ghost_get_active : ghost get_active.
Proof. intros pre st. reflexivity. Qed.

Lemma ghost_get_samples : ghost get_samples.
Proof. intros pre st. reflexivity. Qed.

Lemma ghost_put_active (a : ActiveDict) : ghost (put_active a).
Proof. intros pre st. reflexivity. Qed.

Lemma ghost_log_event (e : Event) : ghost (log_event e).
Proof.
  intros pre st. unfold log_event, with_log. simpl.
  rewrite List.app_assoc. reflexivity.
Qed.

Lemma ghost_bind {A B : Type} (m : M A) (k : A -> M B) :
  ghost m -> (forall a, ghost (k a)) -> ghost (bindM m k).
Proof.
  intros Hm Hk pre st. unfold bindM. rewrite (Hm pre st).
  destruct (m st) as [[a|e] st1]; simpl; [apply Hk|reflexivity].
Qed.

Lemma ghost_for_each {A B : Type} (f : A -> M B) (l : list A) :
  (forall x, ghost (f x)) -> ghost (for_each f l).
Proof.
  intros Hf. induction l as [|x l IH]; simpl.
  - apply ghost_ret.
  - apply ghost_bind; [apply Hf|]. intros y.
    apply ghost_bind; [exact IH|]. intros ys. apply ghost_ret.
Qed.

Lemma ghost_with_new_dicts {A : Type} (m : M A) : ghost m -> ghost (with_new_dicts m).
Proof.
  intros Hm pre st. unfold with_new_dicts. simpl.
  change (mkStore [] [] (world st) (pre ++ log st))
    with (with_log pre (mkStore [] [] (world st) (log st))).
  rewrite (Hm pre). destruct (m (mkStore [] [] (world st) (log st))) as [r st'].
  reflexivity.
Qed.

Lemma ghost_prune (op : MidMeasureMP) (branch : Z) : ghost (prune_mcm_samples op branch).
Proof.
  intros pre st. unfold prune_mcm_samples, with_log. simpl.
  destruct (prune_mcm_samples_dicts op branch (mcm_active st) (mcm_samples st)).
  simpl. rewrite List.app_assoc. reflexivity.
Qed.

Lemma ghost_update (op : MidMeasureMP) (samples : list Z) :
  ghost (update_mcm_samples op samples).
Proof.
  intros pre st. unfold update_mcm_samples, with_log. simpl.
  destruct (update_mcm_samples_dicts op samples (mcm_active st) (mcm_samples st)).
  reflexivity.
Qed.

Ltac ghostly :=
  repeat first
    [ apply ghost_ret
    | apply ghost_raise
    | apply ghost_lift
    | apply ghost_in_world
    | apply ghost_get_active
    | apply ghost_get_samples
    | apply ghost_put_active
    | apply ghost_log_event
    | apply ghost_prune
    | apply ghost_update
    | apply ghost_for_each; intros
    | apply ghost_bind; [|intros]
    | match goal with
      | |- ghost (if ?b then _ else _) => destruct b
      | |- ghost (match ?x with _ => _ end) => destruct x
      end ].

Lemma ghost_postselection (state : State) (batched : bool) (s : Shots) :
  ghost (_postselection_postprocess state batched s).
Proof. unfold _postselection_postprocess. ghostly. Qed.

Lemma ghost_apply_operations (ops : list Operator) :
  forall state batched s mm, ghost (apply_operations ops state batched s mm).
Proof.
  induction ops as [|op ops IH]; intros state batched s mm; simpl.
  - ghostly.
  - apply ghost_bind; [ghostly|]. intros state'.
    apply ghost_bind.
    + destruct (is_Projector op); [apply ghost_postselection|ghostly].
    + intros [state'' s']. apply IH.
Qed.

Lemma ghost_get_final_state (circuit : QuantumScript) (interface : option string)
  (initial_state : option State) (mm : option ActiveDict) :
  ghost (get_final_state circuit interface initial_state mm).
Proof.
  unfold get_final_state.
  apply ghost_bind; [ghostly|]. intros state.
  apply ghost_bind; [apply ghost_apply_operations|].
  intros [[state' batched] s']. ghostly.
Qed.

Lemma ghost_measure_final_state (circuit : QuantumScript) (state : State)
  (batched : bool) (initial_state : option State) :
  ghost (measure_final_state circuit state batched initial_state).
Proof. unfold measure_final_state. ghostly. Qed.

Lemma ghost_branch_loop
  (recurse : QuantumScript -> State -> M (Result Value))
  (op : MidMeasureMP) (circuit_base circuit_next : QuantumScript)
  (counts : list (Z * Z)) (state : State) (branches : list Z) :
  (forall c s, ghost (recurse c s)) ->
  forall measurements,
    ghost (branch_loop recurse op circuit_base circuit_next counts state
                       branches measurements).
Proof.
  intros Hrec. induction branches as [|branch branches IH]; intros ms; simpl.
  - apply ghost_ret.
  - destruct (rejected op branch).
    + apply ghost_bind; [apply ghost_prune|]. intros _. apply IH.
    + apply ghost_bind; [unfold set_active; ghostly|]. intros _.
      apply ghost_bind; [|intros m; apply IH].
      unfold branch_measurement, branch_state. ghostly. apply Hrec.
Qed.

Lemma ghost_simulate_tree_mcm_rec (fuel : nat) :
  forall circuit interface initial_state,
    ghost (simulate_tree_mcm_rec fuel circuit interface initial_state).
Proof.
  induction fuel as [|fuel IH]; intros circuit interface initial_state; simpl.
  - apply ghost_raise.
  - destruct (has_partitioned_shots (shots circuit)).
    + apply ghost_bind; [|intros; apply ghost_ret].
      apply ghost_for_each. intros s. apply ghost_with_new_dicts. apply IH.
    + apply ghost_bind; [apply ghost_lift|]. intros [[circuit_base circuit_next] op].
      apply ghost_bind; [apply ghost_lift|]. intros state0.
      apply ghost_bind; [apply ghost_get_active|]. intros active.
      apply ghost_bind; [apply ghost_get_final_state|].
      intros [[state batched] circuit_base'].
      apply ghost_bind; [apply ghost_measure_final_state|]. intros measurements.
      destruct circuit_next as [circuit_next|]; [|apply ghost_ret].
      destruct op as [op|]; [|apply ghost_ret].
      apply ghost_bind; [apply ghost_lift|]. intros samples.
      apply ghost_bind; [apply ghost_update|]. intros _.
      apply ghost_bind; [|intros; ghostly].
      apply ghost_branch_loop. intros c s. apply IH.
Qed.

(** *** Shot vectors *)

(** One run of [simulate_tree_mcm] per entry of a shot vector, in order,
    each on the world the one before left; the first error ends the
    sequence. *)
Fixpoint runs_per_entry (circuit : QuantumScript) (interface : option string)
  (entries : list nat) (w : World) : Res (list (Result Value)) * World :=
  match entries with
  | [] => (Ok [], w)
  | s :: entries' =>
      match simulate_tree_mcm (set_shots circuit (Shots_of_int s)) interface w with
      | (Ok r, w') =>
          match runs_per_entry circuit interface entries' w' with
          | (Ok rs, w'') => (Ok (r :: rs), w'')
          | (Raise e, w'') => (Raise e, w'')
          end
      | (Raise e, w') => (Raise e, w')
      end
  end.

Lemma runs_per_entry_length (circuit : QuantumScript) (interface : option string)
  (entries : list nat) :
  forall w rs, fst (runs_per_entry circuit interface entries w) = Ok rs ->
               List.length rs = List.length entries.
Proof.
  induction entries as [|s entries IH]; intros w rs; simpl.
  - intros [= <-]. reflexivity.
  - destruct (simulate_tree_mcm (set_shots circuit (Shots_of_int s)) interface w)
      as [[r|e] w']; simpl; [|discriminate].
    specialize (IH w').
    destruct (runs_per_entry circuit interface entries w') as [[rs'|e] w''];
      simpl in *; [|discriminate].
    intros [= <-]. simpl. f_equal. apply IH. reflexivity.
Qed.

Lemma for_each_entries (circuit : QuantumScript) (interface : option string)
  (fuel : nat) (entries : list nat) :
  (List.length (operations circuit) < fuel)%nat ->
  forall st,
    for_each (fun s => with_new_dicts
                         (simulate_tree_mcm_rec fuel
                            (set_shots circuit (Shots_of_int s)) interface None))
             entries st
    = (fst (runs_per_entry circuit interface entries (world st)),
       mkStore (mcm_active st) (mcm_samples st)
               (snd (runs_per_entry circuit interface entries (world st)))
               (log (snd (for_each
                            (fun s => with_new_dicts
                                        (simulate_tree_mcm_rec fuel
                                           (set_shots circuit (Shots_of_int s))
                                           interface None))
                            entries st)))).
Proof.
  intros Hfuel. induction entries as [|s entries IH]; intros st.
  - destruct st. reflexivity.
  - cbn [for_each runs_per_entry]. unfold bindM at 1 3.
    set (c := set_shots circuit (Shots_of_int s)).
    assert (Hrun : with_new_dicts (simulate_tree_mcm_rec fuel c interface None) st
                   = (fst (simulate_tree_mcm c interface (world st)),
                      mkStore (mcm_active st) (mcm_samples st)
                              (snd (simulate_tree_mcm c interface (world st)))
                              (log (snd (with_new_dicts
                                           (simulate_tree_mcm_rec fuel c interface None)
                                           st))))).
    { unfold with_new_dicts, simulate_tree_mcm, simulate_tree_mcm_in.
      replace (mkStore [] [] (world st) (log st))
        with (with_log (log st) (mkStore [] [] (world st) []))
        by (unfold with_log; simpl; rewrite List.app_nil_r; reflexivity).
      rewrite (ghost_simulate_tree_mcm_rec fuel c interface None).
      rewrite (fuel_stable fuel (enough_fuel c) c interface None).
      - destruct (simulate_tree_mcm_rec (enough_fuel c) c interface None
                    (mkStore [] [] (world st) [])) as [r st']. reflexivity.
      - unfold depth, c. simpl. lia.
      - unfold depth, enough_fuel, c. simpl. lia. }
    rewrite Hrun.
    destruct (simulate_tree_mcm c interface (world st)) as [[r|e] w']; simpl;
      [|reflexivity].
    unfold bindM. rewrite IH. cbn [world mcm_active mcm_samples fst snd].
    destruct (runs_per_entry circuit interface entries w') as [[rs|e] w''];
      reflexivity.
Qed.

Lemma simulate_tree_mcm_rec_partitioned (fuel : nat) (circuit : QuantumScript)
  (interface : option string) (initial_state : option State) :
  has_partitioned_shots (shots circuit) = true ->
  simulate_tree_mcm_rec (S fuel) circuit interface initial_state
  = bindM (for_each
             (fun s => with_new_dicts
                         (simulate_tree_mcm_rec fuel
                            (set_shots circuit (Shots_of_int s)) interface None))
             (Shots_iter (shots circuit)))
          (fun results => ret (RTuple results)).
Proof. intros Hpart. simpl. rewrite Hpart. reflexivity. Qed.

(** X8.  A circuit with a shot vector is simulated as one run per entry of the
    vector, each on the circuit with that entry as its shots and on new
    dictionaries, one after the other; the result is the tuple of their
    results, one per entry.  A call that is passed an initial state or
    dictionaries does not use them and leaves the dictionaries as they
    are. *)
Theorem simulate_tree_mcm_shot_vector (circuit : QuantumScript)
  (interface : option string) :
  has_partitioned_shots (shots circuit) = true ->
  let entries := Shots_iter (shots circuit) in
  (forall w,
      simulate_tree_mcm circuit interface w
      = (rs <- fst (runs_per_entry circuit interface entries w) ;; Ok (RTuple rs),
         snd (runs_per_entry circuit interface entries w)))
  /\ (forall w rs,
        fst (runs_per_entry circuit interface entries w) = Ok rs ->
        List.length rs = List.length entries)
  /\ (forall initial_state st,
        let run := simulate_tree_mcm_rec (enough_fuel circuit) circuit interface
                                         initial_state st in
        fst run = fst (simulate_tree_mcm circuit interface (world st))
        /\ mcm_active (snd run) = mcm_active st
        /\ mcm_samples (snd run) = mcm_samples st).
Proof.
  intros Hpart entries.
  assert (Hrec : forall initial_state st,
    simulate_tree_mcm_rec (enough_fuel circuit) circuit interface initial_state st
    = ((rs <- fst (runs_per_entry circuit interface entries (world st)) ;;
        Ok (RTuple rs)),
       mkStore (mcm_active st) (mcm_samples st)
               (snd (runs_per_entry circuit interface entries (world st)))
               (log (snd (simulate_tree_mcm_rec (enough_fuel circuit) circuit
                            interface initial_state st))))).
  { intros initial_state st. unfold enough_fuel.
    rewrite (simulate_tree_mcm_rec_partitioned _ _ _ _ Hpart). unfold bindM.
    rewrite for_each_entries by lia. fold entries. cbn [fst snd].
    destruct (runs_per_entry circuit interface entries (world st)) as [[rs|e] w'];
      reflexivity. }
  assert (Htop : forall w,
    simulate_tree_mcm circuit interface w
    = (rs <- fst (runs_per_entry circuit interface entries w) ;; Ok (RTuple rs),
       snd (runs_per_entry circuit interface entries w))).
  { intros w. unfold simulate_tree_mcm, simulate_tree_mcm_in.
    rewrite (Hrec None (mkStore [] [] w [])). reflexivity. }
  split; [exact Htop|]. split.
  - intros w rs. apply runs_per_entry_length.
  - intros initial_state st run. unfold run.
    rewrite (Hrec initial_state st), Htop. repeat split.
Qed.

End WithBackend.

(** One branch of two results. *)
Lemma combine_measurements_tuple_branches_witness :
  Simulate.combine_measurements (H := Instances.exact_backend)
    (mkQS [] [Instances.expval_Z0; Instances.counts_w0] (Finite [4%nat]) [])
    [(1, (2, Simulate.RTuple [Simulate.RTensor (Instances.TReal 1);
                              Simulate.RCounts [("1"%string, 2)]]))]
    [(Instances.m0_post1, [1; 1])]
  = Raise ValueError.
Proof.
  apply (combine_measurements_tuple_branches (H := Instances.exact_backend)).
  - constructor; [|constructor]. eexists _, _. reflexivity.
  - left. reflexivity.
Defined.

(** End to end: [R(0); measure(0, postselect=1)] with an expectation value
    and counts, four shots of which two give outcome 1.  The accepted branch
    returns its two results and the simulation raises. *)
Example simulate_tree_mcm_one_branch_of_two_results :
  fst (Simulate.simulate_tree_mcm (H := Instances.exact_backend)
         (mkQS [Instances.R0; MidMeasure Instances.m0_post1]
               [Instances.expval_Z0; Instances.counts_w0] (Finite [4%nat]) [])
         None
         [Instances.sampled [0; 1; 1; 0];
          Simulate.RTuple [Simulate.RTensor (Instances.TReal (-1));
                           Simulate.RCounts [("1"%string, 2)]]])
  = Raise ValueError.
Proof. vm_compute. reflexivity. Qed.

End SimulateProps.

(** ** More of the one-shot transform *)

Module OneShotProps.
Import OneShot OneShotProofs.

(** *** The measurements of the auxiliary tape *)




Lemma init_auxiliary_tapes_no_ValueError (tapes : list QuantumScript) :
  map_res init_auxiliary_tape tapes <> Raise ValueError.
Proof.
  induction tapes as [|t tapes IH]; simpl; [discriminate|].
  unfold init_auxiliary_tape at 1.
  destruct (total_shots (shots t)); simpl; [|discriminate].
  destruct (map_res init_auxiliary_tape tapes) as [?|e]; simpl;
    [discriminate|exact IH].
Qed.

Section WithEnv.
Context `{Env}.

(** *** Samples, postselection and broadcasting together *)

(** X10.  On a tape with a mid-circuit measurement, supported measurements and
    finite shots, the transform raises a [ValueError] exactly when the tape
    is broadcasted, returns samples and postselects a mid-circuit
    measurement. *)
Theorem dynamic_one_shot_broadcast_samples (tape : QuantumScript) (kwargs : Kwargs) :
  List.existsb is_mcm (operations tape) = true ->
  List.forallb (fun m => supported_kind (mp_kind m)) (measurements tape) = true ->
  Shots_bool (shots tape) = true ->
  (dynamic_one_shot tape kwargs = Raise ValueError
   <-> (List.existsb (fun op => is_mcm op && is_Some_b (postselect_of op))
                     (operations tape) = true
        /\ List.existsb (fun mp => MPKind_eqb (mp_kind mp) SampleMP)
                        (measurements tape) = true
        /\ batch_size tape <> None)).
Proof.
  intros Hmcm Hsupp Hshots. unfold dynamic_one_shot.
  rewrite Hmcm. cbn [negb]. rewrite (check_measurements_ok _ Hsupp). cbn [bind].
  rewrite Hshots. cbn [negb].
  assert (Hpost : List.existsb (fun op => is_Some_b (postselect_of op))
                               (List.filter is_mcm (operations tape))
                  = List.existsb (fun op => is_mcm op && is_Some_b (postselect_of op))
                                 (operations tape)).
  { clear. induction (operations tape) as [|op ops IH]; simpl; [reflexivity|].
    destruct (is_mcm op); simpl; rewrite IH; reflexivity. }
  rewrite Hpost.
  destruct (List.existsb (fun op => is_mcm op && is_Some_b (postselect_of op))
                         (operations tape)) eqn:Hp;
    destruct (List.existsb (fun mp => MPKind_eqb (mp_kind mp) SampleMP)
                           (measurements tape)) eqn:Hs;
    destruct (batch_size tape) as [b|] eqn:Hb; cbn [andb is_Some_b].
  1: { split; [intros _; repeat split; discriminate|reflexivity]. }
  all: split; [|intros (H1 & H2 & H3); try discriminate; try congruence].
  all: try destruct (broadcast_expand tape) as [ts f].
  all: match goal with
       | |- context [map_res init_auxiliary_tape ?l] =>
           pose proof (init_auxiliary_tapes_no_ValueError l) as Hno;
           destruct (map_res init_auxiliary_tape l) as [?|e]; simpl;
           [discriminate|intros Heq; congruence]
       end.
Qed.

(** *** The results of a shot vector *)

(** Consecutive slices of the given lengths. *)
Fixpoint chunks {A : Type} (bins : list nat) (results : list A) : list (list A) :=
  match bins with
  | [] => []
  | s :: bins' => List.firstn s results :: chunks bins' (List.skipn s results)
  end.

Lemma chunks_concat {A : Type} (bins : list nat) :
  forall results : list A,
    List.concat (chunks bins results) = List.firstn (list_sum bins) results.
Proof.
  induction bins as [|s bins IH]; intros results; simpl; [reflexivity|].
  rewrite IH. clear IH. revert results.
  induction s as [|s IHs]; intros [|x results]; simpl;
    try reflexivity.
  - destruct (list_sum bins); reflexivity.
  - f_equal. apply IHs.
Qed.

Lemma chunks_lengths {A : Type} (bins : list nat) :
  forall results : list A,
    (list_sum bins <= List.length results)%nat ->
    List.map (@List.length A) (chunks bins results) = bins.
Proof.
  induction bins as [|s bins IH]; intros results Hlen; simpl in *; [reflexivity|].
  f_equal.
  - rewrite List.length_firstn. lia.
  - apply IH. rewrite List.length_skipn. lia.
Qed.

Lemma processing_bins_chunks (tape : QuantumScript) (aux_tapes : list QuantumScript)
  (postselect_mode : option string) (bins : list nat) :
  forall results,
    processing_bins tape aux_tapes postselect_mode bins results
    = map_res (processing_tail tape aux_tapes postselect_mode) (chunks bins results).
Proof.
  induction bins as [|s bins IH]; intros results; simpl; [reflexivity|].
  rewrite IH. reflexivity.
Qed.

(** X11.  For a tape with a shot vector the per-shot results are cut into
    consecutive groups, one per entry of the vector and of its size, each
    group is processed on its own, and the results are returned as a tuple
    with one element per entry.  When there are as many per-shot results as
    shots, every result is in exactly one group. *)
Theorem processing_fn_shot_vector (tape : QuantumScript)
  (aux_tapes : list QuantumScript) (postselect_mode : option string)
  (broadcast_fn : option (list (PyVal Tensor) -> Res (PyVal Tensor)))
  (per_shot rest : list (PyVal Tensor)) :
  batch_size tape = None ->
  has_partitioned_shots (shots tape) = true ->
  let bins := Shots_iter (shots tape) in
  processing_fn tape aux_tapes postselect_mode broadcast_fn (PSeq per_shot :: rest)
  = (rs <- map_res (processing_tail tape aux_tapes postselect_mode)
                   (chunks bins per_shot) ;;
     Ok (PSeq rs))
  /\ List.length (chunks bins per_shot) = List.length bins
  /\ List.concat (chunks bins per_shot) = List.firstn (list_sum bins) per_shot
  /\ ((list_sum bins <= List.length per_shot)%nat ->
      List.map (@List.length _) (chunks bins per_shot) = bins)
  /\ (List.length per_shot = list_sum bins ->
      List.concat (chunks bins per_shot) = per_shot).
Proof.
  intros Hbatch Hpart bins. split; [|split; [|split; [|split]]].
  - unfold processing_fn. rewrite Hbatch. unfold processing_unbatched.
    rewrite Hpart. simpl. rewrite processing_bins_chunks. reflexivity.
  - clear. revert per_shot. induction bins as [|s bins IH]; intros per_shot; simpl;
      [reflexivity|]. f_equal. apply IH.
  - apply chunks_concat.
  - apply chunks_lengths.
  - intros Hlen. rewrite chunks_concat, <- Hlen. apply List.firstn_all.
Qed.

End WithEnv.
End OneShotProps.

(** ** Devices and QNodes *)

Module QnodeProps.
Import Qnode.

Lemma kwargs_get_set (k k' : string) (v : KwVal) (d : list (string * KwVal)) :
  Dict.get String.eqb k' (Dict.set String.eqb k v d)
  = if String.eqb k k' then Some v else Dict.get String.eqb k' d.
Proof.
  induction d as [|[k0 v0] d IH]; simpl.
  - reflexivity.
  - destruct (String.eqb_spec k0 k) as [->|Hne]; simpl.
    + destruct (String.eqb k k'); reflexivity.
    + destruct (String.eqb_spec k0 k') as [->|Hne'].
      * destruct (String.eqb_spec k k'); [congruence|reflexivity].
      * exact IH.
Qed.

(** X12.  A device that is a [LegacyDevice] without being a [LegacyDeviceFacade]
    makes [_supports_one_shot] fail on the assertion of
    [get_legacy_capabilities].  A device of the new interface called
    [default.qubit] or [lightning.qubit] is supported whatever its
    capabilities, and any other one exactly when its capabilities list the
    method [one-shot]. *)
Theorem supports_one_shot_cases (dev : Device) :
  (is_LegacyDevice dev = true -> is_LegacyDeviceFacade dev = false ->
   _supports_one_shot dev = Raise AssertionError)
  /\ (is_LegacyDevice dev = false ->
      (dev_name dev = "default.qubit"%string \/ dev_name dev = "lightning.qubit"%string ->
       _supports_one_shot dev = Ok true)
      /\ (dev_name dev <> "default.qubit"%string ->
          dev_name dev <> "lightning.qubit"%string ->
          _supports_one_shot dev
          = Ok (match capabilities dev with
                | Some c => List.existsb (String.eqb "one-shot")
                                         (supported_mcm_methods c)
                | None => false
                end))).
Proof.
  unfold _supports_one_shot, get_legacy_capabilities. split.
  - intros -> ->. reflexivity.
  - intros ->. split.
    + intros [-> | ->]; reflexivity.
    + intros H1 H2.
      destruct (String.eqb_spec (dev_name dev) "default.qubit"); [contradiction|].
      destruct (String.eqb_spec (dev_name dev) "lightning.qubit"); [contradiction|].
      reflexivity.
Qed.

Section WithTransform.
Variables QNode TArgs Out : Type.
Variable device : QNode -> option Device.
Variable default_qnode_transform : QNode -> TArgs -> list (string * KwVal) -> Res Out.

(** X13.  A [device] among the keyword arguments that is not [None] is a
    [ValueError], whether or not the device of the QNode supports the
    transform.  Otherwise a device of the QNode that does not support
    one-shot execution is a [TypeError].  Otherwise the default transform
    is called with the keyword arguments given and, only if they had no
    [device] key, the device of the QNode under that key: a [device] given
    as [None] stays [None]. *)
Theorem dynamic_one_shot_qnode_outcome (qnode : QNode) (targs : TArgs)
  (tkwargs : list (string * KwVal)) :
  let r := _dynamic_one_shot_qnode QNode TArgs Out device default_qnode_transform
                                   qnode targs tkwargs in
  match Dict.get String.eqb "device" tkwargs with
  | Some v =>
      if kw_truthy v then r = Raise ValueError
      else match device qnode with
           | Some d =>
               match _supports_one_shot d with
               | Ok true => r = default_qnode_transform qnode targs tkwargs
               | Ok false => r = Raise TypeError
               | Raise e => r = Raise e
               end
           | None => r = default_qnode_transform qnode targs tkwargs
           end
  | None =>
      exists tkwargs',
        (forall k, Dict.get String.eqb k tkwargs'
                   = if String.eqb "device" k then Some (kw_of_device (device qnode))
                     else Dict.get String.eqb k tkwargs)
        /\ match device qnode with
           | Some d =>
               match _supports_one_shot d with
               | Ok true => r = default_qnode_transform qnode targs tkwargs'
               | Ok false => r = Raise TypeError
               | Raise e => r = Raise e
               end
           | None => r = default_qnode_transform qnode targs tkwargs'
           end
  end.
Proof.
  intros r. unfold r, _dynamic_one_shot_qnode, setdefault, Dict.mem.
  destruct (Dict.get String.eqb "device" tkwargs) as [v|] eqn:Hget.
  - destruct (kw_truthy v); [reflexivity|].
    destruct (device qnode) as [d|]; [|reflexivity].
    destruct (_supports_one_shot d) as [[|]|e]; reflexivity.
  - exists (Dict.set String.eqb "device" (kw_of_device (device qnode)) tkwargs).
    split; [intros k; apply kwargs_get_set|].
    destruct (device qnode) as [d|]; [|reflexivity].
    destruct (_supports_one_shot d) as [[|]|e]; reflexivity.
Qed.

End WithTransform.
End QnodeProps.

(** ** The results of the one-shot runs *)

Module ParseProps.
Import OneShot Parse.

Section WithEnv.
Context `{Parse.Env}.

(** Shot [i] is valid: its sample of every mid-circuit measurement that
    postselects is the postselected value. *)
Definition shot_valid (all_mcms : list Operator) (columns : list (list Z))
  (i : nat) : bool :=
  List.forallb (fun p => match postselect_of (fst p) with
                         | Some v => Z.eqb (List.nth i (snd p) 0) v
                         | None => true
                         end)
               (List.combine all_mcms columns).

(** The interface the function works with. *)
Definition interface_of (results : list Tensor) : string :=
  let interface := get_deep_interface results in
  let interface := if String.eqb interface "builtins" then "numpy"%string
                   else interface in
  if String.eqb interface "tf" then "tensorflow"%string else interface.

(** What a measurement is given when no shot is valid. *)
Definition placeholder (m : MeasurementProcess) : Res (PyVal Tensor) :=
  if negb (supported_kind (mp_kind m)) then Raise TypeError
  else if MPKind_eqb (mp_kind m) SampleMP then squeeze (measurement_with_no_shots m)
  else Ok (measurement_with_no_shots m).

Lemma row_valid_shot (all_mcms : list Operator) :
  forall (columns : list (list Z)) (i : nat),
    List.length columns = List.length all_mcms ->
    row_valid (has_postselect_row all_mcms) (postselect_row all_mcms)
              (List.map (fun col => List.nth i col 0) columns)
    = Ok (shot_valid all_mcms columns i).
Proof.
  intros columns i Hlen. unfold row_valid.
  rewrite List.length_map, List.length_combine.
  unfold has_postselect_row, postselect_row. rewrite !List.length_map, Hlen.
  rewrite Nat.min_id, Nat.eqb_refl. f_equal. unfold shot_valid.
  revert columns Hlen.
  induction all_mcms as [|op ops IH]; intros [|col cols] Hlen; simpl in *;
    try discriminate; [reflexivity|].
  rewrite (IH cols) by lia. f_equal.
  destruct (postselect_of op) as [v|]; simpl.
  - rewrite Z.mul_1_r. reflexivity.
  - rewrite Z.mul_0_r. reflexivity.
Qed.

Lemma map_res_map {A B C : Type} (f : B -> Res C) (g : A -> B) (h : A -> C)
  (l : list A) :
  (forall x, f (g x) = Ok (h x)) -> map_res f (List.map g l) = Ok (List.map h l).
Proof.
  intros Hf. induction l as [|x l IH]; simpl; [reflexivity|].
  rewrite Hf, IH. reflexivity.
Qed.

(** *** Which shots are valid *)

Lemma parse_valid_shots_aux (circuit aux0 : QuantumScript)
  (aux_rest : list QuantumScript) (results : list Tensor)
  (postselect_mode : option string) (columns : list (list Z)) (n : nat) :
  let all_mcms := List.filter is_mcm (operations aux0) in
  map_res as_column (last_items (List.length all_mcms) results) = Ok columns ->
  List.length columns = List.length all_mcms ->
  columns <> [] ->
  List.Forall (fun c => List.length c = n) columns ->
  exists mcm_samples,
    parse_native_mid_circuit_measurements circuit (aux0 :: aux_rest) results
                                          postselect_mode
    = (normalized_meas <-
         normalize results postselect_mode (interface_of results) mcm_samples
                   (List.map (shot_valid all_mcms columns) (List.seq 0 n))
                   (measurements circuit) 0 [] ;;
       pack normalized_meas).
Proof.
  intros all_mcms Hcols Hlen Hne Hn.
  unfold parse_native_mid_circuit_measurements. cbn [getitem0 bind].
  fold all_mcms. rewrite Hcols. cbn [bind].
  destruct columns as [|c cs]; [contradiction|].
  assert (Hc : List.length c = n) by exact (List.Forall_inv Hn).
  assert (Hcs : List.forallb (fun c' => Nat.eqb (List.length c') (List.length c)) cs
                = true).
  { apply List.forallb_forall. intros c' Hin. apply Nat.eqb_eq.
    rewrite Hc. pose proof (List.Forall_inv_tail Hn) as Hrest.
    rewrite List.Forall_forall in Hrest. exact (Hrest c' Hin). }
  unfold hstack. rewrite Hcs, Hc. cbn [bind].
  unfold valid_shots, broadcastable.
  unfold has_postselect_row at 1. rewrite List.length_map, Hlen, Nat.eqb_refl.
  cbn [orb].
  rewrite (map_res_map _ _ (shot_valid all_mcms (c :: cs)));
    [|intros i; apply row_valid_shot; exact Hlen].
  cbn [bind]. fold (interface_of results). eexists. reflexivity.
Qed.

(** X14.  On one column of [n] samples per mid-circuit measurement of the
    auxiliary tape, the shots the measurements are reduced over are the
    valid ones: shot [i] counts exactly when its sample of every
    measurement that postselects is the postselected value; the samples of
    a measurement without postselection do not matter. *)
Theorem parse_valid_shots (circuit aux0 : QuantumScript)
  (aux_rest : list QuantumScript) (results : list Tensor)
  (postselect_mode : option string) (columns : list (list Z)) (n : nat) :
  let all_mcms := List.filter is_mcm (operations aux0) in
  map_res as_column (last_items (List.length all_mcms) results) = Ok columns ->
  List.length columns = List.length all_mcms ->
  columns <> [] ->
  List.Forall (fun c => List.length c = n) columns ->
  exists mcm_samples,
    parse_native_mid_circuit_measurements circuit (aux0 :: aux_rest) results
                                          postselect_mode
    = (normalized_meas <-
         normalize results postselect_mode (interface_of results) mcm_samples
                   (List.map (shot_valid all_mcms columns) (List.seq 0 n))
                   (measurements circuit) 0 [] ;;
       pack normalized_meas).
Proof. apply parse_valid_shots_aux. Qed.

(** *** No valid shot *)

Lemma normalize_no_valid (results : list Tensor) (postselect_mode : option string)
  (interface : string) (mcm_samples : list (Operator * Matrix))
  (is_valid : list bool) :
  List.existsb (fun b => b) is_valid = false ->
  String.eqb interface "jax" = false ->
  forall ms m_count normalized_meas,
    normalize results postselect_mode interface mcm_samples is_valid ms m_count
              normalized_meas
    = (ps <- map_res placeholder ms ;; Ok (normalized_meas ++ ps)).
Proof.
  intros Hnone Hjax. induction ms as [|m ms IH]; intros m_count acc; simpl.
  - rewrite List.app_nil_r. reflexivity.
  - rewrite Hnone, Hjax. cbn [negb andb]. unfold placeholder at 1.
    destruct (supported_kind (mp_kind m)); cbn [negb]; [|reflexivity].
    rewrite !andb_true_r.
    assert (Hstep : forall mc,
      (meas <- (if MPKind_eqb (mp_kind m) SampleMP
                then squeeze (measurement_with_no_shots m)
                else Ok (measurement_with_no_shots m)) ;;
       normalize results postselect_mode interface mcm_samples is_valid ms mc
                 (acc ++ [meas]))
      = (ps <- (y <- (if MPKind_eqb (mp_kind m) SampleMP
                      then squeeze (measurement_with_no_shots m)
                      else Ok (measurement_with_no_shots m)) ;;
                ys <- map_res placeholder ms ;; Ok (y :: ys)) ;;
         Ok (acc ++ ps))).
    { intros mc.
      destruct (if MPKind_eqb (mp_kind m) SampleMP
                then squeeze (measurement_with_no_shots m)
                else Ok (measurement_with_no_shots m)) as [meas|e]; cbn [bind];
        [|reflexivity].
      rewrite IH. destruct (map_res placeholder ms) as [ps|e]; cbn [bind];
        [|reflexivity].
      rewrite <- List.app_assoc. reflexivity. }
    destruct (mv_is_None (mp_mv m)); cbn [negb]; apply Hstep.
Qed.

(** X15.  When no shot is valid and the interface is not JAX, every measurement
    of the circuit is given its NaN placeholder (squeezed for samples),
    with or without a measurement value: the results of the runs are not
    read and nothing is reduced.  An unsupported measurement is a
    [TypeError]. *)
Theorem parse_without_valid_shot (circuit aux0 : QuantumScript)
  (aux_rest : list QuantumScript) (results : list Tensor)
  (postselect_mode : option string) (columns : list (list Z)) (n : nat) :
  let all_mcms := List.filter is_mcm (operations aux0) in
  map_res as_column (last_items (List.length all_mcms) results) = Ok columns ->
  List.length columns = List.length all_mcms ->
  columns <> [] ->
  List.Forall (fun c => List.length c = n) columns ->
  (forall i, (i < n)%nat -> shot_valid all_mcms columns i = false) ->
  get_deep_interface results <> "jax"%string ->
  parse_native_mid_circuit_measurements circuit (aux0 :: aux_rest) results
                                        postselect_mode
  = (ps <- map_res placeholder (measurements circuit) ;; pack ps).
Proof.
  intros all_mcms Hcols Hlen Hne Hn Hinvalid Hjax.
  destruct (parse_valid_shots_aux circuit aux0 aux_rest results postselect_mode
              columns n Hcols Hlen Hne Hn) as (mcm_samples & ->).
  rewrite normalize_no_valid.
  - destruct (map_res placeholder (measurements circuit)); reflexivity.
  - clear -Hinvalid. 
    assert (Hall : forall s m, (s + m <= n)%nat ->
              List.existsb (fun b => b)
                (List.map (shot_valid all_mcms columns) (List.seq s m)) = false).
    { intros s m. revert s. induction m as [|m IH]; intros s Hs; simpl;
        [reflexivity|].
      rewrite Hinvalid by lia. apply IH. lia. }
    apply Hall. lia.
  - unfold interface_of.
    destruct (String.eqb_spec (get_deep_interface results) "builtins");
      [reflexivity|].
    destruct (String.eqb_spec (get_deep_interface results) "tf"); [reflexivity|].
    apply String.eqb_neq. exact Hjax.
Qed.

End WithEnv.
End ParseProps.

(** ** More of the decomposition rules *)

Module DecompProps.
Import Decomp DecompProofs.

Section WithEnv.
Context `{Env}.

(** *** Registration *)

(** No two keys of the registry share a list: [defaultdict] makes a new list
    for every key. *)
Definition separate (st : Store) : Prop :=
  forall key1 key2 r,
    _decompositions st !! key1 = Some r -> _decompositions st !! key2 = Some r ->
    key1 = key2.

Lemma separate_empty : separate empty_store.
Proof. intros key1 key2 r. simpl. rewrite lookup_empty. discriminate. Qed.

Lemma defaultdict_getitem_separate (key : string) (st : Store) :
  wf st -> separate st -> separate (defaultdict_getitem key st).2.
Proof.
  intros Hwf Hsep. unfold defaultdict_getitem.
  destruct (_decompositions st !! key) as [r|] eqn:Hk; simpl; [exact Hsep|].
  set (r := fresh (dom (heap st))).
  assert (Hr : heap st !! r = None) by (apply not_elem_of_dom, is_fresh).
  assert (Hnew : forall key' r', _decompositions st !! key' = Some r' -> r' <> r).
  { intros key' r' Hk' ->. destruct (Hwf key' r Hk') as [l Hl]. congruence. }
  intros key1 key2 r0. cbn [_decompositions].
  destruct (decide (key = key1)) as [<-|H1]; destruct (decide (key = key2)) as [<-|H2];
    rewrite ?lookup_insert_eq, ?lookup_insert_ne by assumption.
  - reflexivity.
  - intros [= <-] Hk2. exfalso. exact (Hnew _ _ Hk2 eq_refl).
  - intros Hk1 [= <-]. exfalso. exact (Hnew _ _ Hk1 eq_refl).
  - apply Hsep.
Qed.

(** A mutation of the list of one key changes what is registered under that
    key and under no other. *)
Lemma registered_list_mutate (op_type op' : OpTypeArg) (r : loc)
  (f : list DecompositionRule -> list DecompositionRule) (st : Store) :
  separate st ->
  _decompositions st !! registry_key op_type = Some r ->
  registered op' (list_mutate r f st)
  = if decide (registry_key op' = registry_key op_type)
    then f (registered op' st) else registered op' st.
Proof.
  intros Hsep Hk. unfold registered, registry_view. simpl. rewrite !lookup_fmap.
  destruct (decide (registry_key op' = registry_key op_type)) as [Heq|Hne].
  - rewrite Heq, Hk. simpl. unfold deref at 1. simpl. rewrite lookup_insert_eq.
    reflexivity.
  - destruct (_decompositions st !! registry_key op') as [r'|] eqn:Hk'; simpl;
      [|reflexivity].
    unfold deref. simpl. rewrite lookup_insert_ne; [reflexivity|].
    intros ->. apply Hne. exact (Hsep _ _ _ Hk' Hk).
Qed.

(** X16.  [add_decomps] refuses the whole call with a [TypeError] when one of its
    arguments is not a rule.  Otherwise the rules are appended, in order, to
    those registered for the operator, which then has a decomposition unless
    the list is still empty; they are registered as well for every name
    that is an alias of the operator, and what is registered for the other
    operators is untouched. *)
Theorem add_decomps_registers (op_type : OpTypeArg) (decomps : list DecompArg)
  (st : Store) :
  wf st -> separate st ->
  if List.forallb is_rule decomps then
    exists st',
      add_decomps op_type decomps st = Ok st'
      /\ wf st' /\ separate st'
      /\ (forall op',
             registered op' st'
             = if decide (registry_key op' = registry_key op_type)
               then registered op' st ++ rules_of decomps
               else registered op' st)
      /\ has_decomp op_type st'
         = negb (Nat.eqb (List.length (registered op_type st ++ rules_of decomps)) 0)
  else add_decomps op_type decomps st = Raise TypeError.
Proof.
  intros Hwf Hsep. unfold add_decomps.
  destruct (List.forallb is_rule decomps); cbn [negb]; [|reflexivity].
  pose proof (defaultdict_getitem_spec (registry_key op_type) st Hwf) as Hget.
  pose proof (defaultdict_getitem_separate (registry_key op_type) st Hwf Hsep) as Hsep0.
  destruct (defaultdict_getitem (registry_key op_type) st) as [r0 st0].
  simpl in Hget, Hsep0. destruct Hget as (Hwf0 & Hk0 & Hderef0 & Hview0).
  eexists. split; [reflexivity|].
  assert (Hreg : forall op',
             registered op' (list_mutate r0 (fun l => l ++ rules_of decomps) st0)
             = if decide (registry_key op' = registry_key op_type)
               then registered op' st ++ rules_of decomps
               else registered op' st).
  { intros op'. rewrite (registered_list_mutate op_type op' r0 _ st0 Hsep0 Hk0).
    unfold registered. rewrite Hview0. reflexivity. }
  split; [apply wf_list_mutate; exact Hwf0|]. split; [exact Hsep0|].
  split; [exact Hreg|].
  rewrite has_decomp_view, Hreg.
  destruct (decide (registry_key op_type = registry_key op_type)); [|contradiction].
  destruct (List.length (registered op_type st ++ rules_of decomps)); reflexivity.
Qed.

(** *** Decorators *)

(** The rule a decorated function or rule stands for. *)
Definition rule_of (qfunc : QFunc) : DecompositionRule :=
  match qfunc with
  | QRule rule => rule
  | QPlain func source => DecompositionRule_init func source ResNone None
  end.

(** X17.  The two decorators can be stacked in either order: the rule obtained
    has the function and the source of what was decorated, the resources
    given to [register_resources] and the condition given to
    [register_condition].  A later [register_resources] or
    [register_condition] replaces an earlier one.  A rule without resources
    cannot compute them, and a rule without condition is always
    applicable. *)
Theorem decorators_stack (resources : ResourcesArg) (condition : Args -> Res bool)
  (qfunc : QFunc) :
  let rule := register_condition condition (QRule (register_resources resources qfunc)) in
  rule = register_resources resources (QRule (register_condition condition qfunc))
  /\ rule = mkRule (_impl (rule_of qfunc)) (_source (rule_of qfunc))
                   (resource_fn_of resources) (Some condition)
  /\ (forall resources',
         register_resources resources' (QRule (register_resources resources qfunc))
         = register_resources resources' qfunc)
  /\ (forall condition',
         register_condition condition' (QRule (register_condition condition qfunc))
         = register_condition condition' qfunc)
  /\ (forall args,
         is_applicable rule args = condition args
         /\ is_applicable (register_resources resources qfunc) args
            = is_applicable (rule_of qfunc) args
         /\ compute_resources rule args
            = compute_resources (register_resources resources qfunc) args
         /\ compute_resources (register_condition condition qfunc) args
            = compute_resources (rule_of qfunc) args)
  /\ (forall func source args,
         compute_resources (register_condition condition (QPlain func source)) args
         = Raise NotImplementedError
         /\ is_applicable (register_resources resources (QPlain func source)) args
            = Ok true).
Proof.
  intros rule. unfold rule.
  destruct qfunc as [func source|[impl source res cond]];
    repeat split; reflexivity.
Qed.

(** *** Resources of any rule *)

(** X18.  What [compute_resources] does with a rule and arguments: without a
    resource function it raises [NotImplementedError]; an error of the
    resource function is passed on; a result that is not a dictionary is an
    [AssertionError]; a dictionary is brought to its canonical form, in
    which every representation present has a positive count, the sum of the
    positive counts of the keys translated to it, and the call raises
    exactly when a key with a positive count cannot be translated. *)
Theorem compute_resources_of_any_rule (self : DecompositionRule) (args : Args) :
  match _compute_resources self with
  | None => compute_resources self args = Raise NotImplementedError
  | Some f =>
      match f args with
      | Raise e => compute_resources self args = Raise e
      | Ok RawOther => compute_resources self args = Raise AssertionError
      | Ok (RawDict d) =>
          match compute_resources self args with
          | Ok res =>
              wrappable d = true
              /\ (forall r v, gate_counts res !! r = Some v -> 0 < v)
              /\ forall r, default 0 (gate_counts res !! r) = canonical_count d r
          | Raise _ => wrappable d = false
          end
      end
  end.
Proof.
  unfold compute_resources.
  destruct (_compute_resources self) as [f|]; [|reflexivity].
  destruct (f args) as [[d|]|e]; cbn [bind]; [|reflexivity|reflexivity].
  assert (Hempty : positive_counter ∅).
  { intros r v. rewrite lookup_empty. discriminate. }
  pose proof (count_gates_spec d ∅ Hempty) as Hspec.
  destruct (count_gates d ∅) as [g|e]; cbn [bind]; [|exact Hspec].
  destruct Hspec as (Hw & Hpos & Hsum). simpl.
  repeat split; [exact Hw|exact Hpos|].
  intros r. rewrite Hsum, lookup_empty. simpl. lia.
Qed.

End WithEnv.
End DecompProps.

(** ** The decompose transform *)

Module DecomposeProps.
Import Decompose.

Section WithEnv.
Context `{Env}.
Variable enabled_graph : bool.

Notation "x <~ c ;; k" := (wbind c (fun x => k))
  (at level 100, c at next level, right associativity).

(** *** The gate set and the stopping condition *)



(** *** The generator of accepted operators *)

Lemma wbind_ext {A B : Type} (m : W A) (k1 k2 : A -> W B) :
  (forall a, k1 a = k2 a) -> wbind m k1 = wbind m k2.
Proof.
  intros Hk. unfold wbind. destruct m as [[a|e] ws]; [rewrite Hk|]; reflexivity.
Qed.

Lemma wflat_map_ext {A B : Type} (f g : A -> W (list B)) (l : list A) :
  (forall x, List.In x l -> f x = g x) -> wflat_map f l = wflat_map g l.
Proof.
  induction l as [|x l IH]; intros Hfg; simpl; [reflexivity|].
  rewrite (Hfg x) by (left; reflexivity).
  rewrite IH by (intros y Hy; apply Hfg; right; exact Hy). reflexivity.
Qed.

Lemma wflat_map_Forall {A B : Type} (P : B -> Prop) (f : A -> W (list B))
  (l : list A) :
  (forall x ys, fst (f x) = Ok ys -> List.Forall P ys) ->
  forall zs, fst (wflat_map f l) = Ok zs -> List.Forall P zs.
Proof.
  intros Hf. induction l as [|x l IH]; intros zs; simpl.
  - intros [= <-]. constructor.
  - unfold wbind. specialize (Hf x).
    destruct (f x) as [[ys|e] ws]; [|discriminate].
    destruct (wflat_map f l) as [[zs'|e] ws']; [|discriminate].
    simpl. intros [= <-]. apply List.Forall_app.
    split; [apply Hf; reflexivity|apply IH; reflexivity].
Qed.

(** With a limit on the depth, the recursion is no deeper than the limit:
    any two amounts of fuel above what is left of it give the same. *)
Lemma generator_fuel_stable (acceptance_function : Operator -> W bool)
  (m : Z) (decomp_graph : option Graph) (fuel1 : nat) :
  forall fuel2 op current_depth,
    (Z.to_nat (m - current_depth) < fuel1)%nat ->
    (Z.to_nat (m - current_depth) < fuel2)%nat ->
    _operator_decomposition_gen fuel1 op acceptance_function (Some m)
                                current_depth decomp_graph
    = _operator_decomposition_gen fuel2 op acceptance_function (Some m)
                                  current_depth decomp_graph.
Proof.
  induction fuel1 as [|fuel1 IH]; intros [|fuel2] op d H1 H2; try lia.
  cbn [_operator_decomposition_gen].
  destruct (acceptance_function op) as [[a|e] ws]; [|reflexivity].
  unfold wbind at 1 3.
  destruct (Z.leb_spec m d) as [Hle|Hlt]; [rewrite orb_true_r; reflexivity|].
  rewrite orb_false_r. destruct a; [reflexivity|].
  rewrite (wbind_ext _ _
             (fun decomp =>
                wflat_map (fun sub_op =>
                             _operator_decomposition_gen fuel2 sub_op
                               acceptance_function (Some m) (d + 1) decomp_graph)
                          decomp)); [reflexivity|].
  intros decomp. apply wflat_map_ext. intros sub _. apply IH; lia.
Qed.

(** Without a limit on the depth, every operator yielded is one the
    acceptance function accepts. *)
Lemma generator_yields_accepted (acceptance_function : Operator -> W bool)
  (decomp_graph : option Graph) (fuel : nat) :
  forall op current_depth yielded,
    fst (_operator_decomposition_gen fuel op acceptance_function None
                                     current_depth decomp_graph)
    = Ok yielded ->
    List.Forall (fun o => fst (acceptance_function o) = Ok true) yielded.
Proof.
  induction fuel as [|fuel IH]; intros op d yielded; [discriminate|].
  cbn [_operator_decomposition_gen].
  destruct (acceptance_function op) as [[a|e] ws] eqn:Hacc; [|discriminate].
  unfold wbind at 1. rewrite orb_false_r. destruct a.
  - simpl. intros [= <-]. constructor; [rewrite Hacc; reflexivity|constructor].
  - match goal with
    | |- context [wbind ?c _] => destruct c as [[decomp|e'] ws']; [|discriminate]
    end.
    unfold wbind.
    match goal with
    | |- context [wflat_map ?f decomp] =>
        pose proof (wflat_map_Forall
                      (fun o => fst (acceptance_function o) = Ok true) f decomp
                      (fun x ys => IH x (d + 1) ys)) as Hall;
        destruct (wflat_map f decomp) as [[zs|e'] ws'']; [|discriminate]
    end.
    simpl. intros [= <-]. apply Hall. reflexivity.
Qed.

(** X20.  An operator the acceptance function accepts is yielded alone and as it
    is; so is any operator at the depth [max_expansion] or deeper.  With a
    [max_expansion] the generator needs no more depth than is left up to
    it.  Without one, every operator yielded is one the acceptance function
    accepts. *)
Theorem operator_decomposition_gen_yields (acceptance_function : Operator -> W bool)
  (decomp_graph : option Graph) (op : Operator) (current_depth : Z) :
  (forall fuel max_expansion ws,
      acceptance_function op = (Ok true, ws) ->
      _operator_decomposition_gen (S fuel) op acceptance_function max_expansion
                                  current_depth decomp_graph
      = (Ok [op], ws))
  /\ (forall fuel m accepted ws,
        m <= current_depth ->
        acceptance_function op = (Ok accepted, ws) ->
        _operator_decomposition_gen (S fuel) op acceptance_function (Some m)
                                    current_depth decomp_graph
        = (Ok [op], ws))
  /\ (forall fuel1 fuel2 m,
        (Z.to_nat (m - current_depth) < fuel1)%nat ->
        (Z.to_nat (m - current_depth) < fuel2)%nat ->
        _operator_decomposition_gen fuel1 op acceptance_function (Some m)
                                    current_depth decomp_graph
        = _operator_decomposition_gen fuel2 op acceptance_function (Some m)
                                      current_depth decomp_graph)
  /\ (forall fuel yielded,
        fst (_operator_decomposition_gen fuel op acceptance_function None
                                         current_depth decomp_graph)
        = Ok yielded ->
        List.Forall (fun o => fst (acceptance_function o) = Ok true) yielded).
Proof.
  split; [|split; [|split]].
  - intros fuel max_expansion ws Hacc. cbn [_operator_decomposition_gen].
    rewrite Hacc. unfold wbind. simpl. rewrite List.app_nil_r. reflexivity.
  - intros fuel m accepted ws Hm Hacc. cbn [_operator_decomposition_gen].
    rewrite Hacc. unfold wbind.
    destruct (Z.leb_spec m current_depth); [|lia].
    rewrite orb_true_r. simpl. rewrite List.app_nil_r. reflexivity.
  - intros fuel1 fuel2 m. apply generator_fuel_stable.
  - intros fuel yielded. apply generator_yields_accepted.
Qed.

(** *** The transform *)



(** The operators that need no further decomposition: those the resolved
    stopping condition accepts and, with the graph disabled, those without
    a decomposition. *)
Definition final (stop : Operator -> Res bool) (op : Operator) : Prop :=
  stop op = Ok true \/ (enabled_graph = false /\ has_decomposition op = false).


End WithEnv.
End DecomposeProps.

(** ** The properties above on the instances *)

Module Examples.
Import Instances MoreInstances.

(** Three recorded samples of the first measurement, outcome 0 active: the
    two samples of the second measurement go to the first and the third
    position. *)
Lemma update_mcm_samples_read_back_witness :
  exists updated arr,
    Simulate.update_mcm_samples_dicts (H := exact_backend) m1_post1 [1; 0]
      [(m0, 0)] [(m0, [0; 1; 0])]
    = (Ok tt, updated)
    /\ Dict.get mcm_eqb m1_post1 updated = Some arr
    /\ List.length arr = 3%nat
    /\ SimulateProofs.keep
         (SimulateProps.on_path m1_post1 [(m0, 0)] [(m0, [0; 1; 0])]) arr
       = [1; 0]
    /\ SimulateProofs.keep
         (fun i => negb (SimulateProps.on_path m1_post1 [(m0, 0)]
                           [(m0, [0; 1; 0])] i)) arr
       = SimulateProofs.keep
           (fun i => negb (SimulateProps.on_path m1_post1 [(m0, 0)]
                             [(m0, [0; 1; 0])] i))
           (match Dict.get mcm_eqb m1_post1 [(m0, [0; 1; 0])] with
            | Some old => old
            | None => Simulate.np_empty (H := exact_backend) 3
            end)
    /\ forall k, k <> m1_post1 ->
         Dict.get mcm_eqb k updated = Dict.get mcm_eqb k [(m0, [0; 1; 0])].
Proof.
  apply (proj2 (SimulateProps.update_mcm_samples_read_back (H := exact_backend)
                  m1_post1 [1; 0] [(m0, 0)] [(m0, [0; 1; 0])] 3)).
  - discriminate.
  - discriminate.
  - repeat constructor.
  - repeat constructor.
  - reflexivity.
Defined.

Lemma simulate_tree_mcm_shot_vector_witness :
  Simulate.simulate_tree_mcm (H := exact_backend) tape_shot_vector None
    [sampled [1; 1]; Simulate.RTuple [Simulate.RTensor (TReal (-1))];
     sampled [0; 1]; Simulate.RTuple [Simulate.RTensor (TReal (-1))]]
  = (Ok (Simulate.RTuple [Simulate.RTensor (TReal (-1));
                          Simulate.RTensor (TReal (-1))]), []).
Proof.
  rewrite (proj1 (SimulateProps.simulate_tree_mcm_shot_vector (H := exact_backend)
                    tape_shot_vector None eq_refl)).
  vm_compute. reflexivity.
Defined.

Lemma get_final_state_keeps_circuit_witness :
  List.existsb Simulate.is_Projector
    (operations (mkQS [R0] [expval_Z0] (Finite [2%nat]) [])) = false
  /\ mkQS [R0] [expval_Z0] (Finite [2%nat]) []
     = mkQS [R0] [expval_Z0] (Finite [2%nat]) [].
Proof.
  split; [reflexivity|].
  apply (SimulateProps.get_final_state_keeps_circuit (H := exact_backend)
           (mkQS [R0] [expval_Z0] (Finite [2%nat]) []) None None None
           (fresh_store []) eq_refl [3 # 5; 4 # 5]%Q false).
  vm_compute. reflexivity.
Defined.


(** *** The one-shot transform *)

Lemma dynamic_one_shot_broadcast_samples_witness :
  OneShot.dynamic_one_shot (H := list_env) tape_broadcast_samples no_kwargs
  = Raise ValueError.
Proof.
  apply (proj2 (OneShotProps.dynamic_one_shot_broadcast_samples (H := list_env)
                  tape_broadcast_samples no_kwargs eq_refl eq_refl eq_refl)).
  repeat split; discriminate.
Defined.

(** Three per-shot results for the shot vector [(1, 2)]: one group of one
    and one group of two. *)
Lemma processing_fn_shot_vector_witness :
  OneShot.processing_fn (H := list_env)
    (mkQS [MidMeasure m0] [expval_Z0] (Finite [1%nat; 2%nat]) []) [] None None
    [OneShot.PSeq [OneShot.PTensor [1]; OneShot.PTensor [2]; OneShot.PTensor [3]]]
  = Ok (OneShot.PSeq [OneShot.PSeq [OneShot.PTensor [1]];
                      OneShot.PSeq [OneShot.PTensor [2; 3]]]).
Proof.
  refine (eq_trans
            (proj1 (OneShotProps.processing_fn_shot_vector (H := list_env)
                      (mkQS [MidMeasure m0] [expval_Z0] (Finite [1%nat; 2%nat]) [])
                      [] None None
                      [OneShot.PTensor [1]; OneShot.PTensor [2]; OneShot.PTensor [3]]
                      [] eq_refl eq_refl)) _).
  reflexivity.
Defined.

Lemma supports_one_shot_cases_witness :
  Qnode._supports_one_shot legacy_device = Raise AssertionError
  /\ Qnode._supports_one_shot default_qubit = Ok true.
Proof.
  split.
  - apply (proj1 (QnodeProps.supports_one_shot_cases legacy_device));
      reflexivity.
  - apply (proj1 (proj2 (QnodeProps.supports_one_shot_cases default_qubit)
                    eq_refl)).
    left. reflexivity.
Defined.

(** Two shots of [aux_post1]: the expectation values, then the samples of
    the measurement, of which the second is the postselected value. *)
Lemma parse_valid_shots_witness :
  exists mcm_samples,
    Parse.parse_native_mid_circuit_measurements (H := list_results)
      tape_post1 [aux_post1] [[1; -1]; [0; 1]] None
    = (normalized_meas <-
         Parse.normalize (H := list_results) [[1; -1]; [0; 1]] None
           (ParseProps.interface_of (H := list_results) [[1; -1]; [0; 1]])
           mcm_samples [false; true] (measurements tape_post1) 0 [] ;;
       Parse.pack normalized_meas).
Proof.
  apply (ParseProps.parse_valid_shots (H := list_results) tape_post1 aux_post1 []
           [[1; -1]; [0; 1]] None [[0; 1]] 2 eq_refl eq_refl).
  - discriminate.
  - repeat constructor.
Defined.

(** Two shots, both with outcome 0 where 1 is postselected. *)
Lemma parse_without_valid_shot_witness :
  Parse.parse_native_mid_circuit_measurements (H := list_results)
    tape_post1 [aux_post1] [[1; 1]; [0; 0]] None
  = Ok (OneShot.PTensor []).
Proof.
  rewrite (ParseProps.parse_without_valid_shot (H := list_results) tape_post1
             aux_post1 [] [[1; 1]; [0; 0]] None [[0; 0]] 2 eq_refl eq_refl).
  - reflexivity.
  - discriminate.
  - repeat constructor.
  - intros [|[|i]] Hi; [reflexivity|reflexivity|lia].
  - discriminate.
Defined.

(** *** Decomposition rules *)

Lemma add_decomps_registers_witness :
  exists st',
    Decomp.add_decomps (H := DecompProofs.plain_env)
      (Decomp.ByType DecompProofs.Hadamard) [Decomp.ARule DecompProofs.h_to_cz]
      Decomp.empty_store
    = Ok st'
    /\ DecompProofs.registered (H := DecompProofs.plain_env)
         (Decomp.ByName "Hadamard") st'
       = [DecompProofs.h_to_cz]
    /\ DecompProofs.registered (H := DecompProofs.plain_env)
         (Decomp.ByType DecompProofs.CZ) st'
       = []
    /\ Decomp.has_decomp (H := DecompProofs.plain_env)
         (Decomp.ByType DecompProofs.Hadamard) st'
       = true.
Proof.
  destruct (DecompProps.add_decomps_registers (H := DecompProofs.plain_env)
              (Decomp.ByType DecompProofs.Hadamard)
              [Decomp.ARule DecompProofs.h_to_cz]
              Decomp.empty_store DecompProofs.wf_empty
              (DecompProps.separate_empty (H := DecompProofs.plain_env)))
    as (st' & Hadd & _ & _ & Hreg & Hhas).
  exists st'. split; [exact Hadd|]. split; [|split].
  - rewrite Hreg. reflexivity.
  - rewrite Hreg. reflexivity.
  - exact Hhas.
Defined.

(** *** The decompose transform *)

Lemma operator_decomposition_gen_yields_witness :
  Decompose._operator_decomposition_gen (H := gates) 1 (Hadamard_on 0%nat)
    accepts_h_cz None 0 None
  = (Ok [Hadamard_on 0%nat], [])
  /\ Decompose._operator_decomposition_gen (H := gates) 1 (Toffoli_on 0%nat 1%nat 2%nat)
       accepts_h_cz (Some 0) 0 None
     = (Ok [Toffoli_on 0%nat 1%nat 2%nat], [])
  /\ Decompose._operator_decomposition_gen (H := gates) 3 (Toffoli_on 0%nat 1%nat 2%nat)
       accepts_h_cz (Some 1) 0 None
     = Decompose._operator_decomposition_gen (H := gates) 2 (Toffoli_on 0%nat 1%nat 2%nat)
         accepts_h_cz (Some 1) 0 None
  /\ List.Forall (fun o => fst (accepts_h_cz o) = Ok true)
       [Hadamard_on 2%nat; CZ_on 0%nat 2%nat; Hadamard_on 2%nat;
        Hadamard_on 2%nat; CZ_on 1%nat 2%nat; Hadamard_on 2%nat].
Proof.
  split; [|split; [|split]].
  - apply (proj1 (DecomposeProps.operator_decomposition_gen_yields (H := gates)
                    accepts_h_cz None (Hadamard_on 0%nat) 0)).
    reflexivity.
  - apply (proj1 (proj2 (DecomposeProps.operator_decomposition_gen_yields
                           (H := gates) accepts_h_cz None
                           (Toffoli_on 0%nat 1%nat 2%nat) 0))
             0%nat 0 false []); [lia|reflexivity].
  - apply (proj1 (proj2 (proj2 (DecomposeProps.operator_decomposition_gen_yields
                                  (H := gates) accepts_h_cz None
                                  (Toffoli_on 0%nat 1%nat 2%nat) 0))));
      simpl; lia.
  - apply (proj2 (proj2 (proj2 (DecomposeProps.operator_decomposition_gen_yields
                                  (H := gates) accepts_h_cz None
                                  (Toffoli_on 0%nat 1%nat 2%nat) 0)))
             3%nat).
    reflexivity.
Defined.


End Examples.
